(** * gr-dflood: the dflood protocol engine (python/dflood.py)

    A shallow embedding of the [dflood] block: its three soft-state tables,
    the receive handlers for SINK, DATA and NOTI packets, the application
    ingress and the periodic control handler, followed by the properties of
    the engine that are stated in the specification.

    Modelling conventions.
    - Python integers are [Z]; time stamps, intervals and the value of
      [random.random()] are Python floats and are modelled as rationals [Q]
      (no rounding): a computed time is stated by the expression the code
      evaluates.
    - A u8vector holds bytes.  The vectors a node receives are lists of [Z];
      [pmt.init_u8vector] is modelled on lists of bytes ([all_bytes]).
    - Every handler invocation runs at one instant: all calls of
      [time.time()] made during one invocation return [now], and the single
      call of [random.random()] it may make returns [rnd].
    - The dictionaries are [gmap]s.  [dict.keys()] (Python 2: a fresh list)
      is [dict_keys]; all loop lemmas are proved for arbitrary key lists.
    - A handler is a computation in [M]: it reads the instant, threads the
      engine state, appends to the emission log and may raise a Python
      exception.  State changes and emissions made before an exception is
      raised are kept, as in Python.
    - Diagnostic text on stderr/stdout is not modelled; what can raise while
      producing it is. *)

From Stdlib Require Import ZArith QArith Lia Lqa.
From stdpp Require Import base option list gmap strings.

Local Open Scope Z_scope.

(** ** Python values met in the metadata dictionary *)

Inductive pyval :=
| PyNone
| PyBool (b : bool)
| PyInt (z : Z)
| PyStr (s : string).

(** Truth value of [not v] is [negb (truthy v)]. *)
Definition truthy (v : pyval) : bool :=
  match v with
  | PyNone => false
  | PyBool b => b
  | PyInt z => negb (z =? 0)
  | PyStr s => negb (String.eqb s "")
  end.

(** ** PMT messages, as far as the port adapter inspects them *)

Inductive pmt_t :=
| pmt_nil
| pmt_bool (b : bool)
| pmt_long (z : Z)
| pmt_symbol (s : string)
| pmt_u8vector (elts : list Z)
| pmt_dict (d : gmap string pyval)
| pmt_cons (car cdr : pmt_t).

(** [pmt.to_python(meta)] followed by
    [if not (type(meta_dict) is dict): meta_dict = {}]. *)
Definition meta_dict_of (meta : pmt_t) : gmap string pyval :=
  match meta with
  | pmt_dict d => d
  | _ => ∅
  end.

(** ** Tables *)

Record SinkNeighborVal := mkSinkNeighborVal {
  last_rcvd_seq_num : Z;
  nb_min_dx_to_sink : Z;
  nb_last_time_heard : Q;
  nb_broadcast_interval : Q
}.

Record SinkVal := mkSinkVal {
  highest_rcvd_seq_num : Z;
  min_dx_to_sink : Z;
  last_time_heard : Q;
  forwarding_time : Q;
  scheduled : bool;
  temp_min_dx_to_sink : Z
}.

(** [dp_data] is the field [data] of the source; it is [None] once the entry
    was forwarded or cancelled. *)
Record DataPktVal := mkDataPktVal {
  dp_data : option (list Z);
  dp_last_time_heard : Q;
  dp_forwarding_time : Q;
  dp_scheduled : bool;
  duplicates : Z
}.

(** ** Construction parameters and constants *)

Record Config := mkConfig {
  addr : Z;
  SINK_ADDR : Z;
  init_broadcast_interval : Q;
  Tmin : Q;
  Tmax : Q;
  Ndupl : Z;
  Plt : Q;
  Slt : Q;
  R : Z;
  debug_stderr : bool
}.

Definition large_backoff : Q := 5.
Definition small_backoff : Q := 5 # 2.
Definition low_backoff : Q := 1.

Definition PKT_PROT_ID : nat := 0.
Definition PKT_SNDR : nat := 1.
Definition PKT_SRC : nat := 2.
Definition PKT_SN : nat := 3.
Definition PKT_HC : nat := 4.
Definition DATA_PKT_MIN_LENGTH : nat := 7.
Definition DATA_PROTO : Z := 0.
Definition DATA_PKT_DEST : nat := 5.
Definition DATA_PKT_TTL : nat := 6.
Definition SINK_PKT_LENGTH : nat := 5.
Definition SINK_PROTO : Z := 1.
Definition RECV_NOTI_LENGTH : nat := 4.
Definition NOTI_PROTO : Z := 2.

(** ** Engine state *)

Record State := mkState {
  broadcast_interval : Q;
  sequence_number : Z;
  sink_pkt_xmit_time : option Q;
  pkt_cnt : Z;
  sinkNeighborTable : gmap (Z * Z) SinkNeighborVal;
  sinkTable : gmap Z SinkVal;
  dataPacketTable : gmap (Z * Z * Z) DataPktVal
}.

(** The state built by [__init__]. *)
Definition init (cfg : Config) : State :=
  {| broadcast_interval := init_broadcast_interval cfg;
     sequence_number := 0;
     sink_pkt_xmit_time := None;
     pkt_cnt := 0;
     sinkNeighborTable := ∅;
     sinkTable := ∅;
     dataPacketTable := ∅ |}.

Definition set_broadcast_interval (x : Q) (s : State) : State :=
  {| broadcast_interval := x;
     sequence_number := sequence_number s;
     sink_pkt_xmit_time := sink_pkt_xmit_time s;
     pkt_cnt := pkt_cnt s;
     sinkNeighborTable := sinkNeighborTable s;
     sinkTable := sinkTable s;
     dataPacketTable := dataPacketTable s |}.

Definition set_sequence_number (x : Z) (s : State) : State :=
  {| broadcast_interval := broadcast_interval s;
     sequence_number := x;
     sink_pkt_xmit_time := sink_pkt_xmit_time s;
     pkt_cnt := pkt_cnt s;
     sinkNeighborTable := sinkNeighborTable s;
     sinkTable := sinkTable s;
     dataPacketTable := dataPacketTable s |}.

Definition set_sink_pkt_xmit_time (x : option Q) (s : State) : State :=
  {| broadcast_interval := broadcast_interval s;
     sequence_number := sequence_number s;
     sink_pkt_xmit_time := x;
     pkt_cnt := pkt_cnt s;
     sinkNeighborTable := sinkNeighborTable s;
     sinkTable := sinkTable s;
     dataPacketTable := dataPacketTable s |}.

Definition set_pkt_cnt (x : Z) (s : State) : State :=
  {| broadcast_interval := broadcast_interval s;
     sequence_number := sequence_number s;
     sink_pkt_xmit_time := sink_pkt_xmit_time s;
     pkt_cnt := x;
     sinkNeighborTable := sinkNeighborTable s;
     sinkTable := sinkTable s;
     dataPacketTable := dataPacketTable s |}.

Definition set_sinkNeighborTable
    (f : gmap (Z * Z) SinkNeighborVal → gmap (Z * Z) SinkNeighborVal)
    (s : State) : State :=
  {| broadcast_interval := broadcast_interval s;
     sequence_number := sequence_number s;
     sink_pkt_xmit_time := sink_pkt_xmit_time s;
     pkt_cnt := pkt_cnt s;
     sinkNeighborTable := f (sinkNeighborTable s);
     sinkTable := sinkTable s;
     dataPacketTable := dataPacketTable s |}.

Definition set_sinkTable (f : gmap Z SinkVal → gmap Z SinkVal)
    (s : State) : State :=
  {| broadcast_interval := broadcast_interval s;
     sequence_number := sequence_number s;
     sink_pkt_xmit_time := sink_pkt_xmit_time s;
     pkt_cnt := pkt_cnt s;
     sinkNeighborTable := sinkNeighborTable s;
     sinkTable := f (sinkTable s);
     dataPacketTable := dataPacketTable s |}.

Definition set_dataPacketTable
    (f : gmap (Z * Z * Z) DataPktVal → gmap (Z * Z * Z) DataPktVal)
    (s : State) : State :=
  {| broadcast_interval := broadcast_interval s;
     sequence_number := sequence_number s;
     sink_pkt_xmit_time := sink_pkt_xmit_time s;
     pkt_cnt := pkt_cnt s;
     sinkNeighborTable := sinkNeighborTable s;
     sinkTable := sinkTable s;
     dataPacketTable := f (dataPacketTable s) |}.

(** ** Output ports and the handler monad *)

Inductive Output :=
| to_radio (pdu : list Z)
| to_app (meta : gmap string pyval) (payload : list Z).

Inductive exn :=
| IndexError
| KeyError
| TypeError
| ValueError
| UnboundLocalError.

Inductive result (A : Type) :=
| Ok (a : A)
| Raise (e : exn).
Arguments Ok {A} a.
Arguments Raise {A} e.

(** The instant of an invocation and the value its [random.random()] call
    returns. *)
Record Env := mkEnv { now : Q; rnd : Q }.

Definition M (A : Type) : Type :=
  Env → State → State * list Output * result A.

#[export] Instance M_ret : MRet M := λ A a _ s, (s, [], Ok a).

#[export] Instance M_bind : MBind M := λ A B f m e s,
  match m e s with
  | (s1, o1, Ok a) =>
      match f a e s1 with
      | (s2, o2, r) => (s2, o1 ++ o2, r)
      end
  | (s1, o1, Raise x) => (s1, o1, Raise x)
  end.

Definition raise {A} (x : exn) : M A := λ _ s, (s, [], Raise x).
Definition get_state : M State := λ _ s, (s, [], Ok s).
Definition modify (f : State → State) : M unit := λ _ s, (f s, [], Ok tt).
Definition time_time : M Q := λ e s, (s, [], Ok (now e)).
Definition random_random : M Q := λ e s, (s, [], Ok (rnd e)).
Definition message_port_pub (o : Output) : M unit := λ _ s, (s, [o], Ok tt).

(** Projections of one run of a handler. *)
Definition post {A} (r : State * list Output * result A) : State := r.1.1.
Definition emitted {A} (r : State * list Output * result A) : list Output :=
  r.1.2.
Definition outcome {A} (r : State * list Output * result A) : result A := r.2.

(** [for k in keys: body(k)] *)
Fixpoint for_each {K : Type} (keys : list K) (body : K → M unit) : M unit :=
  match keys with
  | [] => mret tt
  | k :: ks => body k ;; for_each ks body
  end.

(** [d.keys()] *)
Definition dict_keys {K V : Type} `{Countable K} (d : gmap K V) : list K :=
  (map_to_list d).*1.

(** [k in d] and [k in d.keys()] *)
Definition dict_contains {K V : Type} `{Countable K} (d : gmap K V) (k : K)
    : bool :=
  match d !! k with
  | Some _ => true
  | None => false
  end.

(** [l[i]] for a constant index [i >= 0] *)
Definition getitem (l : list Z) (i : nat) : M Z :=
  match l !! i with
  | Some x => mret x
  | None => raise IndexError
  end.

(** [l[i] = x] on a list *)
Definition setitem (l : list Z) (i : nat) (x : Z) : M (list Z) :=
  if decide (i < length l)%nat then mret (<[i := x]> l) else raise IndexError.

(** [d[k]] *)
Definition dict_getitem {K V : Type} `{Countable K} (d : gmap K V) (k : K)
    : M V :=
  match d !! k with
  | Some v => mret v
  | None => raise KeyError
  end.

(** [len(x)], where [x] may be [None] *)
Definition len (x : option (list Z)) : M nat :=
  match x with
  | Some l => mret (length l)
  | None => raise TypeError
  end.

(** A byte, and a list of bytes: what a u8vector can hold. *)
Definition is_byte (x : Z) : bool := (0 <=? x) && (x <? 256).

Definition all_bytes (l : list Z) : bool := forallb is_byte l.

(** [pmt.init_u8vector(len(x), x)] for a list [x] of bytes.  [len(None)]
    raises [TypeError].  What the library, which is outside the sources, does
    with an integer that is not a byte is not modelled: a statement about a
    publication speaks of the source as far as the published vector
    satisfies [all_bytes]. *)
Definition init_u8vector (x : option (list Z)) : M (list Z) :=
  n ← len x;
  match x with
  | Some l => mret l
  | None => raise TypeError
  end.

(** [x in l] for a list of integers *)
Definition py_in (x : Z) (l : list Z) : bool := existsb (Z.eqb x) l.

(** [a > b] and [a >= b] on floats *)
Definition Qgtb (a b : Q) : bool := negb (Qle_bool a b).
Definition Qgeb (a b : Q) : bool := Qle_bool b a.

(** ** Aging of the three tables *)

(** Body of the loop of [check_sink_neighbor_table]. *)
Definition age_sink_neighbor_entry (cfg : Config) (time_now : Q)
    (key : Z * Z) : M unit :=
  s ← get_state;
  v ← dict_getitem (sinkNeighborTable s) key;
  let diff := (time_now - nb_last_time_heard v)%Q in
  if Qgtb diff (Slt cfg)
  then modify (set_sinkNeighborTable (delete key))
  else mret tt.

Definition check_sink_neighbor_table (cfg : Config) : M unit :=
  time_now ← time_time;
  s ← get_state;
  let keys := dict_keys (sinkNeighborTable s) in
  for_each keys (age_sink_neighbor_entry cfg time_now).

(** Body of the loop of [check_sink_table]. *)
Definition age_sink_entry (cfg : Config) (time_now : Q) (key : Z) : M unit :=
  s ← get_state;
  v ← dict_getitem (sinkTable s) key;
  let diff := (time_now - last_time_heard v)%Q in
  if Qgtb diff (Slt cfg)
  then modify (set_sinkTable (delete key))
  else mret tt.

Definition check_sink_table (cfg : Config) : M unit :=
  time_now ← time_time;
  s ← get_state;
  let keys := dict_keys (sinkTable s) in
  for_each keys (age_sink_entry cfg time_now).

(** Body of the loop of [check_data_packet_table]. *)
Definition age_data_entry (cfg : Config) (time_now : Q) (key : Z * Z * Z)
    : M unit :=
  s ← get_state;
  v ← dict_getitem (dataPacketTable s) key;
  let diff := (time_now - dp_last_time_heard v)%Q in
  if Qgtb diff (Plt cfg)
  then modify (set_dataPacketTable (delete key))
  else mret tt.

Definition check_data_packet_table (cfg : Config) : M unit :=
  time_now ← time_time;
  s ← get_state;
  let keys := dict_keys (dataPacketTable s) in
  for_each keys (age_data_entry cfg time_now).

(** [min(keylist)]: raises [ValueError] on an empty list. *)
Definition py_min (l : list Z) : M Z :=
  match l with
  | [] => raise ValueError
  | x :: xs => mret (foldr Z.min x xs)
  end.

Definition minium_addr_in_sink_neighbor_table : M Z :=
  s ← get_state;
  let keylist := (dict_keys (sinkNeighborTable s)).*1 in
  py_min keylist.

(** ** Diagnostics that can raise *)

(** [print_pkt(pkt)] starts with [len(pkt)]; on a list it only writes. *)
Definition print_pkt (pkt : option (list Z)) : M unit :=
  n ← len pkt;
  mret tt.

(** ** Emission *)

Definition send_pkt_radio (cfg : Config) (payload : list Z)
    (meta_dict : gmap string pyval) (pkt_cnt : Z) : M unit :=
  s ← get_state;
  if negb (dict_contains (sinkTable s) (SINK_ADDR cfg))
  then mret tt
  else
    aSinkVal ← dict_getitem (sinkTable s) (SINK_ADDR cfg);
    let data := [DATA_PROTO; addr cfg; addr cfg; pkt_cnt;
                 min_dx_to_sink aSinkVal; SINK_ADDR cfg;
                 min_dx_to_sink aSinkVal + R cfg] ++ payload in
    (if debug_stderr cfg then print_pkt (Some data) else mret tt);;
    pdu ← init_u8vector (Some data);
    message_port_pub (to_radio pdu).

Definition send_sink_pkt (cfg : Config) (a seq_num hop_count : Z) : M unit :=
  let data := [SINK_PROTO; addr cfg; a; seq_num; hop_count] in
  pdu ← init_u8vector (Some data);
  message_port_pub (to_radio pdu);;
  t ← time_time;
  modify (set_sink_pkt_xmit_time (Some t)).

Definition send_notification_radio (cfg : Config) (source seq_num : Z)
    : M unit :=
  let data := [NOTI_PROTO; addr cfg; source; seq_num] in
  pdu ← init_u8vector (Some data);
  message_port_pub (to_radio pdu).

Definition output_user_data (data : list Z) (meta_dict : gmap string pyval)
    : M unit :=
  message_port_pub (to_app meta_dict (drop DATA_PKT_MIN_LENGTH data)).

(** ** SINK-packet ingress *)

(** First half of [handle_sink_packet]: create or update the sink-neighbor
    entry.  The local [nbi] is assigned only on the two branches guarded by
    [debug_stderr]; it is read when the value record is built. *)
Definition update_sink_neighbor_entry (cfg : Config) (data : list Z)
    : M (Z * Z) :=
  sndr ← getitem data PKT_SNDR;
  src ← getitem data PKT_SRC;
  let key := (sndr, src) in
  s ← get_state;
  nbi ← (if negb (dict_contains (sinkNeighborTable s) key) && debug_stderr cfg
         then mret (Some (broadcast_interval s))
         else if debug_stderr cfg
         then
           v ← dict_getitem (sinkNeighborTable s) key;
           let lbt := nb_last_time_heard v in
           let obi := nb_broadcast_interval v in
           t ← time_time;
           mret (Some ((8 # 10) * obi + (2 # 10) * (t - lbt))%Q)
         else mret None);
  sn ← getitem data PKT_SN;
  hc ← getitem data PKT_HC;
  t ← time_time;
  nbi ← (match nbi with
         | Some x => mret x
         | None => raise UnboundLocalError
         end);
  let aSinkNeighborVal := mkSinkNeighborVal sn hc t nbi in
  modify (set_sinkNeighborTable (insert key aSinkNeighborVal));;
  mret key.

(** [if self.addr > self.minium_addr_in_sink_neighbor_table(): ...] *)
Definition adjust_broadcast_interval (cfg : Config) (key : Z * Z) : M unit :=
  m ← minium_addr_in_sink_neighbor_table;
  if addr cfg >? m
  then
    s ← get_state;
    v ← dict_getitem (sinkNeighborTable s) key;
    modify (set_broadcast_interval (nb_broadcast_interval v))
  else mret tt.

(** Second half of [handle_sink_packet]: the sink table. *)
Definition update_sink_entry (cfg : Config) (data : list Z) : M unit :=
  key ← getitem data PKT_SRC;
  s ← get_state;
  if negb (dict_contains (sinkTable s) key)
  then
    sn ← getitem data PKT_SN;
    hc ← getitem data PKT_HC;
    t ← time_time;
    let aSinkVal :=
      mkSinkVal sn (hc + 1) t (t + small_backoff)%Q true hc in
    modify (set_sinkTable (insert key aSinkVal))
  else
    aSinkVal ← dict_getitem (sinkTable s) key;
    sn ← getitem data PKT_SN;
    hc ← getitem data PKT_HC;
    t ← time_time;
    let highest := highest_rcvd_seq_num aSinkVal in
    let min_dx := min_dx_to_sink aSinkVal in
    let ft := forwarding_time aSinkVal in
    let sch := scheduled aSinkVal in
    let tmp := temp_min_dx_to_sink aSinkVal in
    let aSinkVal' :=
      if sn >? highest
      then mkSinkVal sn min_dx t
             (if hc >? min_dx then t + large_backoff else t + small_backoff)%Q
             true hc
      else if sn =? highest
      then
        if negb sch
        then
          if hc <? min_dx
          then mkSinkVal highest min_dx t (t + low_backoff)%Q true tmp
          else mkSinkVal highest min_dx t ft sch tmp
        else
          if hc <? tmp
          then mkSinkVal highest min_dx t ft sch hc
          else mkSinkVal highest min_dx t ft sch tmp
      else mkSinkVal highest min_dx t ft sch tmp in
    modify (set_sinkTable (insert key aSinkVal')).

Definition handle_sink_packet (cfg : Config) (data : list Z)
    (meta_dict : gmap string pyval) : M unit :=
  key ← update_sink_neighbor_entry cfg data;
  adjust_broadcast_interval cfg key;;
  update_sink_entry cfg data.

(** ** DATA-packet ingress *)

Definition handle_data_packet (cfg : Config) (data : list Z)
    (meta_dict : gmap string pyval) : M unit :=
  dest ← getitem data DATA_PKT_DEST;
  if dest =? addr cfg
  then
    src ← getitem data PKT_SRC;
    sn ← getitem data PKT_SN;
    send_notification_radio cfg src sn;;
    output_user_data data meta_dict
  else
    s ← get_state;
    if dict_contains (sinkTable s) dest
    then
      aSinkVal ← dict_getitem (sinkTable s) dest;
      let my_dx_to_sink := min_dx_to_sink aSinkVal in
      ttl ← getitem data DATA_PKT_TTL;
      if ttl - 1 <? my_dx_to_sink
      then mret tt
      else
        src ← getitem data PKT_SRC;
        sn ← getitem data PKT_SN;
        let key := (src, dest, sn) in
        if negb (dict_contains (dataPacketTable s) key)
        then
          data1 ← setitem data PKT_SNDR (addr cfg);
          data2 ← setitem data1 PKT_HC my_dx_to_sink;
          ttl' ← getitem data2 DATA_PKT_TTL;
          data3 ← setitem data2 DATA_PKT_TTL (ttl' - 1);
          t ← time_time;
          u ← random_random;
          let forwarding_time := (t + Tmin cfg + u * (Tmax cfg - Tmin cfg))%Q in
          modify (set_dataPacketTable
                    (insert key (mkDataPktVal (Some data3) t forwarding_time
                                   true 0)))
        else
          hc ← getitem data PKT_HC;
          if hc <=? my_dx_to_sink
          then
            aDataPktVal ← dict_getitem (dataPacketTable s) key;
            modify (set_dataPacketTable
                      (insert key
                         (mkDataPktVal
                            (dp_data aDataPktVal)
                            (dp_last_time_heard aDataPktVal)
                            (dp_forwarding_time aDataPktVal)
                            (duplicates aDataPktVal + 1 <? Ndupl cfg)
                            (duplicates aDataPktVal + 1))))
          else mret tt
    else mret tt.

(** ** NOTI-packet ingress *)

Definition handle_receive_notification (cfg : Config) (data : list Z)
    (meta_dict : gmap string pyval) : M unit :=
  src ← getitem data PKT_SRC;
  sndr ← getitem data PKT_SNDR;
  sn ← getitem data PKT_SN;
  let key := (src, sndr, sn) in
  s ← get_state;
  if dict_contains (dataPacketTable s) key
  then
    v ← dict_getitem (dataPacketTable s) key;
    modify (set_dataPacketTable
              (insert key
                 (mkDataPktVal None (dp_last_time_heard v) 0 false
                    (duplicates v))))
  else mret tt.

(** ** Radio ingress *)

(** [crc_ok = True], replaced by [meta_dict['CRC_OK']] when the key is in the
    dictionary; [not crc_ok] takes its truth value. *)
Definition crc_ok (meta_dict : gmap string pyval) : bool :=
  match meta_dict !! "CRC_OK"%string with
  | Some v => truthy v
  | None => true
  end.

Definition _radio_rx (cfg : Config) (data : list Z)
    (meta_dict : gmap string pyval) : M unit :=
  if negb (crc_ok meta_dict)
  then mret tt
  else
    proto ← getitem data PKT_PROT_ID;
    if negb (py_in proto [DATA_PROTO; SINK_PROTO; NOTI_PROTO])
    then mret tt
    else
      if (proto =? DATA_PROTO) && (length data <? DATA_PKT_MIN_LENGTH)%nat
         || (proto =? SINK_PROTO) && negb (length data =? SINK_PKT_LENGTH)%nat
         || (proto =? NOTI_PROTO) && negb (length data =? RECV_NOTI_LENGTH)%nat
      then mret tt
      else
        sndr ← getitem data PKT_SNDR;
        from_self ← (if sndr =? addr cfg
                     then mret true
                     else src ← getitem data PKT_SRC; mret (src =? addr cfg));
        if from_self : bool
        then mret tt
        else
          (if debug_stderr cfg && (proto =? DATA_PROTO)
           then print_pkt (Some data)
           else mret tt);;
          if proto =? SINK_PROTO
          then handle_sink_packet cfg data meta_dict
          else if proto =? DATA_PROTO
          then handle_data_packet cfg data meta_dict
          else if proto =? NOTI_PROTO
          then handle_receive_notification cfg data meta_dict
          else mret tt.

Definition radio_rx (cfg : Config) (msg : pmt_t) : M unit :=
  match msg with
  | pmt_cons meta data =>
      match data with
      | pmt_u8vector elts => _radio_rx cfg elts (meta_dict_of meta)
      | _ => mret tt
      end
  | _ => mret tt
  end.

(** ** Application ingress *)

Definition _app_rx (cfg : Config) (msg : pmt_t) : M unit :=
  match msg with
  | pmt_cons meta data =>
      match data with
      | pmt_u8vector elts =>
          s ← get_state;
          send_pkt_radio cfg elts (meta_dict_of meta) (pkt_cnt s);;
          s ← get_state;
          modify (set_pkt_cnt ((pkt_cnt s + 1) mod 256))
      | _ => mret tt
      end
  | _ => mret tt
  end.

Definition app_rx (cfg : Config) (msg : pmt_t) : M unit := _app_rx cfg msg.

(** ** Control ingress: the periodic tick *)

(** Body of the loop over the sink table.  The source rebuilds [aSinkVal]
    after the emission and binds it to the local name only: the table is not
    written. *)
Definition forward_sink_entry (cfg : Config) (k : Z) : M unit :=
  s ← get_state;
  aSinkVal ← dict_getitem (sinkTable s) k;
  t ← time_time;
  if scheduled aSinkVal && Qgeb t (forwarding_time aSinkVal)
  then
    send_sink_pkt cfg k (highest_rcvd_seq_num aSinkVal)
      (min_dx_to_sink aSinkVal);;
    let aSinkVal :=
      mkSinkVal (highest_rcvd_seq_num aSinkVal)
        (temp_min_dx_to_sink aSinkVal + 1)
        (last_time_heard aSinkVal) 0 false
        (temp_min_dx_to_sink aSinkVal) in
    mret tt
  else mret tt.

(** Body of the loop over the data-packet table. *)
Definition forward_data_entry (cfg : Config) (k : Z * Z * Z) : M unit :=
  s ← get_state;
  aDataPacketVal ← dict_getitem (dataPacketTable s) k;
  t ← time_time;
  if dp_scheduled aDataPacketVal
     && (duplicates aDataPacketVal <=? Ndupl cfg)
     && Qgeb t (dp_forwarding_time aDataPacketVal)
  then
    (if debug_stderr cfg then print_pkt (dp_data aDataPacketVal) else mret tt);;
    pdu ← init_u8vector (dp_data aDataPacketVal);
    message_port_pub (to_radio pdu);;
    modify (set_dataPacketTable
              (insert k
                 (mkDataPktVal None (dp_last_time_heard aDataPacketVal) 0
                    false (duplicates aDataPacketVal))))
  else mret tt.

(** First part of [ctrl_rx]: a sink originates its beacon, any other node
    forwards the sink packets that are due. *)
Definition send_sink_packets (cfg : Config) : M unit :=
  if addr cfg =? SINK_ADDR cfg
  then
    s ← get_state;
    t ← time_time;
    u ← random_random;
    if Qgtb (broadcast_interval s) 0
       && match sink_pkt_xmit_time s with
          | None => true
          | Some x => Qgeb (t - x) (broadcast_interval s * 2 * u)
          end
    then
      send_sink_pkt cfg (addr cfg) (sequence_number s) 0;;
      s ← get_state;
      modify (set_sequence_number ((sequence_number s + 1) mod 256))
    else mret tt
  else
    s ← get_state;
    for_each (dict_keys (sinkTable s)) (forward_sink_entry cfg).

(** Second part of [ctrl_rx]: the data packets that are due. *)
Definition send_data_packets (cfg : Config) : M unit :=
  s ← get_state;
  for_each (dict_keys (dataPacketTable s)) (forward_data_entry cfg).

Definition ctrl_rx (cfg : Config) (msg : pmt_t) : M unit :=
  send_sink_packets cfg;;
  send_data_packets cfg;;
  check_sink_neighbor_table cfg;;
  check_sink_table cfg;;
  check_data_packet_table cfg.

(** ** Runs of the engine *)

Inductive event :=
| from_radio (msg : pmt_t)
| from_app (msg : pmt_t)
| ctrl_in (msg : pmt_t).

Definition handle (cfg : Config) (ev : event) : M unit :=
  match ev with
  | from_radio msg => radio_rx cfg msg
  | from_app msg => app_rx cfg msg
  | ctrl_in msg => ctrl_rx cfg msg
  end.

(** One message delivered at instant [now e]: the state it leaves and what
    it emits, whether or not the handler raised. *)
Definition step (cfg : Config) (s : State) (x : Env * event)
    : State * list Output :=
  (handle cfg x.2 x.1 s).1.

(** A sequence of deliveries, in arrival order. *)
Fixpoint run (cfg : Config) (s : State) (tr : list (Env * event))
    : State * list Output :=
  match tr with
  | [] => (s, [])
  | x :: tr' =>
      let r := step cfg s x in
      let r' := run cfg r.1 tr' in
      (r'.1, r.2 ++ r'.2)
  end.

(** * Notions used in the statements *)

(** The checks of [radio_rx] and [_radio_rx], on a vector that has a first
    byte. *)
Definition rejected (cfg : Config) (msg : pmt_t) : bool :=
  match msg with
  | pmt_cons meta (pmt_u8vector (proto :: rest)) =>
      negb (crc_ok (meta_dict_of meta))
      || negb (py_in proto [DATA_PROTO; SINK_PROTO; NOTI_PROTO])
      || (proto =? DATA_PROTO) && (length (proto :: rest) <? 7)%nat
      || (proto =? SINK_PROTO) && negb (length (proto :: rest) =? 5)%nat
      || (proto =? NOTI_PROTO) && negb (length (proto :: rest) =? 4)%nat
      || match rest with
         | sndr :: src :: _ => (sndr =? addr cfg) || (src =? addr cfg)
         | _ => false
         end
  | pmt_cons meta (pmt_u8vector []) => negb (crc_ok (meta_dict_of meta))
  | _ => true
  end.

(** A message that is a (metadata, u8vector) pair. *)
Definition is_pdu (msg : pmt_t) : bool :=
  match msg with
  | pmt_cons _ (pmt_u8vector _) => true
  | _ => false
  end.

(** The value a NOTI leaves in the entry it matches. *)
Definition cancelled (v : DataPktVal) : DataPktVal :=
  {| dp_data := None;
     dp_last_time_heard := dp_last_time_heard v;
     dp_forwarding_time := 0;
     dp_scheduled := false;
     duplicates := duplicates v |}.

(** Every scheduled data entry is below the duplicate quota. *)
Definition quota_inv (cfg : Config) (s : State) : Prop :=
  ∀ k v, dataPacketTable s !! k = Some v →
         dp_scheduled v = true → duplicates v < Ndupl cfg.

(** The data-packet-table key [(Source, DestSink, SeqNum)] of a packet. *)
Definition data_key (pdu : list Z) : option (Z * Z * Z) :=
  match pdu !! PKT_SRC, pdu !! DATA_PKT_DEST, pdu !! PKT_SN with
  | Some src, Some dest, Some sn => Some (src, dest, sn)
  | _, _, _ => None
  end.

(** An emission on [to_radio] of a DATA packet with key [k]. *)
Definition is_forward_of (k : Z * Z * Z) (o : Output) : bool :=
  match o with
  | to_radio pdu =>
      match pdu !! PKT_PROT_ID, data_key pdu with
      | Some proto, Some k' => (proto =? DATA_PROTO) && bool_decide (k' = k)
      | _, _ => false
      end
  | to_app _ _ => false
  end.

(** Number of forwards of key [k] in an emission log. *)
Fixpoint forwards (k : Z * Z * Z) (outs : list Output) : nat :=
  match outs with
  | [] => 0
  | o :: outs' => (if is_forward_of k o then 1 else 0) + forwards k outs'
  end.

(** The entry of key [k] holds bytes that are still to be forwarded. *)
Definition pending (k : Z * Z * Z) (t : gmap (Z * Z * Z) DataPktVal) : nat :=
  match t !! k with
  | Some v => match dp_data v with Some _ => 1 | None => 0 end
  | None => 0
  end.

(** Number of times the entry of key [k] is created along the run [tr] from
    [s]: the deliveries that find no entry for [k] and leave one. *)
Fixpoint creations (cfg : Config) (k : Z * Z * Z) (s : State)
    (tr : list (Env * event)) : nat :=
  match tr with
  | [] => 0
  | x :: tr' =>
      let s' := (step cfg s x).1 in
      (if negb (dict_contains (dataPacketTable s) k)
          && dict_contains (dataPacketTable s') k
       then 1 else 0)
      + creations cfg k s' tr'
  end.

(** * Notions used in the proofs *)

(** [reads m]: [m] neither changes the state nor emits. *)
Definition reads {A} (m : M A) : Prop :=
  ∀ e s, post (m e s) = s ∧ emitted (m e s) = [].

(** [preserves I m]: the state [m] leaves satisfies [I] whenever the state
    it starts from does, whether [m] returns or raises. *)
Definition preserves {A} (I : State → Prop) (m : M A) : Prop :=
  ∀ e s, I s → I (post (m e s)).

(** [silent m]: [m] emits nothing. *)
Definition silent {A} (m : M A) : Prop := ∀ e s, emitted (m e s) = [].

(** [sat Rl m]: every run of [m] relates the state it starts from, what it
    emits and the state it leaves, whether it returns or raises. *)
Definition sat {A} (Rl : State → list Output → State → Prop) (m : M A)
    : Prop :=
  ∀ e s, Rl s (emitted (m e s)) (post (m e s)).

(** The pending bytes stored under a key carry that key. *)
Definition keys_match (t : gmap (Z * Z * Z) DataPktVal) : Prop :=
  ∀ k v pdu, t !! k = Some v → dp_data v = Some pdu → data_key pdu = Some k.

(** Forwards still possible for key [k]: none once the entry has lost its
    pending bytes, one otherwise. *)
Definition budget (k : Z * Z * Z) (t : gmap (Z * Z * Z) DataPktVal) : nat :=
  match t !! k with
  | Some v => match dp_data v with Some _ => 1 | None => 0 end
  | None => 1
  end.

(** What a piece of the tick may do to key [k]: the stored bytes keep
    matching their keys, every forward of [k] is paid from its budget, and
    the entry is neither created nor removed. *)
Definition fwd_rel (k : Z * Z * Z) (s : State) (o : list Output) (s' : State)
    : Prop :=
  keys_match (dataPacketTable s) →
  keys_match (dataPacketTable s') ∧
  (forwards k o + budget k (dataPacketTable s')
   ≤ budget k (dataPacketTable s))%nat ∧
  (is_Some (dataPacketTable s' !! k) ↔ is_Some (dataPacketTable s !! k)).

(** * Scenario data *)

(** Node B of the two-node scenario: address 1, sink 0, default parameters. *)
Definition node_B (debug : bool) : Config :=
  {| addr := 1; SINK_ADDR := 0; init_broadcast_interval := 30;
     Tmin := 5; Tmax := 65; Ndupl := 2; Plt := 120; Slt := 50; R := 2;
     debug_stderr := debug |}.

(** Node C of the final-hop scenario: address 5, its own sink. *)
Definition node_C : Config :=
  {| addr := 5; SINK_ADDR := 5; init_broadcast_interval := 30;
     Tmin := 5; Tmax := 65; Ndupl := 2; Plt := 120; Slt := 50; R := 2;
     debug_stderr := false |}.

(** Node B with debugging on and [Ndupl = 0]. *)
Definition node_B_no_quota : Config :=
  {| addr := 1; SINK_ADDR := 0; init_broadcast_interval := 30;
     Tmin := 5; Tmax := 65; Ndupl := 0; Plt := 120; Slt := 50; R := 2;
     debug_stderr := true |}.

(** A PDU with empty metadata. *)
Definition pdu (bytes : list Z) : pmt_t :=
  pmt_cons (pmt_dict ∅) (pmt_u8vector bytes).

(** The instant [t], with [random.random()] returning 0. *)
Definition at_time (t : Q) : Env := {| now := t; rnd := 0 |}.

(** Scenario 3: node B holds a pending entry for [(2, 0, 7)], created by the
    beacon of sink 0 and the DATA packet of source 2. *)
Definition B_pending : State :=
  (run (node_B true) (init (node_B true))
     [(at_time 100, from_radio (pdu [1; 0; 0; 0; 0]));
      (at_time 101, from_radio (pdu [0; 2; 2; 7; 0; 0; 5; 170]))]).1.

(** The entry of key [(2, 0, 7)] in [B_pending]. *)
Definition pending_2_0_7 : DataPktVal :=
  {| dp_data := Some [0; 1; 2; 7; 1; 0; 4; 170];
     dp_last_time_heard := 101;
     dp_forwarding_time := 106;
     dp_scheduled := true;
     duplicates := 0 |}.

(** Node B with debugging on, after the sink-neighbor update for the beacon
    [[1, 0, 0, 0, 0]] heard at instant 100. *)
Definition B_heard_beacon : State :=
  set_sinkNeighborTable
    (insert (0, 0)
       {| last_rcvd_seq_num := 0; nb_min_dx_to_sink := 0;
          nb_last_time_heard := 100; nb_broadcast_interval := 30 |})
    (init (node_B true)).

(** Scenario 1: node B after the beacon [[1, 0, 0, 0, 0]] of sink 0, heard
    at instant 100 with debugging on. *)
Definition B_has_gradient : State :=
  post (radio_rx (node_B true) (pdu [1; 0; 0; 0; 0]) (at_time 100)
          (init (node_B true))).

(** The entry of sink 0 in [B_has_gradient]. *)
Definition gradient_to_0 : SinkVal :=
  {| highest_rcvd_seq_num := 0;
     min_dx_to_sink := 1;
     last_time_heard := 100;
     forwarding_time := 205 # 2;
     scheduled := true;
     temp_min_dx_to_sink := 0 |}.

(** Scenario 2: the beacon of sink 0, the DATA packet of source 2 and two
    further copies of it, all before the forward is due. *)
Definition duplicates_heard : list (Env * event) :=
  [(at_time 100, from_radio (pdu [1; 0; 0; 0; 0]));
   (at_time 101, from_radio (pdu [0; 2; 2; 7; 0; 0; 5; 170]));
   (at_time 102, from_radio (pdu [0; 3; 2; 7; 1; 0; 4; 170]));
   (at_time 103, from_radio (pdu [0; 4; 2; 7; 1; 0; 4; 170]))].

(** The entry of key [(2, 0, 7)] after [duplicates_heard]. *)
Definition suppressed_2_0_7 : DataPktVal :=
  {| dp_data := Some [0; 1; 2; 7; 1; 0; 4; 170];
     dp_last_time_heard := 101;
     dp_forwarding_time := 106;
     dp_scheduled := false;
     duplicates := 2 |}.

(** Node B hears the beacon of sink 0 and a DATA packet of source 2, forwards
    it at the tick of instant 110, and purges the entry at the tick of
    instant 230; then the same beacon and the same packet arrive again and
    the tick of instant 240 is due. *)
Definition heard_again_after_aging : list (Env * event) :=
  [(at_time 100, from_radio (pdu [1; 0; 0; 0; 0]));
   (at_time 101, from_radio (pdu [0; 2; 2; 7; 0; 0; 5; 170]));
   (at_time 110, ctrl_in pmt_nil);
   (at_time 230, ctrl_in pmt_nil);
   (at_time 231, from_radio (pdu [1; 0; 0; 0; 0]));
   (at_time 232, from_radio (pdu [0; 2; 2; 7; 0; 0; 5; 170]));
   (at_time 240, ctrl_in pmt_nil)].

(** Metadata as a radio front end attaches it: the CRC verdict and a signal
    strength. *)
Definition rx_meta : gmap string pyval :=
  <["rssi"%string := PyInt (-60)]> {["CRC_OK"%string := PyBool true]}.


(** * Notions used in the further properties *)

(** The aging test of the three [check_*_table] loops:
    [now - last_time_heard > lifetime]. *)
Definition expired (now_ lifetime last_heard : Q) : bool :=
  Qgtb (now_ - last_heard) lifetime.

(** The forwarding test of the tick's loop over the data-packet table. *)
Definition due (cfg : Config) (tn : Q) (v : DataPktVal) : bool :=
  dp_scheduled v && (duplicates v <=? Ndupl cfg)
  && Qgeb tn (dp_forwarding_time v).

(** The test under which a sink originates a beacon at the tick: a positive
    broadcast interval, and no beacon sent yet or the randomised interval
    elapsed since the last one. *)
Definition beacon_due (s : State) (e : Env) : bool :=
  Qgtb (broadcast_interval s) 0
  && match sink_pkt_xmit_time s with
     | None => true
     | Some x => Qgeb (now e - x) (broadcast_interval s * 2 * rnd e)
     end.

(** An emission of the tick's loop over the data-packet table of [s]: the
    stored bytes of an entry that is due. *)
Definition forwards_due_entry (cfg : Config) (e : Env) (s : State)
    (x : Output) : Prop :=
  ∃ k v pdu, dataPacketTable s !! k = Some v ∧ due cfg (now e) v = true ∧
             dp_data v = Some pdu ∧ x = to_radio pdu.

(** The sink packets the first part of the tick is to publish are vectors of
    bytes: the beacon on a sink, the packet of every due sink entry on any
    other node. *)
Definition sink_part_publishes_bytes (cfg : Config) (e : Env) (s : State)
    : Prop :=
  if addr cfg =? SINK_ADDR cfg
  then
    beacon_due s e = true →
    all_bytes [SINK_PROTO; addr cfg; addr cfg; sequence_number s; 0] = true
  else
    ∀ k v, sinkTable s !! k = Some v →
           scheduled v && Qgeb (now e) (forwarding_time v) = true →
           all_bytes [SINK_PROTO; addr cfg; k; highest_rcvd_seq_num v;
                      min_dx_to_sink v] = true.

(** The interval recorded for a sink-neighbor key by a SINK receipt at
    instant [t]: the node's own interval for a new key, the moving average
    for a known one. *)
Definition new_interval (s : State) (t : Q) (key : Z * Z) : Q :=
  match sinkNeighborTable s !! key with
  | None => broadcast_interval s
  | Some v =>
      ((8 # 10) * nb_broadcast_interval v
       + (2 # 10) * (t - nb_last_time_heard v))%Q
  end.

(** The sink-table value written by [handle_sink_packet] at instant [t] for
    a packet with sequence number [sn] and hop count [hc], from the value
    [old] found under the packet's source. *)
Definition next_sink_val (t : Q) (sn hc : Z) (old : option SinkVal)
    : SinkVal :=
  match old with
  | None => mkSinkVal sn (hc + 1) t (t + small_backoff)%Q true hc
  | Some a =>
      if sn >? highest_rcvd_seq_num a
      then mkSinkVal sn (min_dx_to_sink a) t
             (if hc >? min_dx_to_sink a
              then t + large_backoff else t + small_backoff)%Q
             true hc
      else if sn =? highest_rcvd_seq_num a
      then
        if negb (scheduled a)
        then
          if hc <? min_dx_to_sink a
          then mkSinkVal (highest_rcvd_seq_num a) (min_dx_to_sink a) t
                 (t + low_backoff)%Q true (temp_min_dx_to_sink a)
          else mkSinkVal (highest_rcvd_seq_num a) (min_dx_to_sink a) t
                 (forwarding_time a) (scheduled a) (temp_min_dx_to_sink a)
        else
          if hc <? temp_min_dx_to_sink a
          then mkSinkVal (highest_rcvd_seq_num a) (min_dx_to_sink a) t
                 (forwarding_time a) (scheduled a) hc
          else mkSinkVal (highest_rcvd_seq_num a) (min_dx_to_sink a) t
                 (forwarding_time a) (scheduled a) (temp_min_dx_to_sink a)
      else mkSinkVal (highest_rcvd_seq_num a) (min_dx_to_sink a) t
             (forwarding_time a) (scheduled a) (temp_min_dx_to_sink a)
  end.

(** [v] with its [last_time_heard] set to [t]. *)
Definition heard_at (t : Q) (v : SinkVal) : SinkVal :=
  mkSinkVal (highest_rcvd_seq_num v) (min_dx_to_sink v) t
    (forwarding_time v) (scheduled v) (temp_min_dx_to_sink v).

(** Both counters of the engine are bytes. *)
Definition counters_in_range (s : State) : Prop :=
  0 ≤ pkt_cnt s < 256 ∧ 0 ≤ sequence_number s < 256.

(** Every sink-table entry is scheduled. *)
Definition all_scheduled (s : State) : Prop :=
  ∀ k v, sinkTable s !! k = Some v → scheduled v = true.

(** [v'] continues [v]: same hop distance, sequence number not lower. *)
Definition continues (v v' : SinkVal) : Prop :=
  min_dx_to_sink v' = min_dx_to_sink v ∧
  highest_rcvd_seq_num v ≤ highest_rcvd_seq_num v'.

(** Every entry of [T] is still in the sink table, continued. *)
Definition sink_entries_continue (T : gmap Z SinkVal) (s : State) : Prop :=
  ∀ k v, T !! k = Some v →
         ∃ v', sinkTable s !! k = Some v' ∧ continues v v'.

(** Along the run [tr] from [s], the sink entry of [k] is in the table after
    every delivery. *)
Fixpoint sink_entry_persists (cfg : Config) (k : Z) (s : State)
    (tr : list (Env * event)) : bool :=
  match tr with
  | [] => true
  | x :: tr' =>
      let s' := (step cfg s x).1 in
      dict_contains (sinkTable s') k && sink_entry_persists cfg k s' tr'
  end.

(** The three tables are empty. *)
Definition tables_empty (s : State) : Prop :=
  sinkNeighborTable s = ∅ ∧ sinkTable s = ∅ ∧ dataPacketTable s = ∅.

(** An emission that is not a DATA packet on [to_radio]. *)
Definition not_data (o : Output) : Prop :=
  ∀ pdu, o = to_radio pdu → pdu !! PKT_PROT_ID ≠ Some DATA_PROTO.

(** An emission that, when it goes to [to_radio], carries the node's address
    as Sender. *)
Definition sent_by (cfg : Config) (o : Output) : Prop :=
  ∀ pdu, o = to_radio pdu → pdu !! PKT_SNDR = Some (addr cfg).

(** The bytes stored in the data-packet table carry the node's address as
    Sender. *)
Definition stored_sent_by (cfg : Config) (s : State) : Prop :=
  ∀ k v pdu, dataPacketTable s !! k = Some v → dp_data v = Some pdu →
             pdu !! PKT_SNDR = Some (addr cfg).

(** One delivery keeps [stored_sent_by] and emits only packets of the
    node. *)
Definition sender_rel (cfg : Config) (s : State) (o : list Output)
    (s' : State) : Prop :=
  stored_sent_by cfg s → stored_sent_by cfg s' ∧ Forall (sent_by cfg) o.

(** The sink table has no entry for the node's own address. *)
Definition no_own_entry (cfg : Config) (s : State) : Prop :=
  sinkTable s !! addr cfg = None.

(** What the tick's loop over the data-packet table cannot change, whether
    it returns or raises: the other tables and counters, and the set of keys
    of the data-packet table, which can only shrink with respect to [s0]. *)
Definition tick_frame (s0 : State) (s : State) : Prop :=
  sinkNeighborTable s = sinkNeighborTable s0 ∧
  sinkTable s = sinkTable s0 ∧
  pkt_cnt s = pkt_cnt s0 ∧
  broadcast_interval s = broadcast_interval s0 ∧
  ∀ k, is_Some (dataPacketTable s !! k) → is_Some (dataPacketTable s0 !! k).

(** The one message on which the radio ingress raises whatever the
    configuration: an empty u8vector whose metadata passes the CRC check. *)
Definition empty_vector (msg : pmt_t) : bool :=
  match msg with
  | pmt_cons meta (pmt_u8vector []) => crc_ok (meta_dict_of meta)
  | _ => false
  end.

(** * The example flow graph and further scenario data *)

(** The three blocks of the example flow graph (examples/top_block.py):
    [dflood.dflood(addr, my_sink_addr, broadcast_interval, errors_to_file,
    data_to_file, Tmin, Tmax, Ndupl, Plt, Slt, R, debug, FEC)].  Block 0 is
    the sink. *)
Definition dflood_dflood_0 : Config :=
  {| addr := 0; SINK_ADDR := 0; init_broadcast_interval := 30;
     Tmin := 5; Tmax := 65; Ndupl := 2; Plt := 120; Slt := 50; R := 2;
     debug_stderr := true |}.

(** Block 1, between the sink and block 3. *)
Definition dflood_dflood_1 : Config :=
  {| addr := 1; SINK_ADDR := 0; init_broadcast_interval := 30;
     Tmin := 1; Tmax := 5; Ndupl := 0; Plt := 120; Slt := 50; R := 2;
     debug_stderr := true |}.

(** Block 3, two hops from the sink. *)
Definition dflood_dflood_3 : Config :=
  {| addr := 3; SINK_ADDR := 0; init_broadcast_interval := 30;
     Tmin := 5; Tmax := 65; Ndupl := 2; Plt := 120; Slt := 50; R := 0;
     debug_stderr := true |}.

(** Block 1 of the flow graph after the first beacon of block 0. *)
Definition block_1_has_gradient : State :=
  post (radio_rx dflood_dflood_1 (pdu [1; 0; 0; 0; 0]) (at_time 100)
          (init dflood_dflood_1)).

(** Node B after it forwarded the packet of key [(2, 0, 7)] and then
    overheard a copy of it. *)
Definition B_rescheduled : State :=
  (run (node_B true) (init (node_B true))
     [(at_time 100, from_radio (pdu [1; 0; 0; 0; 0]));
      (at_time 101, from_radio (pdu [0; 2; 2; 7; 0; 0; 5; 170]));
      (at_time 110, ctrl_in pmt_nil);
      (at_time 111, from_radio (pdu [0; 3; 2; 7; 1; 0; 4; 170]))]).1.

(** The entry of key [(2, 0, 7)] in [B_rescheduled]. *)
Definition rescheduled_2_0_7 : DataPktVal :=
  {| dp_data := None;
     dp_last_time_heard := 101;
     dp_forwarding_time := 0;
     dp_scheduled := true;
     duplicates := 1 |}.

(** Node B after a beacon of sink 0 that came over three hops. *)
Definition B_far_from_sink : State :=
  post (radio_rx (node_B true) (pdu [1; 4; 0; 0; 3]) (at_time 100)
          (init (node_B true))).

(** The entry of sink 0 in [B_far_from_sink]. *)
Definition far_gradient_to_0 : SinkVal :=
  {| highest_rcvd_seq_num := 0;
     min_dx_to_sink := 4;
     last_time_heard := 100;
     forwarding_time := 205 # 2;
     scheduled := true;
     temp_min_dx_to_sink := 3 |}.

(** Node B then hears the next beacon directly from the sink, and ticks. *)
Definition nearer_beacon_heard : list (Env * event) :=
  [(at_time 110, from_radio (pdu [1; 0; 0; 1; 0]));
   (at_time 113, ctrl_in pmt_nil)].

(** The entry of sink 0 after [nearer_beacon_heard]. *)
Definition far_gradient_to_0_later : SinkVal :=
  {| highest_rcvd_seq_num := 1;
     min_dx_to_sink := 4;
     last_time_heard := 110;
     forwarding_time := 225 # 2;
     scheduled := true;
     temp_min_dx_to_sink := 0 |}.

(** A beacon, a DATA packet, an application payload and a tick at node B. *)
Definition busy_hour : list (Env * event) :=
  [(at_time 100, from_radio (pdu [1; 0; 0; 0; 0]));
   (at_time 101, from_radio (pdu [0; 2; 2; 7; 0; 0; 5; 170]));
   (at_time 102, from_app (pdu [187]));
   (at_time 110, ctrl_in pmt_nil)].

(** At block 0, the sink: a tick, then the re-broadcast of its beacon by
    block 1 and a DATA packet of block 3 forwarded by block 1. *)
Definition sink_hears_its_echo : list (Env * event) :=
  [(at_time 99, ctrl_in pmt_nil);
   (at_time 103, from_radio (pdu [1; 1; 0; 0; 1]));
   (at_time 107, from_radio (pdu [0; 1; 3; 0; 1; 0; 1; 170; 187]))].

(** At block 3: the beacon re-broadcast by block 1, an application payload
    and a tick. *)
Definition block_3_joins : list (Env * event) :=
  [(at_time 103, from_radio (pdu [1; 1; 0; 0; 1]));
   (at_time 104, from_app (pdu [170; 187]));
   (at_time 110, ctrl_in pmt_nil)].

(** * Properties *)

(** ** Unfolding the handler monad *)

Ltac munfold :=
  unfold print_pkt, init_u8vector in *;
  unfold getitem, setitem, dict_getitem, len in *;
  unfold raise, get_state, modify, time_time, random_random,
    message_port_pub in *;
  unfold mbind, mret, M_bind, M_ret in *.

Lemma bind_run {A B} (m : M A) (f : A → M B) e s :
  (m ≫= f) e s =
  match m e s with
  | (s1, o1, Ok a) =>
      match f a e s1 with
      | (s2, o2, r) => (s2, o1 ++ o2, r)
      end
  | (s1, o1, Raise x) => (s1, o1, Raise x)
  end.
Proof. reflexivity. Qed.

Lemma bind_ok {A B} (m : M A) (f : A → M B) e s s1 a :
  m e s = (s1, [], Ok a) → (m ≫= f) e s = f a e s1.
Proof.
  intros H. rewrite bind_run, H. by destruct (f a e s1) as [[s2 o2] r].
Qed.

Lemma bind_raise {A B} (m : M A) (f : A → M B) e s s1 o1 x :
  m e s = (s1, o1, Raise x) → (m ≫= f) e s = (s1, o1, Raise x).
Proof. intros H. by rewrite bind_run, H. Qed.

Lemma post_bind {A B} (m : M A) (f : A → M B) e s :
  post ((m ≫= f) e s) =
  match outcome (m e s) with
  | Ok a => post (f a e (post (m e s)))
  | Raise _ => post (m e s)
  end.
Proof.
  rewrite bind_run. destruct (m e s) as [[s1 o1] [a|x]]; [|reflexivity].
  cbn. by destruct (f a e s1) as [[s2 o2] r].
Qed.

Lemma emitted_bind {A B} (m : M A) (f : A → M B) e s :
  emitted ((m ≫= f) e s) =
  match outcome (m e s) with
  | Ok a => emitted (m e s) ++ emitted (f a e (post (m e s)))
  | Raise _ => emitted (m e s)
  end.
Proof.
  rewrite bind_run. destruct (m e s) as [[s1 o1] [a|x]]; [|reflexivity].
  cbn. by destruct (f a e s1) as [[s2 o2] r].
Qed.

Lemma outcome_bind {A B} (m : M A) (f : A → M B) e s :
  outcome ((m ≫= f) e s) =
  match outcome (m e s) with
  | Ok a => outcome (f a e (post (m e s)))
  | Raise x => Raise x
  end.
Proof.
  rewrite bind_run. destruct (m e s) as [[s1 o1] [a|x]]; [|reflexivity].
  cbn. by destruct (f a e s1) as [[s2 o2] r].
Qed.

(** ** Reasoning rules for handlers *)

Lemma reads_preserves {A} I (m : M A) : reads m → preserves I m.
Proof. intros H e s Hs. by rewrite (proj1 (H e s)). Qed.

Lemma reads_silent {A} (m : M A) : reads m → silent m.
Proof. intros H e s. apply H. Qed.

Lemma reads_ret {A} (a : A) : reads (mret a).
Proof. done. Qed.
Lemma reads_raise {A} x : reads (@raise A x).
Proof. done. Qed.
Lemma reads_get_state : reads get_state.
Proof. done. Qed.
Lemma reads_time_time : reads time_time.
Proof. done. Qed.
Lemma reads_random_random : reads random_random.
Proof. done. Qed.
Lemma reads_getitem l i : reads (getitem l i).
Proof. unfold getitem. by destruct (l !! i). Qed.
Lemma reads_setitem l i x : reads (setitem l i x).
Proof. unfold setitem. by case_decide. Qed.
Lemma reads_dict_getitem {K V} `{Countable K} (d : gmap K V) k :
  reads (dict_getitem d k).
Proof. unfold dict_getitem. by destruct (d !! k). Qed.
Lemma reads_len x : reads (len x).
Proof. by destruct x. Qed.
Lemma reads_init_u8vector x : reads (init_u8vector x).
Proof. by destruct x. Qed.
Lemma reads_print_pkt x : reads (print_pkt x).
Proof. by destruct x. Qed.
Lemma reads_py_min l : reads (py_min l).
Proof. by destruct l. Qed.

Lemma reads_bind {A B} (m : M A) (f : A → M B) :
  reads m → (∀ a, reads (f a)) → reads (m ≫= f).
Proof.
  intros Hm Hf e s. rewrite post_bind, emitted_bind.
  destruct (Hm e s) as [Hp He]. rewrite Hp, He.
  destruct (outcome (m e s)); [|done]. apply Hf.
Qed.

Lemma preserves_bind {A B} I (m : M A) (f : A → M B) :
  preserves I m → (∀ a, preserves I (f a)) → preserves I (m ≫= f).
Proof.
  intros Hm Hf e s Hs. rewrite post_bind.
  destruct (outcome (m e s)); [apply Hf|]; by apply Hm.
Qed.

Lemma preserves_modify I (f : State → State) :
  (∀ s, I s → I (f s)) → preserves I (modify f).
Proof. intros H e s. apply H. Qed.

Lemma preserves_pub I o : preserves I (message_port_pub o).
Proof. by intros e s. Qed.

Lemma preserves_for_each {K} I (ks : list K) (body : K → M unit) :
  (∀ k, preserves I (body k)) → preserves I (for_each ks body).
Proof.
  intros Hb. induction ks as [|k ks IH]; [by intros e s|].
  cbn [for_each]. apply preserves_bind; [apply Hb|by intros _].
Qed.

Lemma silent_bind {A B} (m : M A) (f : A → M B) :
  silent m → (∀ a, silent (f a)) → silent (m ≫= f).
Proof.
  intros Hm Hf e s. rewrite emitted_bind, Hm.
  destruct (outcome (m e s)); [apply Hf|done].
Qed.

Lemma silent_modify f : silent (modify f).
Proof. done. Qed.

Lemma silent_for_each {K} (ks : list K) (body : K → M unit) :
  (∀ k, silent (body k)) → silent (for_each ks body).
Proof.
  intros Hb. induction ks as [|k ks IH]; [done|].
  cbn [for_each]. apply silent_bind; [apply Hb|by intros _].
Qed.

Lemma sat_bind {A B} Rl (m : M A) (f : A → M B) :
  (∀ s o1 s1 o2 s2, Rl s o1 s1 → Rl s1 o2 s2 → Rl s (o1 ++ o2) s2) →
  sat Rl m → (∀ a, sat Rl (f a)) → sat Rl (m ≫= f).
Proof.
  intros Htrans Hm Hf e s. rewrite post_bind, emitted_bind.
  specialize (Hm e s). destruct (outcome (m e s)); [|done].
  eapply Htrans; [exact Hm|apply Hf].
Qed.

Lemma sat_for_each {K} Rl (ks : list K) (body : K → M unit) :
  (∀ s, Rl s [] s) →
  (∀ s o1 s1 o2 s2, Rl s o1 s1 → Rl s1 o2 s2 → Rl s (o1 ++ o2) s2) →
  (∀ k, sat Rl (body k)) → sat Rl (for_each ks body).
Proof.
  intros Hrefl Htrans Hb. induction ks as [|k ks IH].
  - intros e s. apply Hrefl.
  - cbn [for_each]. apply sat_bind; [done|apply Hb|by intros _].
Qed.

Create HintDb handler discriminated.
#[export] Hint Resolve reads_ret reads_raise reads_get_state reads_time_time
  reads_random_random reads_getitem reads_setitem reads_dict_getitem
  reads_len reads_init_u8vector reads_print_pkt reads_py_min : handler.

(** Decompose a handler along its binds and conditionals; leaves that only
    read are closed. *)
Ltac handler_step :=
  match goal with
  | |- reads (_ ≫= _) => apply reads_bind; [|intros ?]
  | |- preserves _ (_ ≫= _) => apply preserves_bind; [|intros ?]
  | |- silent (_ ≫= _) => apply silent_bind; [|intros ?]
  | |- preserves _ (for_each _ _) => apply preserves_for_each; intros ?
  | |- silent (for_each _ _) => apply silent_for_each; intros ?
  | |- silent (modify _) => apply silent_modify
  | |- preserves _ (message_port_pub _) => apply preserves_pub
  | |- reads _ => solve [auto with handler]
  | |- preserves _ _ => solve [apply reads_preserves; auto with handler]
  | |- silent _ => solve [apply reads_silent; auto with handler]
  | |- _ (if ?c then _ else _) => destruct c
  | |- _ (match ?x with _ => _ end) => destruct x
  end.

Ltac handler_auto := cbv zeta; repeat handler_step.

(** Leaves that write some other part of the state. *)
Ltac frame_leaf :=
  match goal with
  | |- preserves _ (modify _) =>
      apply preserves_modify; intros ? ?; cbn; done
  end.

(** ** Dictionaries *)

Lemma dict_keys_nonempty {K V} `{Countable K} (d : gmap K V) k v :
  d !! k = Some v → dict_keys d ≠ [].
Proof.
  intros Hk Hnil. unfold dict_keys in Hnil.
  apply fmap_nil_inv in Hnil.
  apply map_to_list_empty_iff in Hnil. subst d.
  by rewrite lookup_empty in Hk.
Qed.

Lemma elem_of_dict_keys {K V} `{Countable K} (d : gmap K V) k :
  k ∈ dict_keys d ↔ is_Some (d !! k).
Proof.
  unfold dict_keys. rewrite list_elem_of_fmap. split.
  - intros [[k' v] [-> Hin]]. apply elem_of_map_to_list in Hin. by eexists.
  - intros [v Hv]. exists (k, v). split; [done|].
    by apply elem_of_map_to_list.
Qed.

Lemma dict_contains_is_Some {K V} `{Countable K} (d : gmap K V) k :
  dict_contains d k = true ↔ is_Some (d !! k).
Proof.
  unfold dict_contains. destruct (d !! k); split; done.
Qed.

(** ** Radio ingress: validation and dispatch *)

(** Every rejected message is dropped in silence. *)
Lemma radio_rx_rejected cfg msg e s :
  rejected cfg msg = true → radio_rx cfg msg e s = (s, [], Ok tt).
Proof.
  destruct msg as [| | | | |  |meta d]; try reflexivity.
  destruct d as [| | | |elts| |]; try reflexivity.
  unfold rejected, radio_rx, _radio_rx.
  destruct (crc_ok (meta_dict_of meta)); [|reflexivity].
  destruct elts as [|proto rest]; [discriminate|].
  cbn [negb orb]. intros H.
  munfold. change ((proto :: rest) !! PKT_PROT_ID) with (Some proto).
  cbv beta iota.
  destruct (py_in proto _) eqn:Hin; [|reflexivity].
  cbn [negb orb] in H |- *.
  unfold DATA_PKT_MIN_LENGTH, SINK_PKT_LENGTH, RECV_NOTI_LENGTH.
  match goal with
  | |- context [if ?c then _ else _] => destruct c eqn:Hlen
  end; [reflexivity|].
  cbn [orb] in H.
  destruct rest as [|sndr [|src rest]].
  - discriminate.
  - discriminate.
  - change ((proto :: sndr :: src :: rest) !! PKT_SNDR) with (Some sndr).
    change ((proto :: sndr :: src :: rest) !! PKT_SRC) with (Some src).
    cbv beta iota.
    destruct (sndr =? addr cfg); [reflexivity|].
    cbn [orb] in H. rewrite H. reflexivity.
Qed.

(** C4.  A u8vector of length zero that passes the CRC check is not dropped:
    [data[self.PKT_PROT_ID]] is evaluated before any length check and raises
    [IndexError] to the caller. *)
Theorem radio_rx_empty_vector_raises cfg e s :
  radio_rx cfg (pmt_cons (pmt_dict ∅) (pmt_u8vector [])) e s
  = (s, [], Raise IndexError).
Proof. reflexivity. Qed.

Lemma py_in_protos proto :
  py_in proto [DATA_PROTO; SINK_PROTO; NOTI_PROTO] = true →
  proto = DATA_PROTO ∨ proto = SINK_PROTO ∨ proto = NOTI_PROTO.
Proof.
  unfold py_in. cbn [existsb]. rewrite !orb_true_iff, !Z.eqb_eq.
  intros [?|[?|[?|?]]]; auto; discriminate.
Qed.

(** A message either is dropped, or raises on the empty vector, or reaches
    one of the three packet handlers with a vector of the right shape that
    was not sent or originated by the node itself. *)
Lemma radio_rx_dispatch cfg msg e s :
  radio_rx cfg msg e s = (s, [], Ok tt) ∨
  radio_rx cfg msg e s = (s, [], Raise IndexError) ∨
  (∃ meta sndr src sn hc,
     sndr ≠ addr cfg ∧ src ≠ addr cfg ∧
     radio_rx cfg msg e s =
     handle_sink_packet cfg [SINK_PROTO; sndr; src; sn; hc] meta e s) ∨
  (∃ meta sndr src sn hc dest ttl payload,
     sndr ≠ addr cfg ∧ src ≠ addr cfg ∧
     radio_rx cfg msg e s =
     handle_data_packet cfg
       (DATA_PROTO :: sndr :: src :: sn :: hc :: dest :: ttl :: payload)
       meta e s) ∨
  (∃ meta sndr src sn,
     sndr ≠ addr cfg ∧ src ≠ addr cfg ∧
     radio_rx cfg msg e s =
     handle_receive_notification cfg [NOTI_PROTO; sndr; src; sn] meta e s).
Proof.
  destruct (rejected cfg msg) eqn:Hrej.
  { left. by apply radio_rx_rejected. }
  destruct msg as [| | | | |  |meta d]; try discriminate.
  destruct d as [| | | |elts| |]; try discriminate.
  cbn [rejected] in Hrej.
  destruct elts as [|proto rest].
  { right. left. unfold radio_rx, _radio_rx.
    apply negb_false_iff in Hrej. by rewrite Hrej. }
  repeat (apply orb_false_iff in Hrej as [Hrej ?]).
  apply negb_false_iff in Hrej.
  match goal with H : negb (py_in _ _) = false |- _ =>
    apply negb_false_iff in H; apply py_in_protos in H as [-> | [-> | ->]] end.
  - (* DATA *)
    destruct rest as [|sndr [|src [|sn [|hc [|dest [|ttl payload]]]]]];
      cbn in * |-; try discriminate.
    match goal with H : _ || _ = false |- _ =>
      apply orb_false_elim in H as [Hs Hr] end.
    right. right. right. left.
    exists (meta_dict_of meta), sndr, src, sn, hc, dest, ttl, payload.
    split; [by apply Z.eqb_neq|]. split; [by apply Z.eqb_neq|].
    unfold radio_rx, _radio_rx. rewrite Hrej.
    generalize (handle_sink_packet cfg), (handle_data_packet cfg),
      (handle_receive_notification cfg).
    intros h1 h2 h3. munfold. cbn. rewrite Hs, Hr. cbn.
    destruct (debug_stderr cfg); cbn;
      match goal with |- context [?h _ _ e s] =>
        by destruct (h _ _ e s) as [[? ?] ?] end.
  - (* SINK *)
    destruct rest as [|sndr [|src [|sn [|hc [|]]]]]; cbn in * |-;
      try discriminate.
    match goal with H : _ || _ = false |- _ =>
      apply orb_false_elim in H as [Hs Hr] end.
    right. right. left. exists (meta_dict_of meta), sndr, src, sn, hc.
    split; [by apply Z.eqb_neq|]. split; [by apply Z.eqb_neq|].
    unfold radio_rx, _radio_rx. rewrite Hrej.
    generalize (handle_sink_packet cfg), (handle_data_packet cfg),
      (handle_receive_notification cfg).
    intros h1 h2 h3. munfold. cbn. rewrite Hs, Hr. cbn.
    destruct (debug_stderr cfg); cbn;
      match goal with |- context [?h _ _ e s] =>
        by destruct (h _ _ e s) as [[? ?] ?] end.
  - (* NOTI *)
    destruct rest as [|sndr [|src [|sn [|]]]]; cbn in * |-; try discriminate.
    match goal with H : _ || _ = false |- _ =>
      apply orb_false_elim in H as [Hs Hr] end.
    right. right. right. right. exists (meta_dict_of meta), sndr, src, sn.
    split; [by apply Z.eqb_neq|]. split; [by apply Z.eqb_neq|].
    unfold radio_rx, _radio_rx. rewrite Hrej.
    generalize (handle_sink_packet cfg), (handle_data_packet cfg),
      (handle_receive_notification cfg).
    intros h1 h2 h3. munfold. cbn. rewrite Hs, Hr. cbn.
    destruct (debug_stderr cfg); cbn;
      match goal with |- context [?h _ _ e s] =>
        by destruct (h _ _ e s) as [[? ?] ?] end.
Qed.

Lemma radio_rx_sink cfg e s meta sndr src sn hc :
  crc_ok (meta_dict_of meta) = true →
  sndr ≠ addr cfg → src ≠ addr cfg →
  radio_rx cfg
    (pmt_cons meta (pmt_u8vector [SINK_PROTO; sndr; src; sn; hc])) e s
  = handle_sink_packet cfg [SINK_PROTO; sndr; src; sn; hc]
      (meta_dict_of meta) e s.
Proof.
  intros Hcrc Hs%Z.eqb_neq Hr%Z.eqb_neq.
  unfold radio_rx, _radio_rx. rewrite Hcrc.
  generalize (handle_sink_packet cfg). intros h.
  munfold. cbn. rewrite Hs, Hr. cbn.
  destruct (debug_stderr cfg); cbn; by destruct (h _ _ e s) as [[? ?] ?].
Qed.

Lemma radio_rx_noti cfg e s meta sndr src sn :
  crc_ok (meta_dict_of meta) = true →
  sndr ≠ addr cfg → src ≠ addr cfg →
  radio_rx cfg (pmt_cons meta (pmt_u8vector [NOTI_PROTO; sndr; src; sn])) e s =
  match dataPacketTable s !! (src, sndr, sn) with
  | Some v =>
      (set_dataPacketTable (insert (src, sndr, sn) (cancelled v)) s, [], Ok tt)
  | None => (s, [], Ok tt)
  end.
Proof.
  intros Hcrc Hs Hr.
  unfold radio_rx, _radio_rx. rewrite Hcrc.
  unfold handle_receive_notification, dict_contains.
  munfold. cbn.
  apply Z.eqb_neq in Hs, Hr. rewrite Hs, Hr. cbn.
  destruct (debug_stderr cfg); cbn;
    destruct (dataPacketTable s !! (src, sndr, sn)); reflexivity.
Qed.

Lemma handle_receive_notification_run cfg e s meta p sndr src sn :
  handle_receive_notification cfg [p; sndr; src; sn] meta e s =
  match dataPacketTable s !! (src, sndr, sn) with
  | Some v =>
      (set_dataPacketTable (insert (src, sndr, sn) (cancelled v)) s, [], Ok tt)
  | None => (s, [], Ok tt)
  end.
Proof.
  unfold handle_receive_notification, dict_contains. munfold. cbn.
  by destruct (dataPacketTable s !! (src, sndr, sn)).
Qed.

(** [handle_data_packet] on a vector of at least seven bytes. *)
Lemma handle_data_packet_run cfg e s meta sndr src sn hc dest ttl payload :
  handle_data_packet cfg
    (DATA_PROTO :: sndr :: src :: sn :: hc :: dest :: ttl :: payload) meta e s
  =
  if dest =? addr cfg
  then (s, [to_radio [NOTI_PROTO; addr cfg; src; sn]; to_app meta payload],
        Ok tt)
  else
    match sinkTable s !! dest with
    | None => (s, [], Ok tt)
    | Some sv =>
        if ttl - 1 <? min_dx_to_sink sv
        then (s, [], Ok tt)
        else
          match dataPacketTable s !! (src, dest, sn) with
          | None =>
              (set_dataPacketTable
                 (insert (src, dest, sn)
                    {| dp_data :=
                         Some (DATA_PROTO :: addr cfg :: src :: sn ::
                               min_dx_to_sink sv :: dest :: ttl - 1 :: payload);
                       dp_last_time_heard := now e;
                       dp_forwarding_time :=
                         (now e + Tmin cfg + rnd e * (Tmax cfg - Tmin cfg))%Q;
                       dp_scheduled := true;
                       duplicates := 0 |}) s,
               [], Ok tt)
          | Some a =>
              if hc <=? min_dx_to_sink sv
              then
                (set_dataPacketTable
                   (insert (src, dest, sn)
                      {| dp_data := dp_data a;
                         dp_last_time_heard := dp_last_time_heard a;
                         dp_forwarding_time := dp_forwarding_time a;
                         dp_scheduled := duplicates a + 1 <? Ndupl cfg;
                         duplicates := duplicates a + 1 |}) s,
                 [], Ok tt)
              else (s, [], Ok tt)
          end
    end.
Proof.
  unfold handle_data_packet, send_notification_radio, output_user_data,
    dict_contains.
  munfold. cbn.
  destruct (dest =? addr cfg); [reflexivity|].
  destruct (sinkTable s !! dest) as [sv|]; [|reflexivity]. cbn.
  destruct (ttl - 1 <? min_dx_to_sink sv); [reflexivity|].
  destruct (dataPacketTable s !! (src, dest, sn)) as [a|]; cbn.
  - by destruct (hc <=? min_dx_to_sink sv).
  - repeat (case_decide; [|cbn in *; lia]; cbn). reflexivity.
Qed.

(** ** NOTI ingress *)

(** C7.  A valid NOTI [[NOTI, sndr, src, sn]] whose key [(src, sndr, sn)]
    is in the data-packet table returns normally, emits nothing, rewrites
    that entry to (no pending bytes, forwarding time 0, not scheduled) with
    its [duplicates] and [last_time_heard] kept, and leaves every other
    entry, both other tables and all counters as they were. *)
Theorem noti_cancels_matching_entry cfg e s meta sndr src sn v :
  crc_ok (meta_dict_of meta) = true →
  sndr ≠ addr cfg → src ≠ addr cfg →
  dataPacketTable s !! (src, sndr, sn) = Some v →
  let r := radio_rx cfg
             (pmt_cons meta (pmt_u8vector [NOTI_PROTO; sndr; src; sn])) e s in
  outcome r = Ok tt ∧ emitted r = [] ∧
  dataPacketTable (post r) !! (src, sndr, sn) =
    Some {| dp_data := None;
            dp_last_time_heard := dp_last_time_heard v;
            dp_forwarding_time := 0;
            dp_scheduled := false;
            duplicates := duplicates v |} ∧
  (∀ k, k ≠ (src, sndr, sn) →
        dataPacketTable (post r) !! k = dataPacketTable s !! k) ∧
  sinkTable (post r) = sinkTable s ∧
  sinkNeighborTable (post r) = sinkNeighborTable s ∧
  broadcast_interval (post r) = broadcast_interval s ∧
  sequence_number (post r) = sequence_number s ∧
  sink_pkt_xmit_time (post r) = sink_pkt_xmit_time s ∧
  pkt_cnt (post r) = pkt_cnt s.
Proof.
  intros Hcrc Hs Hr Hv r. subst r.
  rewrite radio_rx_noti by done. rewrite Hv.
  unfold outcome, emitted, post. cbn.
  repeat split.
  - apply lookup_insert_eq.
  - intros k Hk. by apply lookup_insert_ne.
Qed.

Lemma noti_cancels_matching_entry_witness :
  let r := radio_rx (node_B true) (pdu [2; 0; 2; 7]) (at_time 102) B_pending in
  outcome r = Ok tt ∧ emitted r = [] ∧
  dataPacketTable (post r) !! (2, 0, 7) =
    Some {| dp_data := None; dp_last_time_heard := 101;
            dp_forwarding_time := 0; dp_scheduled := false;
            duplicates := 0 |} ∧
  (∀ k, k ≠ (2, 0, 7) →
        dataPacketTable (post r) !! k = dataPacketTable B_pending !! k) ∧
  sinkTable (post r) = sinkTable B_pending ∧
  sinkNeighborTable (post r) = sinkNeighborTable B_pending ∧
  broadcast_interval (post r) = broadcast_interval B_pending ∧
  sequence_number (post r) = sequence_number B_pending ∧
  sink_pkt_xmit_time (post r) = sink_pkt_xmit_time B_pending ∧
  pkt_cnt (post r) = pkt_cnt B_pending.
Proof.
  apply (noti_cancels_matching_entry (node_B true) (at_time 102) B_pending
           (pmt_dict ∅) 0 2 7 pending_2_0_7);
    [reflexivity | cbn; lia | cbn; lia | reflexivity].
Defined.

(** C9.  Once a matching NOTI has been processed, processing the same NOTI
    again, any number of times and at any instants, changes nothing in the
    engine state and emits nothing. *)
Theorem noti_replay_is_noop cfg e s meta sndr src sn v (es : list Env) :
  crc_ok (meta_dict_of meta) = true →
  sndr ≠ addr cfg → src ≠ addr cfg →
  dataPacketTable s !! (src, sndr, sn) = Some v →
  let msg := pmt_cons meta (pmt_u8vector [NOTI_PROTO; sndr; src; sn]) in
  let s1 := post (radio_rx cfg msg e s) in
  run cfg s1 (map (λ e', (e', from_radio msg)) es) = (s1, []).
Proof.
  intros Hcrc Hs Hr Hv msg s1.
  assert (Hs1 : ∀ e', radio_rx cfg msg e' s1 = (s1, [], Ok tt)).
  { intros e'. subst msg s1. rewrite !radio_rx_noti by done.
    rewrite Hv. unfold post. cbn. rewrite lookup_insert_eq.
    f_equal. f_equal. unfold set_dataPacketTable. cbn.
    rewrite insert_insert_eq. reflexivity. }
  induction es as [|e' es IH]; [reflexivity|].
  cbn [map run]. unfold step. cbn [handle fst snd].
  rewrite Hs1. cbn [fst snd]. rewrite IH. reflexivity.
Qed.

Lemma noti_replay_is_noop_witness :
  let msg := pdu [2; 0; 2; 7] in
  let s1 := post (radio_rx (node_B true) msg (at_time 102) B_pending) in
  run (node_B true) s1
    (map (λ e', (e', from_radio msg)) [at_time 103; at_time 104; at_time 200])
  = (s1, []).
Proof.
  apply (noti_replay_is_noop (node_B true) (at_time 102) B_pending
           (pmt_dict ∅) 0 2 7 pending_2_0_7
           [at_time 103; at_time 104; at_time 200]);
    [reflexivity | cbn; lia | cbn; lia | reflexivity].
Defined.

(** ** DATA ingress at the final destination *)

(** C8.  A valid DATA packet whose DestSink is the node itself makes the
    node emit the NOTI [[NOTI, self, src, seq]] on [to_radio] and then the
    bytes that follow the 7-byte header on [to_app], together with the
    metadata dictionary [d] the packet came with, entry for entry; the
    engine state is not changed.  Metadata that is not a dictionary is
    delivered as the empty dictionary. *)
Theorem data_for_self_is_delivered cfg e s d sndr src sn hc ttl payload :
  crc_ok d = true →
  sndr ≠ addr cfg → src ≠ addr cfg →
  let data :=
    pmt_u8vector
      (DATA_PROTO :: sndr :: src :: sn :: hc :: addr cfg :: ttl :: payload) in
  let noti := to_radio [NOTI_PROTO; addr cfg; src; sn] in
  radio_rx cfg (pmt_cons (pmt_dict d) data) e s
  = (s, [noti; to_app d payload], Ok tt) ∧
  ∀ meta, (∀ d', meta ≠ pmt_dict d') →
          radio_rx cfg (pmt_cons meta data) e s
          = (s, [noti; to_app ∅ payload], Ok tt).
Proof.
  intros Hcrc Hs Hr data noti. subst data noti.
  apply Z.eqb_neq in Hs, Hr.
  assert (H : ∀ meta, crc_ok (meta_dict_of meta) = true →
                radio_rx cfg
                  (pmt_cons meta
                     (pmt_u8vector
                        (DATA_PROTO :: sndr :: src :: sn :: hc :: addr cfg
                         :: ttl :: payload))) e s
                = (s, [to_radio [NOTI_PROTO; addr cfg; src; sn];
                       to_app (meta_dict_of meta) payload], Ok tt)).
  { intros meta Hm. unfold radio_rx, _radio_rx. rewrite Hm.
    unfold handle_data_packet, send_notification_radio, output_user_data.
    munfold. cbn. rewrite Hs, Hr, Z.eqb_refl. cbn.
    destruct (debug_stderr cfg); reflexivity. }
  split; [by apply (H (pmt_dict d))|].
  intros meta Hmeta.
  assert (Hd : meta_dict_of meta = ∅).
  { destruct meta; try reflexivity. by destruct (Hmeta d0). }
  specialize (H meta). rewrite Hd in H. by apply H.
Qed.

(** Scenario 4: node C = 5 receives [[0, 9, 9, 3, 1, 5, 3, 0xDE, 0xAD]] with
    the metadata [rx_meta]. *)
Lemma data_for_self_is_delivered_witness :
  radio_rx node_C
    (pmt_cons (pmt_dict rx_meta) (pmt_u8vector [0; 9; 9; 3; 1; 5; 3; 222; 173]))
    (at_time 10) (init node_C)
  = (init node_C, [to_radio [2; 5; 9; 3]; to_app rx_meta [222; 173]], Ok tt) ∧
  ∀ meta, (∀ d', meta ≠ pmt_dict d') →
          radio_rx node_C
            (pmt_cons meta (pmt_u8vector [0; 9; 9; 3; 1; 5; 3; 222; 173]))
            (at_time 10) (init node_C)
          = (init node_C, [to_radio [2; 5; 9; 3]; to_app ∅ [222; 173]], Ok tt).
Proof.
  apply (data_for_self_is_delivered node_C (at_time 10) (init node_C)
           rx_meta 9 9 3 1 3 [222; 173]);
    [reflexivity | cbn; lia | cbn; lia].
Defined.

(** ** Application ingress without a gradient *)

(** C5, as stated, fails: on a node without a gradient the dropped payload
    still advances [pkt_cnt]. *)
Lemma app_drop_changes_state :
  ¬ (∀ cfg msg e s,
       dict_contains (sinkTable s) (SINK_ADDR cfg) = false →
       emitted (app_rx cfg msg e s) = [] ∧ post (app_rx cfg msg e s) = s).
Proof.
  intros H.
  destruct (H (node_B false) (pdu [170]) (at_time 10) (init (node_B false))
              eq_refl) as [_ Hpost].
  apply (f_equal pkt_cnt) in Hpost. vm_compute in Hpost. discriminate.
Qed.

(** C5, amended.  On a node whose configured sink is not a key of the sink
    table, an application message is dropped: the handler returns normally,
    nothing is emitted, and the state is unchanged except for [pkt_cnt],
    which is incremented mod 256 for every (metadata, u8vector) pair, and
    kept for any other message. *)
Theorem app_rx_without_gradient cfg msg e s :
  dict_contains (sinkTable s) (SINK_ADDR cfg) = false →
  app_rx cfg msg e s =
  (if is_pdu msg then set_pkt_cnt ((pkt_cnt s + 1) mod 256) s else s,
   [], Ok tt).
Proof.
  intros Hno.
  destruct msg as [| | | | |  |meta d]; try reflexivity.
  destruct d as [| | | |elts| |]; try reflexivity.
  unfold app_rx, _app_rx, send_pkt_radio. munfold. rewrite Hno. reflexivity.
Qed.

Lemma app_rx_without_gradient_witness :
  dict_contains (sinkTable (init (node_B false))) (SINK_ADDR (node_B false))
    = false ∧
  app_rx (node_B false) (pdu [170]) (at_time 10) (init (node_B false)) =
  (set_pkt_cnt 1 (init (node_B false)), [], Ok tt).
Proof.
  split; [reflexivity|].
  apply (app_rx_without_gradient (node_B false) (pdu [170]) (at_time 10)
           (init (node_B false))).
  reflexivity.
Defined.

(** ** SINK ingress: the sink-neighbor entry *)

Lemma minium_addr_defined e s key v :
  sinkNeighborTable s !! key = Some v →
  ∃ m, minium_addr_in_sink_neighbor_table e s = (s, [], Ok m).
Proof.
  intros Hk. unfold minium_addr_in_sink_neighbor_table.
  rewrite (bind_ok _ _ _ _ s s) by reflexivity.
  pose proof (dict_keys_nonempty _ _ _ Hk) as Hne.
  destruct (dict_keys (sinkNeighborTable s)) as [|[a b] ks]; [done|].
  cbn. eauto.
Qed.

Lemma update_sink_neighbor_entry_ok cfg data e s s1 o1 key :
  update_sink_neighbor_entry cfg data e s = (s1, o1, Ok key) →
  o1 = [] ∧ ∃ v, s1 = set_sinkNeighborTable (insert key v) s.
Proof.
  unfold update_sink_neighbor_entry, dict_contains. munfold.
  destruct (data !! PKT_SNDR); [|discriminate].
  destruct (data !! PKT_SRC); [|discriminate].
  destruct (data !! PKT_SN), (data !! PKT_HC), (debug_stderr cfg),
    (sinkNeighborTable s !! (z, z0)); cbn; intros [= <- <- <-]; eauto.
Qed.

Lemma adjust_broadcast_interval_ok cfg key e s v :
  sinkNeighborTable s !! key = Some v →
  ∃ s', adjust_broadcast_interval cfg key e s = (s', [], Ok tt).
Proof.
  intros Hk. unfold adjust_broadcast_interval.
  destruct (minium_addr_defined e s key v Hk) as [m Hm].
  rewrite (bind_ok _ _ _ _ _ _ Hm).
  destruct (addr cfg >? m); [|by eexists].
  munfold. rewrite Hk. cbn. by eexists.
Qed.




(** ** SINK ingress: the minimum over the sink-neighbor table *)

Lemma update_sink_neighbor_entry_no_ValueError cfg data e s :
  outcome (update_sink_neighbor_entry cfg data e s) ≠ Raise ValueError.
Proof.
  unfold update_sink_neighbor_entry, dict_contains, outcome. munfold.
  destruct (data !! PKT_SNDR); [|discriminate].
  destruct (data !! PKT_SRC); [|discriminate].
  destruct (data !! PKT_SN), (data !! PKT_HC), (debug_stderr cfg),
    (sinkNeighborTable s !! (z, z0)); cbn; discriminate.
Qed.

Lemma update_sink_entry_no_ValueError cfg data e s :
  outcome (update_sink_entry cfg data e s) ≠ Raise ValueError.
Proof.
  unfold update_sink_entry, dict_contains, outcome. munfold.
  destruct (data !! PKT_SRC); [|discriminate].
  destruct (data !! PKT_SN), (data !! PKT_HC), (sinkTable s !! z);
    cbn; discriminate.
Qed.

Lemma handle_sink_packet_no_ValueError cfg data meta e s :
  outcome (handle_sink_packet cfg data meta e s) ≠ Raise ValueError.
Proof.
  unfold handle_sink_packet. rewrite outcome_bind.
  pose proof (update_sink_neighbor_entry_no_ValueError cfg data e s) as Hup.
  destruct (update_sink_neighbor_entry cfg data e s) as [[s1 o1] [key|x]] eqn:E;
    cbn [outcome post fst snd] in *;
    [|intros [= ->]; by apply Hup].
  destruct (update_sink_neighbor_entry_ok _ _ _ _ _ _ _ E) as [-> [v ->]].
  destruct (adjust_broadcast_interval_ok cfg key e
              (set_sinkNeighborTable (insert key v) s) v) as [s' Hadj];
    [apply lookup_insert_eq|].
  rewrite (bind_ok _ _ _ _ _ _ Hadj).
  apply update_sink_entry_no_ValueError.
Qed.

(** C10.  When the sink-neighbor update of [handle_sink_packet] has returned
    (with key [key], in state [s1]), the table holds [key], so it is not
    empty, [minium_addr_in_sink_neighbor_table] returns a minimum, and the
    handler never raises the [ValueError] of [min] on an empty list. *)
Theorem min_addr_defined_when_computed cfg data meta e s s1 o1 key :
  update_sink_neighbor_entry cfg data e s = (s1, o1, Ok key) →
  is_Some (sinkNeighborTable s1 !! key) ∧
  sinkNeighborTable s1 ≠ ∅ ∧
  (∃ m, minium_addr_in_sink_neighbor_table e s1 = (s1, [], Ok m)) ∧
  outcome (handle_sink_packet cfg data meta e s) ≠ Raise ValueError.
Proof.
  intros Hup.
  destruct (update_sink_neighbor_entry_ok _ _ _ _ _ _ _ Hup) as [-> [v ->]].
  assert (Hk : sinkNeighborTable (set_sinkNeighborTable (insert key v) s)
               !! key = Some v) by apply lookup_insert_eq.
  split; [by eexists|].
  split; [intros Hempty; by rewrite Hempty, lookup_empty in Hk|].
  split; [by eapply minium_addr_defined|].
  apply handle_sink_packet_no_ValueError.
Qed.

Lemma min_addr_defined_when_computed_witness :
  update_sink_neighbor_entry (node_B true) [1; 0; 0; 0; 0] (at_time 100)
    (init (node_B true)) = (B_heard_beacon, [], Ok (0, 0)) ∧
  is_Some (sinkNeighborTable B_heard_beacon !! (0, 0)) ∧
  sinkNeighborTable B_heard_beacon ≠ ∅ ∧
  (∃ m, minium_addr_in_sink_neighbor_table (at_time 100) B_heard_beacon
        = (B_heard_beacon, [], Ok m)) ∧
  outcome (handle_sink_packet (node_B true) [1; 0; 0; 0; 0] ∅ (at_time 100)
             (init (node_B true))) ≠ Raise ValueError.
Proof.
  split; [reflexivity|].
  apply (min_addr_defined_when_computed (node_B true) [1; 0; 0; 0; 0] ∅
           (at_time 100) (init (node_B true)) B_heard_beacon [] (0, 0)).
  reflexivity.
Defined.

(** ** The tick on a non-sink node: scheduled sink packets *)

Lemma forward_sink_entry_run cfg k e s v :
  sinkTable s !! k = Some v →
  forward_sink_entry cfg k e s =
  if scheduled v && Qgeb (now e) (forwarding_time v)
  then (set_sink_pkt_xmit_time (Some (now e)) s,
        [to_radio [SINK_PROTO; addr cfg; k; highest_rcvd_seq_num v;
                   min_dx_to_sink v]],
        Ok tt)
  else (s, [], Ok tt).
Proof.
  intros Hk. unfold forward_sink_entry, send_sink_pkt. munfold.
  rewrite Hk. cbn. by destruct (scheduled v && Qgeb (now e) (forwarding_time v)).
Qed.

(** What the loop over the sink table does: it emits, and records the
    transmit time; no table is written. *)
Lemma sink_loop_run cfg e ks :
  ∀ s, (∀ k, k ∈ ks → is_Some (sinkTable s !! k)) →
  ∃ s' o,
    for_each ks (forward_sink_entry cfg) e s = (s', o, Ok tt) ∧
    sinkTable s' = sinkTable s ∧
    dataPacketTable s' = dataPacketTable s ∧
    sinkNeighborTable s' = sinkNeighborTable s ∧
    Forall (λ x, ∃ pdu, x = to_radio pdu ∧ pdu !! 0%nat = Some SINK_PROTO) o ∧
    (∀ k v, k ∈ ks → sinkTable s !! k = Some v →
            scheduled v && Qgeb (now e) (forwarding_time v) = true →
            to_radio [SINK_PROTO; addr cfg; k; highest_rcvd_seq_num v;
                      min_dx_to_sink v] ∈ o).
Proof.
  induction ks as [|k ks IH]; intros s Hks.
  - exists s, []. repeat split; [constructor|]. intros k v Hk. by inv Hk.
  - destruct (Hks k) as [v Hv]; [left|].
    cbn [for_each]. rewrite bind_run, (forward_sink_entry_run _ _ _ _ _ Hv).
    destruct (scheduled v && Qgeb (now e) (forwarding_time v)) eqn:Hready.
    + destruct (IH (set_sink_pkt_xmit_time (Some (now e)) s))
        as (s' & o & Hrun & Ht1 & Ht2 & Ht3 & Hall & Hin).
      { intros k' Hk'. apply Hks. by right. }
      rewrite Hrun. eexists _, _. split; [reflexivity|].
      repeat split; try done.
      * constructor; [by eexists|done].
      * intros k' v' Hk' Hv' Hr'. apply elem_of_cons in Hk' as [->|Hk'].
        -- rewrite Hv in Hv'. injection Hv' as <-. left.
        -- right. by apply (Hin k' v').
    + destruct (IH s) as (s' & o & Hrun & Ht1 & Ht2 & Ht3 & Hall & Hin).
      { intros k' Hk'. apply Hks. by right. }
      rewrite Hrun. eexists _, _. split; [reflexivity|].
      repeat split; try done.
      intros k' v' Hk' Hv' Hr'. apply elem_of_cons in Hk' as [->|Hk'].
      * rewrite Hv in Hv'. injection Hv' as <-. congruence.
      * by apply (Hin k' v').
Qed.

Lemma send_data_packets_keeps_sinkTable cfg T :
  preserves (λ s, sinkTable s = T) (send_data_packets cfg).
Proof.
  unfold send_data_packets, forward_data_entry. handler_auto; frame_leaf.
Qed.

Lemma check_sink_neighbor_table_keeps_sinkTable cfg T :
  preserves (λ s, sinkTable s = T) (check_sink_neighbor_table cfg).
Proof.
  unfold check_sink_neighbor_table, age_sink_neighbor_entry.
  handler_auto; frame_leaf.
Qed.

Lemma check_data_packet_table_keeps_sinkTable cfg T :
  preserves (λ s, sinkTable s = T) (check_data_packet_table cfg).
Proof.
  unfold check_data_packet_table, age_data_entry. handler_auto; frame_leaf.
Qed.

(** Aging never rewrites a sink entry. *)
Lemma check_sink_table_no_rewrite cfg k v :
  preserves (λ s, ∀ v', sinkTable s !! k = Some v' → v' = v)
    (check_sink_table cfg).
Proof.
  unfold check_sink_table, age_sink_entry. handler_auto.
  apply preserves_modify. intros s Hs v'. cbn.
  rewrite lookup_delete. case_decide; [done|apply Hs].
Qed.

(** Aging keeps a sink entry heard within [Slt]. *)
Lemma check_sink_table_keeps_fresh cfg e k v :
  Qgtb (now e - last_time_heard v) (Slt cfg) = false →
  ∀ s, sinkTable s !! k = Some v →
       sinkTable (post (check_sink_table cfg e s)) !! k = Some v.
Proof.
  intros Hfresh s Hs. unfold check_sink_table.
  rewrite (bind_ok _ _ _ _ s (now e)) by reflexivity.
  rewrite (bind_ok _ _ _ _ s s) by reflexivity.
  cbv zeta. generalize (dict_keys (sinkTable s)). intros ks.
  refine (preserves_for_each (λ s, sinkTable s !! k = Some v) ks _ _ e s Hs).
  clear s Hs. intros k' e' s Hs. unfold age_sink_entry. munfold.
  destruct (sinkTable s !! k') as [v'|] eqn:Hk'; cbn; [|done].
  destruct (Qgtb (now e - last_time_heard v') (Slt cfg)) eqn:Hold; cbn;
    [|done].
  rewrite lookup_delete_ne; [done|]. intros ->. congruence.
Qed.

(** C1.  On a non-sink node, a tick that finds the sink entry [k] scheduled
    and due emits [[SINK, self, k, highest_seq, min_hops]], but it does not
    write the entry back: the rebuilt record is bound to a local name only.
    After the tick the stored entry, if still present, is the one found
    ([scheduled] still true, [forwarding_time] and [min_dx_to_sink] as
    before); it is present when it was heard within [Slt]. *)
Theorem sink_forward_does_not_commit cfg msg e s k v :
  addr cfg ≠ SINK_ADDR cfg →
  sinkTable s !! k = Some v →
  scheduled v = true →
  Qgeb (now e) (forwarding_time v) = true →
  let r := ctrl_rx cfg msg e s in
  to_radio [SINK_PROTO; addr cfg; k; highest_rcvd_seq_num v; min_dx_to_sink v]
    ∈ emitted r ∧
  (∀ v', sinkTable (post r) !! k = Some v' → v' = v) ∧
  (Qgtb (now e - last_time_heard v) (Slt cfg) = false →
   sinkTable (post r) !! k = Some v).
Proof.
  intros Hns Hk Hsch Hdue r. subst r. unfold ctrl_rx.
  destruct (sink_loop_run cfg e (dict_keys (sinkTable s)) s)
    as (s1 & o1 & Hrun & Ht & _ & _ & _ & Hin).
  { intros k'. apply elem_of_dict_keys. }
  assert (Hloop : send_sink_packets cfg e s = (s1, o1, Ok tt)).
  { unfold send_sink_packets. apply Z.eqb_neq in Hns. rewrite Hns.
    by rewrite (bind_ok _ _ _ _ s s). }
  rewrite bind_run, Hloop.
  match goal with
  | |- context [match ?m e s1 with _ => _ end] => set (rest := m)
  end.
  assert (H1 : sinkTable s1 !! k = Some v) by (by rewrite Ht).
  assert (Hsame : ∀ v', sinkTable (post (rest e s1)) !! k = Some v' → v' = v).
  { assert (H1' : ∀ v', sinkTable s1 !! k = Some v' → v' = v).
    { intros v'. rewrite H1. congruence. }
    revert H1'. generalize s1. intros s2 H2. subst rest.
    eapply (preserves_bind (λ s, ∀ v', sinkTable s !! k = Some v' → v' = v));
      [| |exact H2].
    + intros e' s' Hs'.
      by rewrite (send_data_packets_keeps_sinkTable cfg (sinkTable s')
                    e' s' eq_refl).
    + intros _.
      eapply (preserves_bind
                (λ s, ∀ v', sinkTable s !! k = Some v' → v' = v)).
      * intros e' s' Hs'.
        by rewrite (check_sink_neighbor_table_keeps_sinkTable cfg
                      (sinkTable s') e' s' eq_refl).
      * intros _. eapply preserves_bind; [apply check_sink_table_no_rewrite|].
        intros _ e' s' Hs'.
        by rewrite (check_data_packet_table_keeps_sinkTable cfg
                      (sinkTable s') e' s' eq_refl). }
  assert (Hfresh : Qgtb (now e - last_time_heard v) (Slt cfg) = false →
                   sinkTable (post (rest e s1)) !! k = Some v).
  { intros Hfresh. subst rest. rewrite post_bind.
    pose proof (send_data_packets_keeps_sinkTable cfg (sinkTable s1)
                  e s1 eq_refl) as Hd.
    destruct (outcome _); [|by rewrite Hd].
    rewrite <- Hd in H1. revert H1.
    generalize (post (send_data_packets cfg e s1)).
    intros s2 H2. rewrite post_bind.
    pose proof (check_sink_neighbor_table_keeps_sinkTable cfg (sinkTable s2)
                  e s2 eq_refl) as Hn.
    destruct (outcome _); [|by rewrite Hn].
    rewrite <- Hn in H2. revert H2.
    generalize (post (check_sink_neighbor_table cfg e s2)).
    intros s3 H3. rewrite post_bind.
    pose proof (check_sink_table_keeps_fresh cfg e k v Hfresh s3 H3) as Hs.
    destruct (outcome _); [|done].
    revert Hs. generalize (post (check_sink_table cfg e s3)). intros s4 H4.
    by rewrite (check_data_packet_table_keeps_sinkTable cfg (sinkTable s4)
                  e s4 eq_refl). }
  destruct (rest e s1) as [[s2 o2] r2].
  cbn [emitted post fst snd] in *.
  split; [|by split].
  apply elem_of_app. left. apply (Hin k v); [|done|].
  - apply elem_of_dict_keys. by eexists.
  - by rewrite Hsch, Hdue.
Qed.

(** Scenario 1 at node B: the beacon heard at instant 100 is due at 102.5;
    the tick at 103 emits it and leaves the entry scheduled. *)
Lemma sink_forward_does_not_commit_witness :
  let r := ctrl_rx (node_B true) pmt_nil (at_time 103) B_has_gradient in
  sinkTable B_has_gradient !! 0 = Some gradient_to_0 ∧
  to_radio [1; 1; 0; 0; 1] ∈ emitted r ∧
  (∀ v', sinkTable (post r) !! 0 = Some v' → v' = gradient_to_0) ∧
  (Qgtb (103 - 100) 50 = false →
   sinkTable (post r) !! 0 = Some gradient_to_0).
Proof.
  split; [reflexivity|].
  apply (sink_forward_does_not_commit (node_B true) pmt_nil (at_time 103)
           B_has_gradient 0 gradient_to_0);
    [cbn; lia | reflexivity | reflexivity | reflexivity].
Defined.

(** ** The duplicate quota of scheduled data entries *)

Lemma quota_inv_insert cfg k v :
  (dp_scheduled v = true → duplicates v < Ndupl cfg) →
  preserves (quota_inv cfg) (modify (set_dataPacketTable (insert k v))).
Proof.
  intros Hv. apply preserves_modify. intros s Hs k' v'. cbn.
  rewrite lookup_insert. case_decide.
  - intros [= <-]. exact Hv.
  - apply Hs.
Qed.

Lemma quota_inv_delete cfg k :
  preserves (quota_inv cfg) (modify (set_dataPacketTable (delete k))).
Proof.
  apply preserves_modify. intros s Hs k' v'. cbn.
  rewrite lookup_delete. case_decide; [done|apply Hs].
Qed.

Lemma quota_inv_frame cfg (f : State → State) :
  (∀ s, dataPacketTable (f s) = dataPacketTable s) →
  preserves (quota_inv cfg) (modify f).
Proof.
  intros Hf. apply preserves_modify. intros s Hs k v. rewrite Hf. apply Hs.
Qed.

Ltac quota_leaf :=
  match goal with
  | |- preserves (quota_inv _) (modify (set_dataPacketTable (delete _))) =>
      apply quota_inv_delete
  | |- preserves (quota_inv _) (modify (set_dataPacketTable (insert _ _))) =>
      apply quota_inv_insert; cbn; try done; try (intros ?%Z.ltb_lt; done)
  | |- preserves (quota_inv _) (modify _) =>
      apply quota_inv_frame; done
  end.

Lemma quota_inv_handle cfg ev :
  0 < Ndupl cfg → preserves (quota_inv cfg) (handle cfg ev).
Proof.
  intros Hn. destruct ev as [msg|msg|msg]; cbn [handle].
  - unfold radio_rx, _radio_rx, handle_sink_packet, handle_data_packet,
      handle_receive_notification, update_sink_neighbor_entry,
      adjust_broadcast_interval, update_sink_entry,
      minium_addr_in_sink_neighbor_table, send_notification_radio,
      output_user_data.
    handler_auto; quota_leaf.
  - unfold app_rx, _app_rx, send_pkt_radio.
    handler_auto; quota_leaf.
  - unfold ctrl_rx, send_sink_packets, send_data_packets,
      forward_sink_entry, forward_data_entry, send_sink_pkt,
      check_sink_neighbor_table, check_sink_table, check_data_packet_table,
      age_sink_neighbor_entry, age_sink_entry, age_data_entry.
    handler_auto; quota_leaf.
Qed.

Lemma quota_inv_run cfg tr s :
  0 < Ndupl cfg → quota_inv cfg s → quota_inv cfg (run cfg s tr).1.
Proof.
  intros Hn. revert s. induction tr as [|[e ev] tr IH]; intros s Hs; [done|].
  cbn [run fst]. apply IH. unfold step. cbn [fst snd].
  by apply (quota_inv_handle cfg ev Hn e s).
Qed.

(** C6, as stated, fails on a node configured with [Ndupl = 0]: the entry
    created on first receipt is scheduled with [duplicates = 0]. *)
Lemma scheduled_at_quota_zero :
  ¬ (∀ cfg tr k v,
       dataPacketTable (run cfg (init cfg) tr).1 !! k = Some v →
       dp_scheduled v = true → duplicates v < Ndupl cfg).
Proof.
  intros H.
  specialize (H node_B_no_quota
                [(at_time 100, from_radio (pdu [1; 0; 0; 0; 0]));
                 (at_time 101, from_radio (pdu [0; 2; 2; 7; 0; 0; 5; 170]))]
                (2, 0, 7) pending_2_0_7 eq_refl eq_refl).
  vm_compute in H. discriminate.
Qed.

(** C6, amended.  On a node configured with [Ndupl >= 1], after any sequence
    of receipts, application messages and ticks, every data-packet-table
    entry that is scheduled has [duplicates < Ndupl]; an entry whose
    [duplicates] has reached [Ndupl] is not scheduled. *)
Theorem scheduled_implies_below_quota cfg tr k v :
  0 < Ndupl cfg →
  dataPacketTable (run cfg (init cfg) tr).1 !! k = Some v →
  (dp_scheduled v = true → duplicates v < Ndupl cfg) ∧
  (Ndupl cfg ≤ duplicates v → dp_scheduled v = false).
Proof.
  intros Hn Hk.
  assert (Hq : quota_inv cfg (run cfg (init cfg) tr).1).
  { apply quota_inv_run; [done|]. intros k' v' Hk'. cbn in Hk'.
    by rewrite lookup_empty in Hk'. }
  split.
  - by apply (Hq k v).
  - intros Hge. destruct (dp_scheduled v) eqn:Hs; [|done].
    specialize (Hq k v Hk Hs). lia.
Qed.

(** Scenario 2: node B overhears two further copies of the pending packet. *)
Lemma scheduled_implies_below_quota_witness :
  0 < Ndupl (node_B true) ∧
  dataPacketTable (run (node_B true) (init (node_B true)) duplicates_heard).1
    !! (2, 0, 7) = Some suppressed_2_0_7 ∧
  (dp_scheduled suppressed_2_0_7 = true →
   duplicates suppressed_2_0_7 < Ndupl (node_B true)) ∧
  (Ndupl (node_B true) ≤ duplicates suppressed_2_0_7 →
   dp_scheduled suppressed_2_0_7 = false).
Proof.
  split; [cbn; lia|]. split; [reflexivity|].
  apply (scheduled_implies_below_quota (node_B true) duplicates_heard
           (2, 0, 7) suppressed_2_0_7); [cbn; lia | reflexivity].
Defined.

(** ** Forwards of a data packet *)

Lemma forwards_app k o1 o2 :
  forwards k (o1 ++ o2) = (forwards k o1 + forwards k o2)%nat.
Proof. induction o1 as [|o o1 IH]; cbn; [done|]. rewrite IH. lia. Qed.

Lemma forwards_one_le k o : (forwards k [o] ≤ 1)%nat.
Proof. cbn. destruct (is_forward_of k o); lia. Qed.

Lemma forwards_other_key k k' pdu :
  data_key pdu = Some k' → k' ≠ k → forwards k [to_radio pdu] = 0%nat.
Proof.
  intros Hk Hne. cbn. rewrite Hk.
  destruct (pdu !! PKT_PROT_ID); [|done].
  rewrite bool_decide_eq_false_2 by done. by rewrite andb_false_r.
Qed.

Lemma forwards_sink_pdus k o :
  Forall (λ x, ∃ pdu, x = to_radio pdu ∧ pdu !! 0%nat = Some SINK_PROTO) o →
  forwards k o = 0%nat.
Proof.
  induction 1 as [|x o (pdu & -> & Hp) _ IH]; [done|].
  cbn [forwards is_forward_of]. unfold PKT_PROT_ID. rewrite Hp, IH.
  by destruct (data_key pdu).
Qed.

Lemma keys_match_subseteq (t t' : gmap (Z * Z * Z) DataPktVal) :
  t' ⊆ t → keys_match t → keys_match t'.
Proof.
  intros Hsub Hm k v pdu Hk. apply Hm. by eapply lookup_weaken.
Qed.

Lemma keys_match_insert (t : gmap (Z * Z * Z) DataPktVal) k v :
  (∀ pdu, dp_data v = Some pdu → data_key pdu = Some k) →
  keys_match t → keys_match (<[k := v]> t).
Proof.
  intros Hv Hm k' v' pdu. rewrite lookup_insert. case_decide.
  - intros [= <-]. subst k'. apply Hv.
  - apply Hm.
Qed.

Lemma budget_insert_ne (t : gmap (Z * Z * Z) DataPktVal) k k' v :
  k' ≠ k → budget k (<[k' := v]> t) = budget k t.
Proof. intros Hne. unfold budget. by rewrite lookup_insert_ne. Qed.

Lemma fwd_rel_refl k s : fwd_rel k s [] s.
Proof. intros Hm. split; [done|]. split; [cbn; lia|done]. Qed.

Lemma fwd_rel_trans k s o1 s1 o2 s2 :
  fwd_rel k s o1 s1 → fwd_rel k s1 o2 s2 → fwd_rel k s (o1 ++ o2) s2.
Proof.
  intros H1 H2 Hm. destruct (H1 Hm) as (Hm1 & Hb1 & Hd1).
  destruct (H2 Hm1) as (Hm2 & Hb2 & Hd2).
  split; [done|]. split; [rewrite forwards_app; lia|].
  by rewrite Hd2.
Qed.

(** ** The tick: data packets that are due *)

Lemma forward_data_entry_run cfg k e s :
  forward_data_entry cfg k e s =
  match dataPacketTable s !! k with
  | None => (s, [], Raise KeyError)
  | Some v =>
      if dp_scheduled v && (duplicates v <=? Ndupl cfg)
         && Qgeb (now e) (dp_forwarding_time v)
      then
        match dp_data v with
        | Some pdu =>
            (set_dataPacketTable (insert k (cancelled v)) s,
             [to_radio pdu], Ok tt)
        | None => (s, [], Raise TypeError)
        end
      else (s, [], Ok tt)
  end.
Proof.
  unfold forward_data_entry. munfold.
  destruct (dataPacketTable s !! k) as [v|]; [|reflexivity]. cbn.
  destruct (dp_scheduled v && (duplicates v <=? Ndupl cfg)
            && Qgeb (now e) (dp_forwarding_time v)); [|reflexivity].
  by destruct (debug_stderr cfg), (dp_data v).
Qed.

Lemma forward_data_entry_fwd cfg k k' :
  sat (fwd_rel k) (forward_data_entry cfg k').
Proof.
  intros e s. rewrite forward_data_entry_run.
  destruct (dataPacketTable s !! k') as [v|] eqn:Hv;
    [|apply fwd_rel_refl].
  destruct (_ && _); [|apply fwd_rel_refl].
  destruct (dp_data v) as [pdu|] eqn:Hd; [|apply fwd_rel_refl].
  unfold emitted, post. cbn [fst snd]. intros Hm.
  cbn [dataPacketTable set_dataPacketTable]. split; [|split].
  - apply keys_match_insert; [done|done].
  - destruct (decide (k' = k)) as [->|Hne].
    + pose proof (forwards_one_le k (to_radio pdu)).
      unfold budget. rewrite lookup_insert_eq, Hv, Hd. cbn [cancelled dp_data].
      lia.
    + rewrite budget_insert_ne by done.
      rewrite (forwards_other_key k k' pdu); [lia| |done].
      by apply (Hm k' v).
  - rewrite lookup_insert. case_decide; [|done]. subst k'.
    rewrite Hv. split; by eexists.
Qed.

Lemma send_data_packets_fwd cfg k : sat (fwd_rel k) (send_data_packets cfg).
Proof.
  unfold send_data_packets. intros e s.
  rewrite (bind_ok _ _ _ _ s s) by reflexivity.
  apply sat_for_each;
    [apply fwd_rel_refl|apply fwd_rel_trans|apply forward_data_entry_fwd].
Qed.

(** ** The tick: sink packets *)

Lemma send_sink_packets_quiet cfg k e s :
  dataPacketTable (post (send_sink_packets cfg e s)) = dataPacketTable s ∧
  forwards k (emitted (send_sink_packets cfg e s)) = 0%nat.
Proof.
  unfold send_sink_packets. destruct (addr cfg =? SINK_ADDR cfg).
  - unfold send_sink_pkt. munfold. cbn.
    destruct (Qgtb (broadcast_interval s) 0 && _); cbn; done.
  - rewrite (bind_ok _ _ _ _ s s) by reflexivity.
    destruct (sink_loop_run cfg e (dict_keys (sinkTable s)) s)
      as (s1 & o1 & -> & _ & Hd & _ & Hall & _).
    { intros k'. apply elem_of_dict_keys. }
    split; [done|]. by apply forwards_sink_pdus.
Qed.

(** ** The tick: aging *)

Lemma aging_silent cfg :
  silent (check_sink_neighbor_table cfg;; check_sink_table cfg;;
          check_data_packet_table cfg).
Proof.
  unfold check_sink_neighbor_table, check_sink_table, check_data_packet_table,
    age_sink_neighbor_entry, age_sink_entry, age_data_entry.
  handler_auto.
Qed.

Lemma aging_subseteq cfg T :
  preserves (λ s, dataPacketTable s ⊆ T)
    (check_sink_neighbor_table cfg;; check_sink_table cfg;;
     check_data_packet_table cfg).
Proof.
  unfold check_sink_neighbor_table, check_sink_table, check_data_packet_table,
    age_sink_neighbor_entry, age_sink_entry, age_data_entry.
  handler_auto; try frame_leaf.
  apply preserves_modify. intros s Hs. cbn.
  etrans; [apply delete_subseteq|done].
Qed.

(** ** One delivery and the budget of a key *)

(** The tick creates no entry: every forward of [k] is paid from the bytes
    that were pending, whether or not the entry is purged afterwards. *)
Lemma ctrl_rx_pending cfg k msg e s :
  keys_match (dataPacketTable s) →
  keys_match (dataPacketTable (post (ctrl_rx cfg msg e s))) ∧
  (forwards k (emitted (ctrl_rx cfg msg e s))
   + pending k (dataPacketTable (post (ctrl_rx cfg msg e s)))
   ≤ pending k (dataPacketTable s))%nat ∧
  (is_Some (dataPacketTable (post (ctrl_rx cfg msg e s)) !! k) →
   is_Some (dataPacketTable s !! k)).
Proof.
  intros Hm. unfold ctrl_rx. rewrite post_bind, emitted_bind.
  destruct (send_sink_packets_quiet cfg k e s) as [Ht1 Hf1].
  revert Ht1 Hf1.
  generalize (post (send_sink_packets cfg e s)),
    (emitted (send_sink_packets cfg e s)).
  intros s1 o1 Ht1 Hf1.
  destruct (outcome (send_sink_packets cfg e s)) as [[]|x];
    [|rewrite Ht1, Hf1; split; [done|split; [lia|done]]].
  rewrite post_bind, emitted_bind.
  destruct (send_data_packets_fwd cfg k e s1) as (Hm2 & Hb2 & Hd2);
    [by rewrite Ht1|].
  revert Hm2 Hb2 Hd2.
  generalize (post (send_data_packets cfg e s1)),
    (emitted (send_data_packets cfg e s1)).
  intros s2 o2 Hm2 Hb2 Hd2. rewrite Ht1 in Hb2, Hd2.
  assert (Hp2 : (forwards k o2 + pending k (dataPacketTable s2)
                 ≤ pending k (dataPacketTable s))%nat).
  { unfold pending, budget in *.
    destruct (dataPacketTable s !! k) as [v|] eqn:H0.
    - destruct (proj2 Hd2) as [v2 H2]; [by eexists|]. by rewrite H2 in Hb2 |- *.
    - assert (dataPacketTable s2 !! k = None) as H2.
      { apply eq_None_not_Some. rewrite Hd2. by intros [? [=]]. }
      rewrite H2 in Hb2 |- *. lia. }
  destruct (outcome (send_data_packets cfg e s1)) as [[]|x];
    [|rewrite forwards_app, Hf1; split; [done|split; [lia|by apply Hd2]]].
  rewrite aging_silent.
  pose proof (aging_subseteq cfg (dataPacketTable s2) e s2 (reflexivity _))
    as Hsub.
  revert Hsub.
  generalize (post ((check_sink_neighbor_table cfg;; check_sink_table cfg;;
                     check_data_packet_table cfg) e s2)).
  intros s3 Hsub.
  split; [by eapply keys_match_subseteq|].
  rewrite !forwards_app, Hf1. cbn [forwards].
  split.
  - assert ((pending k (dataPacketTable s3)
             ≤ pending k (dataPacketTable s2))%nat); [|lia].
    unfold pending. destruct (dataPacketTable s3 !! k) as [v3|] eqn:H3;
      [|lia].
    by rewrite (lookup_weaken _ _ _ _ H3 Hsub).
  - intros [v3 H3]. apply Hd2. exists v3. by eapply lookup_weaken.
Qed.

Lemma handle_sink_packet_frame cfg dat meta T :
  silent (handle_sink_packet cfg dat meta) ∧
  preserves (λ s, dataPacketTable s = T) (handle_sink_packet cfg dat meta).
Proof.
  unfold handle_sink_packet, update_sink_neighbor_entry,
    adjust_broadcast_interval, update_sink_entry,
    minium_addr_in_sink_neighbor_table.
  split; handler_auto; frame_leaf.
Qed.

Lemma radio_rx_budget cfg k msg e s :
  keys_match (dataPacketTable s) →
  keys_match (dataPacketTable (post (radio_rx cfg msg e s))) ∧
  (forwards k (emitted (radio_rx cfg msg e s))
   + budget k (dataPacketTable (post (radio_rx cfg msg e s)))
   ≤ budget k (dataPacketTable s))%nat.
Proof.
  intros Hm.
  destruct (radio_rx_dispatch cfg msg e s)
    as [-> | [-> | [(meta & sndr & src & sn & hc & _ & _ & ->)
       | [(meta & sndr & src & sn & hc & dest & ttl & payload & _ & _ & ->)
       | (meta & sndr & src & sn & _ & _ & ->)]]]].
  - split; [done|cbn; lia].
  - split; [done|cbn; lia].
  - destruct (handle_sink_packet_frame cfg [SINK_PROTO; sndr; src; sn; hc]
                meta (dataPacketTable s)) as [Hsil Hpre].
    rewrite Hsil, (Hpre e s eq_refl). split; [done|cbn; lia].
  - rewrite handle_data_packet_run.
    destruct (dest =? addr cfg); [split; [done|cbn; lia]|].
    destruct (sinkTable s !! dest) as [sv|]; [|split; [done|cbn; lia]].
    destruct (ttl - 1 <? min_dx_to_sink sv); [split; [done|cbn; lia]|].
    destruct (dataPacketTable s !! (src, dest, sn)) as [a|] eqn:Ha.
    + destruct (hc <=? min_dx_to_sink sv); [|split; [done|cbn; lia]].
      unfold post, emitted. cbn [fst snd dataPacketTable set_dataPacketTable].
      split.
      * apply keys_match_insert; [|done]. cbn. intros pdu. by apply Hm.
      * cbn [forwards]. unfold budget. rewrite lookup_insert. case_decide.
        -- subst k. rewrite Ha. cbn. lia.
        -- lia.
    + unfold post, emitted. cbn [fst snd dataPacketTable set_dataPacketTable].
      split.
      * apply keys_match_insert; [|done]. cbn. by intros pdu [= <-].
      * cbn [forwards]. unfold budget. rewrite lookup_insert. case_decide.
        -- subst k. rewrite Ha. cbn. lia.
        -- lia.
  - rewrite handle_receive_notification_run.
    destruct (dataPacketTable s !! (src, sndr, sn)) as [v|] eqn:Hv;
      [|split; [done|cbn; lia]].
    unfold post, emitted. cbn [fst snd dataPacketTable set_dataPacketTable].
    split.
    + apply keys_match_insert; [|done]. by cbn.
    + cbn [forwards]. unfold budget. rewrite lookup_insert. case_decide.
      * subst k. rewrite Hv. cbn. destruct (dp_data v); lia.
      * lia.
Qed.

Lemma app_rx_budget cfg k msg e s :
  k.1.1 ≠ addr cfg →
  dataPacketTable (post (app_rx cfg msg e s)) = dataPacketTable s ∧
  forwards k (emitted (app_rx cfg msg e s)) = 0%nat.
Proof.
  intros Hk.
  destruct msg as [| | | | |  |meta d]; try done.
  destruct d as [| | | |elts| |]; try done.
  unfold app_rx, _app_rx, send_pkt_radio, dict_contains. munfold.
  destruct (sinkTable s !! SINK_ADDR cfg) as [sv|]; cbn; [|done].
  destruct (debug_stderr cfg); cbn; (split; [done|]);
    rewrite bool_decide_eq_false_2; try done;
    intros <-; by apply Hk.
Qed.

(** One delivery: the forwards of [k] are paid from its pending bytes, and
    bytes become pending only when the entry is created. *)
Lemma step_pending cfg k s x :
  k.1.1 ≠ addr cfg →
  keys_match (dataPacketTable s) →
  keys_match (dataPacketTable (step cfg s x).1) ∧
  (forwards k (step cfg s x).2 + pending k (dataPacketTable (step cfg s x).1)
   ≤ pending k (dataPacketTable s)
     + (if negb (dict_contains (dataPacketTable s) k)
           && dict_contains (dataPacketTable (step cfg s x).1) k
        then 1 else 0))%nat.
Proof.
  intros Hk Hm. destruct x as [e [msg|msg|msg]]; unfold step in *;
    cbn [handle fst snd] in *.
  - destruct (radio_rx_budget cfg k msg e s Hm) as [Hm1 Hb].
    split; [done|]. revert Hb. unfold post, emitted.
    generalize (radio_rx cfg msg e s).1.1, (radio_rx cfg msg e s).1.2.
    intros s1 o1. unfold pending, budget, dict_contains.
    destruct (dataPacketTable s !! k) as [v|],
      (dataPacketTable s1 !! k) as [v1|]; cbn;
      repeat match goal with |- context [dp_data ?v] => destruct (dp_data v) end;
      lia.
  - destruct (app_rx_budget cfg k msg e s Hk) as [Ht Hf].
    fold (post (app_rx cfg msg e s)). fold (emitted (app_rx cfg msg e s)).
    rewrite Ht, Hf. split; [done|lia].
  - destruct (ctrl_rx_pending cfg k msg e s Hm) as (Hm1 & Hb & _).
    split; [done|]. unfold post, emitted in Hb. lia.
Qed.

Lemma run_pending cfg k tr :
  k.1.1 ≠ addr cfg →
  ∀ s, keys_match (dataPacketTable s) →
       (forwards k (run cfg s tr).2
        ≤ pending k (dataPacketTable s) + creations cfg k s tr)%nat.
Proof.
  intros Hk. induction tr as [|x tr IH]; intros s Hm; [cbn; lia|].
  destruct (step_pending cfg k s x Hk Hm) as [Hm1 Hb1].
  specialize (IH _ Hm1). cbn [run snd creations]. rewrite forwards_app. lia.
Qed.

(** C3, as stated, fails: the entry of a forwarded packet is purged [Plt]
    seconds after it was heard; a later copy of the same packet creates the
    entry again and is forwarded a second time. *)
Lemma forwarded_again_after_aging :
  ¬ (∀ cfg tr k, (forwards k (run cfg (init cfg) tr).2 ≤ 1)%nat).
Proof.
  intros H. specialize (H (node_B true) heard_again_after_aging (2, 0, 7)).
  vm_compute in H. lia.
Qed.

(** C3, amended.  For a key [(src, dest, seq)] whose source is another node,
    the node emits a DATA packet with that key on [to_radio] at most once
    for each creation of the entry of the key: along any sequence of ticks,
    receipts (duplicates and NOTIs included) and application messages, the
    forwards of the key are at most as many as the deliveries that found no
    entry for the key and left one. *)
Theorem forwarded_at_most_once_per_entry cfg k tr :
  k.1.1 ≠ addr cfg →
  (forwards k (run cfg (init cfg) tr).2 ≤ creations cfg k (init cfg) tr)%nat.
Proof.
  intros Hk.
  etrans; [apply (run_pending cfg k tr Hk (init cfg))|].
  - intros k' v pdu Hk'. cbn in Hk'. by rewrite lookup_empty in Hk'.
  - unfold pending. cbn. by rewrite lookup_empty.
Qed.

(** The run [heard_again_after_aging] creates the entry of [(2, 0, 7)] twice
    and forwards the packet twice. *)
Lemma forwarded_at_most_once_per_entry_witness :
  (2, 0, 7).1.1 ≠ addr (node_B true) ∧
  creations (node_B true) (2, 0, 7) (init (node_B true))
    heard_again_after_aging = 2%nat ∧
  forwards (2, 0, 7)
    (run (node_B true) (init (node_B true)) heard_again_after_aging).2
  = 2%nat ∧
  (forwards (2, 0, 7)%Z
     (run (node_B true) (init (node_B true)) heard_again_after_aging).2
   ≤ creations (node_B true) (2, 0, 7)%Z (init (node_B true))
       heard_again_after_aging)%nat.
Proof.
  split; [cbn; lia|]. split; [reflexivity|]. split; [reflexivity|].
  apply (forwarded_at_most_once_per_entry (node_B true) (2, 0, 7)
           heard_again_after_aging); cbn; lia.
Defined.

(** * Further properties *)

(** ** Aging: what the three loops leave *)

Lemma NoDup_dict_keys {K V} `{Countable K} (d : gmap K V) :
  NoDup (dict_keys d).
Proof. apply NoDup_fst_map_to_list. Qed.

Lemma age_sink_neighbor_loop cfg e tn ks :
  NoDup ks →
  ∀ s, (∀ k, k ∈ ks → is_Some (sinkNeighborTable s !! k)) →
  ∃ T',
    for_each ks (age_sink_neighbor_entry cfg tn) e s
    = (set_sinkNeighborTable (λ _, T') s, [], Ok tt) ∧
    ∀ k, T' !! k =
         if bool_decide (k ∈ ks)
         then match sinkNeighborTable s !! k with
              | Some v =>
                  if expired tn (Slt cfg) (nb_last_time_heard v)
                  then None else Some v
              | None => None
              end
         else sinkNeighborTable s !! k.
Proof.
  induction 1 as [|k ks Hk Hnd IH]; intros s Hin.
  - exists (sinkNeighborTable s). split; [by destruct s|]. intros k.
    by rewrite bool_decide_eq_false_2 by apply not_elem_of_nil.
  - destruct (Hin k) as [v Hv]; [left|].
    cbn [for_each]. rewrite bind_run.
    unfold age_sink_neighbor_entry at 1. munfold. rewrite Hv. cbn.
    fold (expired tn (Slt cfg) (nb_last_time_heard v)).
    destruct (expired tn (Slt cfg) (nb_last_time_heard v)) eqn:Hexp; cbn.
    + destruct (IH (set_sinkNeighborTable (delete k) s)) as (T' & -> & HT').
      { intros k' Hk'. cbn. rewrite lookup_delete_ne by (intros ->; done).
        apply Hin. by right. }
      exists T'. split; [done|]. intros k0. rewrite HT'. cbn.
      destruct (decide (k0 = k)) as [->|Hne].
      * rewrite (bool_decide_eq_false_2 _ Hk), lookup_delete_eq.
        rewrite bool_decide_eq_true_2 by left. by rewrite Hv, Hexp.
      * rewrite lookup_delete_ne by done.
        destruct (decide (k0 ∈ ks)).
        -- rewrite !bool_decide_eq_true_2; [done|by right|done].
        -- rewrite !bool_decide_eq_false_2; [done| |done].
           by intros [?|?]%elem_of_cons.
    + destruct (IH s) as (T' & -> & HT').
      { intros k' Hk'. apply Hin. by right. }
      exists T'. split; [done|]. intros k0. rewrite HT'.
      destruct (decide (k0 = k)) as [->|Hne].
      * rewrite (bool_decide_eq_false_2 _ Hk).
        rewrite bool_decide_eq_true_2 by left. by rewrite Hv, Hexp.
      * destruct (decide (k0 ∈ ks)).
        -- rewrite !bool_decide_eq_true_2; [done|by right|done].
        -- rewrite !bool_decide_eq_false_2; [done| |done].
           by intros [?|?]%elem_of_cons.
Qed.

Lemma age_sink_loop cfg e tn ks :
  NoDup ks →
  ∀ s, (∀ k, k ∈ ks → is_Some (sinkTable s !! k)) →
  ∃ T',
    for_each ks (age_sink_entry cfg tn) e s
    = (set_sinkTable (λ _, T') s, [], Ok tt) ∧
    ∀ k, T' !! k =
         if bool_decide (k ∈ ks)
         then match sinkTable s !! k with
              | Some v =>
                  if expired tn (Slt cfg) (last_time_heard v)
                  then None else Some v
              | None => None
              end
         else sinkTable s !! k.
Proof.
  induction 1 as [|k ks Hk Hnd IH]; intros s Hin.
  - exists (sinkTable s). split; [by destruct s|]. intros k.
    by rewrite bool_decide_eq_false_2 by apply not_elem_of_nil.
  - destruct (Hin k) as [v Hv]; [left|].
    cbn [for_each]. rewrite bind_run.
    unfold age_sink_entry at 1. munfold. rewrite Hv. cbn.
    fold (expired tn (Slt cfg) (last_time_heard v)).
    destruct (expired tn (Slt cfg) (last_time_heard v)) eqn:Hexp; cbn.
    + destruct (IH (set_sinkTable (delete k) s)) as (T' & -> & HT').
      { intros k' Hk'. cbn. rewrite lookup_delete_ne by (intros ->; done).
        apply Hin. by right. }
      exists T'. split; [done|]. intros k0. rewrite HT'. cbn.
      destruct (decide (k0 = k)) as [->|Hne].
      * rewrite (bool_decide_eq_false_2 _ Hk), lookup_delete_eq.
        rewrite bool_decide_eq_true_2 by left. by rewrite Hv, Hexp.
      * rewrite lookup_delete_ne by done.
        destruct (decide (k0 ∈ ks)).
        -- rewrite !bool_decide_eq_true_2; [done|by right|done].
        -- rewrite !bool_decide_eq_false_2; [done| |done].
           by intros [?|?]%elem_of_cons.
    + destruct (IH s) as (T' & -> & HT').
      { intros k' Hk'. apply Hin. by right. }
      exists T'. split; [done|]. intros k0. rewrite HT'.
      destruct (decide (k0 = k)) as [->|Hne].
      * rewrite (bool_decide_eq_false_2 _ Hk).
        rewrite bool_decide_eq_true_2 by left. by rewrite Hv, Hexp.
      * destruct (decide (k0 ∈ ks)).
        -- rewrite !bool_decide_eq_true_2; [done|by right|done].
        -- rewrite !bool_decide_eq_false_2; [done| |done].
           by intros [?|?]%elem_of_cons.
Qed.

Lemma age_data_loop cfg e tn ks :
  NoDup ks →
  ∀ s, (∀ k, k ∈ ks → is_Some (dataPacketTable s !! k)) →
  ∃ T',
    for_each ks (age_data_entry cfg tn) e s
    = (set_dataPacketTable (λ _, T') s, [], Ok tt) ∧
    ∀ k, T' !! k =
         if bool_decide (k ∈ ks)
         then match dataPacketTable s !! k with
              | Some v =>
                  if expired tn (Plt cfg) (dp_last_time_heard v)
                  then None else Some v
              | None => None
              end
         else dataPacketTable s !! k.
Proof.
  induction 1 as [|k ks Hk Hnd IH]; intros s Hin.
  - exists (dataPacketTable s). split; [by destruct s|]. intros k.
    by rewrite bool_decide_eq_false_2 by apply not_elem_of_nil.
  - destruct (Hin k) as [v Hv]; [left|].
    cbn [for_each]. rewrite bind_run.
    unfold age_data_entry at 1. munfold. rewrite Hv. cbn.
    fold (expired tn (Plt cfg) (dp_last_time_heard v)).
    destruct (expired tn (Plt cfg) (dp_last_time_heard v)) eqn:Hexp; cbn.
    + destruct (IH (set_dataPacketTable (delete k) s)) as (T' & -> & HT').
      { intros k' Hk'. cbn. rewrite lookup_delete_ne by (intros ->; done).
        apply Hin. by right. }
      exists T'. split; [done|]. intros k0. rewrite HT'. cbn.
      destruct (decide (k0 = k)) as [->|Hne].
      * rewrite (bool_decide_eq_false_2 _ Hk), lookup_delete_eq.
        rewrite bool_decide_eq_true_2 by left. by rewrite Hv, Hexp.
      * rewrite lookup_delete_ne by done.
        destruct (decide (k0 ∈ ks)).
        -- rewrite !bool_decide_eq_true_2; [done|by right|done].
        -- rewrite !bool_decide_eq_false_2; [done| |done].
           by intros [?|?]%elem_of_cons.
    + destruct (IH s) as (T' & -> & HT').
      { intros k' Hk'. apply Hin. by right. }
      exists T'. split; [done|]. intros k0. rewrite HT'.
      destruct (decide (k0 = k)) as [->|Hne].
      * rewrite (bool_decide_eq_false_2 _ Hk).
        rewrite bool_decide_eq_true_2 by left. by rewrite Hv, Hexp.
      * destruct (decide (k0 ∈ ks)).
        -- rewrite !bool_decide_eq_true_2; [done|by right|done].
        -- rewrite !bool_decide_eq_false_2; [done| |done].
           by intros [?|?]%elem_of_cons.
Qed.

Lemma check_sink_neighbor_table_run cfg e s :
  ∃ T',
    check_sink_neighbor_table cfg e s = (set_sinkNeighborTable (λ _, T') s, [], Ok tt) ∧
    ∀ k, T' !! k =
         match sinkNeighborTable s !! k with
         | Some v =>
             if expired (now e) (Slt cfg) (nb_last_time_heard v) then None else Some v
         | None => None
         end.
Proof.
  unfold check_sink_neighbor_table.
  rewrite (bind_ok _ _ _ _ s (now e)) by reflexivity.
  rewrite (bind_ok _ _ _ _ s s) by reflexivity. cbv zeta.
  destruct (age_sink_neighbor_loop cfg e (now e) (dict_keys (sinkNeighborTable s))
              (NoDup_dict_keys _) s) as (T' & -> & HT').
  { intros k. apply elem_of_dict_keys. }
  exists T'. split; [done|]. intros k. rewrite HT'.
  destruct (sinkNeighborTable s !! k) as [v|] eqn:Hk.
  - rewrite bool_decide_eq_true_2; [done|].
    apply elem_of_dict_keys. by eexists.
  - by destruct (bool_decide _).
Qed.

Lemma check_sink_table_run cfg e s :
  ∃ T',
    check_sink_table cfg e s = (set_sinkTable (λ _, T') s, [], Ok tt) ∧
    ∀ k, T' !! k =
         match sinkTable s !! k with
         | Some v =>
             if expired (now e) (Slt cfg) (last_time_heard v) then None else Some v
         | None => None
         end.
Proof.
  unfold check_sink_table.
  rewrite (bind_ok _ _ _ _ s (now e)) by reflexivity.
  rewrite (bind_ok _ _ _ _ s s) by reflexivity. cbv zeta.
  destruct (age_sink_loop cfg e (now e) (dict_keys (sinkTable s))
              (NoDup_dict_keys _) s) as (T' & -> & HT').
  { intros k. apply elem_of_dict_keys. }
  exists T'. split; [done|]. intros k. rewrite HT'.
  destruct (sinkTable s !! k) as [v|] eqn:Hk.
  - rewrite bool_decide_eq_true_2; [done|].
    apply elem_of_dict_keys. by eexists.
  - by destruct (bool_decide _).
Qed.

Lemma check_data_packet_table_run cfg e s :
  ∃ T',
    check_data_packet_table cfg e s = (set_dataPacketTable (λ _, T') s, [], Ok tt) ∧
    ∀ k, T' !! k =
         match dataPacketTable s !! k with
         | Some v =>
             if expired (now e) (Plt cfg) (dp_last_time_heard v) then None else Some v
         | None => None
         end.
Proof.
  unfold check_data_packet_table.
  rewrite (bind_ok _ _ _ _ s (now e)) by reflexivity.
  rewrite (bind_ok _ _ _ _ s s) by reflexivity. cbv zeta.
  destruct (age_data_loop cfg e (now e) (dict_keys (dataPacketTable s))
              (NoDup_dict_keys _) s) as (T' & -> & HT').
  { intros k. apply elem_of_dict_keys. }
  exists T'. split; [done|]. intros k. rewrite HT'.
  destruct (dataPacketTable s !! k) as [v|] eqn:Hk.
  - rewrite bool_decide_eq_true_2; [done|].
    apply elem_of_dict_keys. by eexists.
  - by destruct (bool_decide _).
Qed.

(** X1.  [check_sink_neighbor_table] returns normally, emits nothing, removes
    exactly the entries with [now - last_time_heard > Slt], keeps the others
    as they are and touches nothing else. *)
Theorem check_sink_neighbor_table_purges_expired cfg e s :
  let r := check_sink_neighbor_table cfg e s in
  outcome r = Ok tt ∧ emitted r = [] ∧
  (∀ k, sinkNeighborTable (post r) !! k =
        match sinkNeighborTable s !! k with
        | Some v =>
            if expired (now e) (Slt cfg) (nb_last_time_heard v) then None else Some v
        | None => None
        end) ∧
  sinkTable (post r) = sinkTable s ∧
  dataPacketTable (post r) = dataPacketTable s ∧
  broadcast_interval (post r) = broadcast_interval s ∧
  sequence_number (post r) = sequence_number s ∧
  sink_pkt_xmit_time (post r) = sink_pkt_xmit_time s ∧
  pkt_cnt (post r) = pkt_cnt s.
Proof.
  cbv zeta. destruct (check_sink_neighbor_table_run cfg e s) as (T' & -> & HT').
  unfold outcome, emitted, post. cbn. by repeat split.
Qed.

(** X2.  [check_sink_table] returns normally, emits nothing, removes exactly
    the entries with [now - last_time_heard > Slt], keeps the others as they
    are and touches nothing else. *)
Theorem check_sink_table_purges_expired cfg e s :
  let r := check_sink_table cfg e s in
  outcome r = Ok tt ∧ emitted r = [] ∧
  (∀ k, sinkTable (post r) !! k =
        match sinkTable s !! k with
        | Some v =>
            if expired (now e) (Slt cfg) (last_time_heard v) then None else Some v
        | None => None
        end) ∧
  sinkNeighborTable (post r) = sinkNeighborTable s ∧
  dataPacketTable (post r) = dataPacketTable s ∧
  broadcast_interval (post r) = broadcast_interval s ∧
  sequence_number (post r) = sequence_number s ∧
  sink_pkt_xmit_time (post r) = sink_pkt_xmit_time s ∧
  pkt_cnt (post r) = pkt_cnt s.
Proof.
  cbv zeta. destruct (check_sink_table_run cfg e s) as (T' & -> & HT').
  unfold outcome, emitted, post. cbn. by repeat split.
Qed.

(** X3.  [check_data_packet_table] returns normally, emits nothing, removes
    exactly the entries with [now - last_time_heard > Plt], keeps the others
    as they are and touches nothing else. *)
Theorem check_data_packet_table_purges_expired cfg e s :
  let r := check_data_packet_table cfg e s in
  outcome r = Ok tt ∧ emitted r = [] ∧
  (∀ k, dataPacketTable (post r) !! k =
        match dataPacketTable s !! k with
        | Some v =>
            if expired (now e) (Plt cfg) (dp_last_time_heard v) then None else Some v
        | None => None
        end) ∧
  sinkNeighborTable (post r) = sinkNeighborTable s ∧
  sinkTable (post r) = sinkTable s ∧
  broadcast_interval (post r) = broadcast_interval s ∧
  sequence_number (post r) = sequence_number s ∧
  sink_pkt_xmit_time (post r) = sink_pkt_xmit_time s ∧
  pkt_cnt (post r) = pkt_cnt s.
Proof.
  cbv zeta. destruct (check_data_packet_table_run cfg e s) as (T' & -> & HT').
  unfold outcome, emitted, post. cbn. by repeat split.
Qed.

(** ** The tick as a whole *)

Lemma send_sink_packets_run cfg e s :
  ∃ s1 o1,
    send_sink_packets cfg e s = (s1, o1, Ok tt) ∧
    dataPacketTable s1 = dataPacketTable s ∧
    sinkTable s1 = sinkTable s ∧
    sinkNeighborTable s1 = sinkNeighborTable s ∧
    pkt_cnt s1 = pkt_cnt s ∧
    broadcast_interval s1 = broadcast_interval s.
Proof.
  unfold send_sink_packets. destruct (addr cfg =? SINK_ADDR cfg).
  - unfold send_sink_pkt. munfold. cbn.
    destruct (Qgtb (broadcast_interval s) 0 && _); cbn; by eexists _, _.
  - rewrite (bind_ok _ _ _ _ s s) by reflexivity.
    assert (Hgen : ∀ ks s0,
              (∀ k, k ∈ ks → is_Some (sinkTable s0 !! k)) →
              ∃ s1 o1,
                for_each ks (forward_sink_entry cfg) e s0 = (s1, o1, Ok tt) ∧
                dataPacketTable s1 = dataPacketTable s0 ∧
                sinkTable s1 = sinkTable s0 ∧
                sinkNeighborTable s1 = sinkNeighborTable s0 ∧
                pkt_cnt s1 = pkt_cnt s0 ∧
                broadcast_interval s1 = broadcast_interval s0).
    { induction ks as [|k ks IH]; intros s0 Hks; [by eexists _, _|].
      destruct (Hks k) as [v Hv]; [left|].
      cbn [for_each]. rewrite bind_run, (forward_sink_entry_run _ _ _ _ _ Hv).
      destruct (scheduled v && _).
      - destruct (IH (set_sink_pkt_xmit_time (Some (now e)) s0))
          as (s1 & o1 & -> & ?); [intros k' Hk'; apply Hks; by right|].
        by eexists _, _.
      - destruct (IH s0) as (s1 & o1 & -> & ?);
          [intros k' Hk'; apply Hks; by right|].
        by eexists _, _. }
    apply Hgen. intros k. apply elem_of_dict_keys.
Qed.

Lemma aging_run cfg e s :
  ∃ s',
    (check_sink_neighbor_table cfg;; check_sink_table cfg;;
     check_data_packet_table cfg) e s = (s', [], Ok tt) ∧
    (∀ k, sinkNeighborTable s' !! k =
          match sinkNeighborTable s !! k with
          | Some v =>
              if expired (now e) (Slt cfg) (nb_last_time_heard v)
              then None else Some v
          | None => None
          end) ∧
    (∀ k, sinkTable s' !! k =
          match sinkTable s !! k with
          | Some v =>
              if expired (now e) (Slt cfg) (last_time_heard v)
              then None else Some v
          | None => None
          end) ∧
    (∀ k, dataPacketTable s' !! k =
          match dataPacketTable s !! k with
          | Some v =>
              if expired (now e) (Plt cfg) (dp_last_time_heard v)
              then None else Some v
          | None => None
          end) ∧
    broadcast_interval s' = broadcast_interval s ∧
    sequence_number s' = sequence_number s ∧
    sink_pkt_xmit_time s' = sink_pkt_xmit_time s ∧
    pkt_cnt s' = pkt_cnt s.
Proof.
  destruct (check_sink_neighbor_table_run cfg e s) as (T1 & H1 & HT1).
  rewrite (bind_ok _ _ _ _ _ _ H1).
  destruct (check_sink_table_run cfg e (set_sinkNeighborTable (λ _, T1) s))
    as (T2 & H2 & HT2).
  rewrite (bind_ok _ _ _ _ _ _ H2).
  destruct (check_data_packet_table_run cfg e
              (set_sinkTable (λ _, T2) (set_sinkNeighborTable (λ _, T1) s)))
    as (T3 & H3 & HT3).
  rewrite H3. eexists. split; [reflexivity|]. cbn. by repeat split.
Qed.

(** The tick as the composition of its three parts. *)
Lemma ctrl_rx_run cfg msg e s :
  ∃ s1 o1,
    send_sink_packets cfg e s = (s1, o1, Ok tt) ∧
    ctrl_rx cfg msg e s =
    match send_data_packets cfg e s1 with
    | (s2, o2, Ok _) =>
        match (check_sink_neighbor_table cfg;; check_sink_table cfg;;
               check_data_packet_table cfg) e s2 with
        | (s3, o3, r3) => (s3, o1 ++ o2 ++ o3, r3)
        end
    | (s2, o2, Raise x) => (s2, o1 ++ o2, Raise x)
    end.
Proof.
  destruct (send_sink_packets_run cfg e s) as (s1 & o1 & H1 & _).
  exists s1, o1. split; [done|]. unfold ctrl_rx.
  rewrite bind_run, H1, bind_run.
  destruct (send_data_packets cfg e s1) as [[s2 o2] [[]|x]]; [|done].
  match goal with
  | |- context [match ?m e s2 with _ => _ end] =>
      by destruct (m e s2) as [[s3 o3] r3]
  end.
Qed.

Lemma expired_false tn life lh :
  expired tn life lh = false ↔ (tn - lh <= life)%Q.
Proof.
  unfold expired, Qgtb. rewrite negb_false_iff. apply Qle_bool_iff.
Qed.

(** X4.  After a tick that returns normally, every entry left in the
    sink-neighbor and sink tables was heard within [Slt], and every entry
    left in the data-packet table within [Plt]. *)
Theorem tick_leaves_only_fresh_entries cfg msg e s :
  outcome (ctrl_rx cfg msg e s) = Ok tt →
  let s' := post (ctrl_rx cfg msg e s) in
  (∀ k v, sinkNeighborTable s' !! k = Some v →
          (now e - nb_last_time_heard v <= Slt cfg)%Q) ∧
  (∀ k v, sinkTable s' !! k = Some v →
          (now e - last_time_heard v <= Slt cfg)%Q) ∧
  (∀ k v, dataPacketTable s' !! k = Some v →
          (now e - dp_last_time_heard v <= Plt cfg)%Q).
Proof.
  destruct (ctrl_rx_run cfg msg e s) as (s1 & o1 & _ & ->).
  destruct (send_data_packets cfg e s1) as [[s2 o2] [[]|x]]; [|done].
  destruct (aging_run cfg e s2) as (s3 & -> & Hn & Hs & Hd & _).
  intros _. unfold post. cbn [fst snd].
  split; [|split]; intros k v Hk.
  - rewrite Hn in Hk. destruct (sinkNeighborTable s2 !! k) as [v0|]; [|done].
    destruct (expired _ _ _) eqn:He; [done|].
    injection Hk as <-. by apply expired_false.
  - rewrite Hs in Hk. destruct (sinkTable s2 !! k) as [v0|]; [|done].
    destruct (expired _ _ _) eqn:He; [done|].
    injection Hk as <-. by apply expired_false.
  - rewrite Hd in Hk. destruct (dataPacketTable s2 !! k) as [v0|]; [|done].
    destruct (expired _ _ _) eqn:He; [done|].
    injection Hk as <-. by apply expired_false.
Qed.

Lemma tick_leaves_only_fresh_entries_witness :
  outcome (ctrl_rx (node_B true) pmt_nil (at_time 110) B_pending) = Ok tt ∧
  let s' := post (ctrl_rx (node_B true) pmt_nil (at_time 110) B_pending) in
  (∀ k v, sinkNeighborTable s' !! k = Some v →
          (110 - nb_last_time_heard v <= 50)%Q) ∧
  (∀ k v, sinkTable s' !! k = Some v → (110 - last_time_heard v <= 50)%Q) ∧
  (∀ k v, dataPacketTable s' !! k = Some v →
          (110 - dp_last_time_heard v <= 120)%Q).
Proof.
  split; [reflexivity|].
  apply (tick_leaves_only_fresh_entries (node_B true) pmt_nil (at_time 110)
           B_pending).
  reflexivity.
Defined.

(** ** The tick: forwarding of due data packets *)

Lemma forward_data_entry_due cfg k e s :
  forward_data_entry cfg k e s =
  match dataPacketTable s !! k with
  | None => (s, [], Raise KeyError)
  | Some v =>
      if due cfg (now e) v
      then
        match dp_data v with
        | Some pdu =>
            (set_dataPacketTable (insert k (cancelled v)) s,
             [to_radio pdu], Ok tt)
        | None => (s, [], Raise TypeError)
        end
      else (s, [], Ok tt)
  end.
Proof. apply forward_data_entry_run. Qed.

(** The loop over the data-packet table when every due entry has bytes. *)
Lemma data_loop_run cfg e ks :
  NoDup ks →
  ∀ s,
    (∀ k, k ∈ ks → is_Some (dataPacketTable s !! k)) →
    (∀ k v, k ∈ ks → dataPacketTable s !! k = Some v →
            due cfg (now e) v = true → is_Some (dp_data v)) →
    ∃ T' o,
      for_each ks (forward_data_entry cfg) e s
      = (set_dataPacketTable (λ _, T') s, o, Ok tt) ∧
      (∀ k, T' !! k =
            if bool_decide (k ∈ ks)
            then match dataPacketTable s !! k with
                 | Some v =>
                     Some (if due cfg (now e) v then cancelled v else v)
                 | None => None
                 end
            else dataPacketTable s !! k) ∧
      (∀ x, x ∈ o ↔
            ∃ k v pdu, k ∈ ks ∧ dataPacketTable s !! k = Some v ∧
                       due cfg (now e) v = true ∧ dp_data v = Some pdu ∧
                       x = to_radio pdu).
Proof.
  induction 1 as [|k ks Hk Hnd IH]; intros s Hin Hgood.
  - exists (dataPacketTable s), []. split; [by destruct s|]. split.
    + intros k. by rewrite bool_decide_eq_false_2 by apply not_elem_of_nil.
    + intros x. split; [by intros ?%not_elem_of_nil|].
      by intros (k & v & pdu & ?%not_elem_of_nil & _).
  - destruct (Hin k) as [v Hv]; [left|].
    cbn [for_each]. rewrite bind_run, forward_data_entry_due, Hv.
    destruct (due cfg (now e) v) eqn:Hdue.
    + destruct (Hgood k v) as [pdu Hpdu]; [left|done|done|]. rewrite Hpdu.
      destruct (IH (set_dataPacketTable (insert k (cancelled v)) s))
        as (T' & o & -> & HT' & Ho).
      { intros k' Hk'. cbn. rewrite lookup_insert_ne by (intros ->; done).
        apply Hin. by right. }
      { intros k' v' Hk'. cbn. rewrite lookup_insert_ne by (intros ->; done).
        apply Hgood. by right. }
      exists T', (to_radio pdu :: o). split; [done|]. split.
      * intros k0. rewrite HT'. cbn.
        destruct (decide (k0 = k)) as [->|Hne].
        -- rewrite (bool_decide_eq_false_2 _ Hk), lookup_insert_eq.
           rewrite bool_decide_eq_true_2 by left. by rewrite Hv, Hdue.
        -- rewrite lookup_insert_ne by done.
           destruct (decide (k0 ∈ ks)).
           ++ rewrite !bool_decide_eq_true_2; [done|by right|done].
           ++ rewrite !bool_decide_eq_false_2; [done| |done].
              by intros [?|?]%elem_of_cons.
      * intros x. rewrite elem_of_cons, Ho. cbn. split.
        -- intros [->|(k' & v' & pdu' & Hk' & Hv' & Hd' & Hp' & ->)].
           ++ exists k, v, pdu. repeat split; [left|done..].
           ++ exists k', v', pdu'.
              rewrite lookup_insert_ne in Hv' by (intros ->; done).
              repeat split; [by right|done..].
        -- intros (k' & v' & pdu' & Hk' & Hv' & Hd' & Hp' & ->).
           apply elem_of_cons in Hk' as [->|Hk'].
           ++ left. congruence.
           ++ right. exists k', v', pdu'.
              rewrite lookup_insert_ne by (intros ->; done). done.
    + destruct (IH s) as (T' & o & -> & HT' & Ho).
      { intros k' Hk'. apply Hin. by right. }
      { intros k' v' Hk'. apply Hgood. by right. }
      exists T', o. split; [done|]. split.
      * intros k0. rewrite HT'.
        destruct (decide (k0 = k)) as [->|Hne].
        -- rewrite (bool_decide_eq_false_2 _ Hk).
           rewrite bool_decide_eq_true_2 by left. by rewrite Hv, Hdue.
        -- destruct (decide (k0 ∈ ks)).
           ++ rewrite !bool_decide_eq_true_2; [done|by right|done].
           ++ rewrite !bool_decide_eq_false_2; [done| |done].
              by intros [?|?]%elem_of_cons.
      * intros x. rewrite Ho. split.
        -- intros (k' & v' & pdu' & Hk' & ?). exists k', v', pdu'.
           split; [by right|done].
        -- intros (k' & v' & pdu' & Hk' & Hv' & Hd' & ?).
           apply elem_of_cons in Hk' as [->|Hk'].
           ++ congruence.
           ++ by exists k', v', pdu'.
Qed.

(** Whatever the loop over the data-packet table emits, and whether it
    returns or raises, each emission is the stored bytes of a due entry. *)
Lemma data_loop_emits cfg e ks :
  ∀ s, Forall (forwards_due_entry cfg e s)
         (emitted (for_each ks (forward_data_entry cfg) e s)).
Proof.
  induction ks as [|k ks IH]; intros s; [constructor|].
  cbn [for_each]. rewrite emitted_bind, forward_data_entry_due.
  destruct (dataPacketTable s !! k) as [v|] eqn:Hv; [|constructor].
  destruct (due cfg (now e) v) eqn:Hdue.
  - destruct (dp_data v) as [pdu|] eqn:Hp; [|constructor].
    cbn [emitted outcome post fst snd app]. constructor.
    + by exists k, v, pdu.
    + eapply Forall_impl; [apply IH|].
      intros x (k' & v' & pdu' & Hk' & Hd' & Hp' & ->). cbn in Hk'.
      rewrite lookup_insert in Hk'. case_decide.
      * injection Hk' as <-. unfold due in Hd'. cbn in Hd'. discriminate.
      * by exists k', v', pdu'.
  - cbn [emitted outcome post fst snd app]. apply IH.
Qed.

Lemma send_data_packets_emits cfg e s :
  Forall (forwards_due_entry cfg e s) (emitted (send_data_packets cfg e s)).
Proof.
  unfold send_data_packets, emitted.
  rewrite (bind_ok _ _ _ _ s s) by reflexivity. apply data_loop_emits.
Qed.

(** The sink packets of the first part of the tick are vectors of bytes when
    those it is to publish are. *)
Lemma send_sink_packets_bytes cfg e s :
  sink_part_publishes_bytes cfg e s →
  ∀ pdu, to_radio pdu ∈ emitted (send_sink_packets cfg e s) →
         all_bytes pdu = true.
Proof.
  unfold sink_part_publishes_bytes, send_sink_packets.
  destruct (addr cfg =? SINK_ADDR cfg).
  - intros Hb. unfold beacon_due in Hb. unfold send_sink_pkt. munfold.
    destruct (Qgtb (broadcast_interval s) 0 && _); cbn [emitted fst snd].
    + intros pdu [[= ->]|?%not_elem_of_nil]%elem_of_cons; [by apply Hb|done].
    + by intros pdu ?%not_elem_of_nil.
  - intros Hb. unfold emitted. rewrite (bind_ok _ _ _ _ s s) by reflexivity.
    assert (Hgen : ∀ ks s0,
              sinkTable s0 = sinkTable s →
              ∀ pdu, to_radio pdu
                       ∈ emitted (for_each ks (forward_sink_entry cfg) e s0) →
                     all_bytes pdu = true).
    { induction ks as [|k ks IH]; intros s0 Hs0 pdu;
        [by intros ?%not_elem_of_nil|].
      cbn [for_each]. rewrite emitted_bind.
      destruct (sinkTable s0 !! k) as [v|] eqn:Hv.
      - rewrite (forward_sink_entry_run _ _ _ _ _ Hv).
        destruct (scheduled v && _) eqn:Hdue;
          cbn [outcome emitted post fst snd app].
        + intros [[= ->]|Hin]%elem_of_cons.
          * apply (Hb k v); [by rewrite <- Hs0|done].
          * by apply (IH (set_sink_pkt_xmit_time (Some (now e)) s0) Hs0).
        + by apply IH.
      - unfold forward_sink_entry. munfold. rewrite Hv. cbn.
        by intros ?%not_elem_of_nil. }
    by apply Hgen.
Qed.

(** X5.  When the sink packets the tick is to publish and the bytes of every
    due entry of the data-packet table are vectors of bytes, the tick
    returns normally, publishes vectors of bytes only and forwards the bytes
    of every due entry; such an entry is then left cancelled, or purged when
    it is also older than [Plt] (the forward comes before aging); the other
    entries are kept or purged by age alone. *)
Theorem tick_forwards_every_due_entry cfg msg e s :
  sink_part_publishes_bytes cfg e s →
  (∀ k v, dataPacketTable s !! k = Some v → due cfg (now e) v = true →
          ∃ pdu, dp_data v = Some pdu ∧ all_bytes pdu = true) →
  let r := ctrl_rx cfg msg e s in
  outcome r = Ok tt ∧
  (∀ pdu, to_radio pdu ∈ emitted r → all_bytes pdu = true) ∧
  (∀ k v pdu, dataPacketTable s !! k = Some v →
              due cfg (now e) v = true → dp_data v = Some pdu →
              to_radio pdu ∈ emitted r) ∧
  (∀ k, dataPacketTable (post r) !! k =
        match dataPacketTable s !! k with
        | Some v =>
            if expired (now e) (Plt cfg) (dp_last_time_heard v)
            then None
            else Some (if due cfg (now e) v then cancelled v else v)
        | None => None
        end).
Proof.
  intros Hsink Hgood. cbv zeta.
  pose proof (send_sink_packets_bytes cfg e s Hsink) as Hb1.
  destruct (ctrl_rx_run cfg msg e s) as (s1 & o1 & H1 & ->).
  destruct (send_sink_packets_run cfg e s) as (s1' & o1' & H1' & Ht & _).
  rewrite H1 in H1'. injection H1' as <- <-.
  rewrite H1 in Hb1. cbn [emitted fst snd] in Hb1.
  unfold send_data_packets. rewrite (bind_ok _ _ _ _ s1 s1) by reflexivity.
  destruct (data_loop_run cfg e (dict_keys (dataPacketTable s1))
              (NoDup_dict_keys _) s1) as (T' & o2 & -> & HT' & Ho).
  { intros k. apply elem_of_dict_keys. }
  { intros k v _. rewrite Ht. intros Hk Hdue.
    destruct (Hgood k v Hk Hdue) as (pdu & -> & _). by eexists. }
  destruct (aging_run cfg e (set_dataPacketTable (λ _, T') s1))
    as (s3 & -> & _ & _ & Hd & _).
  unfold outcome, emitted, post. cbn [fst snd]. split; [done|]. split; [|split].
  - intros pdu. rewrite !elem_of_app.
    intros [Hin|[Hin|?%not_elem_of_nil]]; [by apply Hb1| |done].
    apply Ho in Hin as (k & v & pdu' & _ & Hk & Hdue & Hp & [= ->]).
    rewrite Ht in Hk. destruct (Hgood k v Hk Hdue) as (pdu0 & Hp0 & Hbytes).
    congruence.
  - intros k v pdu Hk Hdue Hpdu. rewrite !elem_of_app. right. left.
    apply Ho. exists k, v, pdu. rewrite Ht. repeat split; try done.
    apply elem_of_dict_keys. by eexists.
  - intros k. rewrite Hd. cbn. rewrite HT', Ht.
    destruct (dataPacketTable s !! k) as [v|] eqn:Hk.
    + rewrite bool_decide_eq_true_2
        by (apply elem_of_dict_keys; by eexists).
      by destruct (due cfg (now e) v).
    + by destruct (bool_decide _).
Qed.

Lemma tick_forwards_every_due_entry_witness :
  let r := ctrl_rx (node_B true) pmt_nil (at_time 110) B_pending in
  outcome r = Ok tt ∧
  (∀ pdu, to_radio pdu ∈ emitted r → all_bytes pdu = true) ∧
  (∀ k v pdu, dataPacketTable B_pending !! k = Some v →
              due (node_B true) 110 v = true → dp_data v = Some pdu →
              to_radio pdu ∈ emitted r) ∧
  (∀ k, dataPacketTable (post r) !! k =
        match dataPacketTable B_pending !! k with
        | Some v =>
            if expired 110 120 (dp_last_time_heard v)
            then None
            else Some (if due (node_B true) 110 v then cancelled v else v)
        | None => None
        end).
Proof.
  apply (tick_forwards_every_due_entry (node_B true) pmt_nil (at_time 110)
           B_pending).
  - assert (Ht : sinkTable B_pending = {[0 := gradient_to_0]}) by reflexivity.
    intros k v Hk _. rewrite Ht in Hk.
    apply lookup_singleton_Some in Hk as [<- <-]. reflexivity.
  - assert (Ht : dataPacketTable B_pending = {[(2, 0, 7) := pending_2_0_7]})
      by reflexivity.
    intros k v Hk _. rewrite Ht in Hk.
    apply lookup_singleton_Some in Hk as [_ <-]. by eexists.
Defined.

(** The loop over the data-packet table when a due entry has no bytes. *)
Lemma data_loop_raises cfg e k v ks :
  k ∈ ks → due cfg (now e) v = true → dp_data v = None →
  ∀ s,
    (∀ k', k' ∈ ks → is_Some (dataPacketTable s !! k')) →
    dataPacketTable s !! k = Some v →
    let r := for_each ks (forward_data_entry cfg) e s in
    outcome r = Raise TypeError ∧
    sinkTable (post r) = sinkTable s ∧
    sinkNeighborTable (post r) = sinkNeighborTable s ∧
    (∀ k', is_Some (dataPacketTable (post r) !! k')
           ↔ is_Some (dataPacketTable s !! k')).
Proof.
  intros Hk Hdue Hnone. induction ks as [|k0 ks IH]; intros s Hin Hv.
  { by apply not_elem_of_nil in Hk. }
  destruct (Hin k0) as [v0 Hv0]; [left|].
  cbn [for_each]. cbv zeta.
  rewrite outcome_bind, post_bind, forward_data_entry_due, Hv0.
  destruct (due cfg (now e) v0) eqn:Hdue0.
  - destruct (dp_data v0) as [pdu|] eqn:Hp0; [|done].
    cbn [outcome post fst snd].
    destruct (decide (k0 = k)) as [->|Hne]; [congruence|].
    apply elem_of_cons in Hk as [->|Hk]; [done|].
    destruct (IH Hk (set_dataPacketTable (insert k0 (cancelled v0)) s))
      as (Ho & Hs & Hn & Hd).
    { intros k' Hk'. cbn. rewrite lookup_insert.
      case_decide; [by eexists|]. apply Hin. by right. }
    { cbn. by rewrite lookup_insert_ne. }
    split; [done|]. split; [done|]. split; [done|].
    intros k'. rewrite Hd. cbn. rewrite lookup_insert. case_decide; [|done].
    subst k'. rewrite Hv0. split; by eexists.
  - cbn [outcome post fst snd].
    apply elem_of_cons in Hk as [->|Hk]; [congruence|].
    apply (IH Hk s); [|done]. intros k' Hk'. apply Hin. by right.
Qed.

(** X6.  When some due entry of the data-packet table has no bytes (it was
    forwarded or cancelled and then scheduled again), the tick raises
    [TypeError] out of its data loop and the aging of the three tables is
    skipped: the sink and sink-neighbor tables are as before and no
    data-packet entry is removed. *)
Theorem tick_raises_on_due_entry_without_bytes cfg msg e s k v :
  dataPacketTable s !! k = Some v →
  due cfg (now e) v = true →
  dp_data v = None →
  let r := ctrl_rx cfg msg e s in
  outcome r = Raise TypeError ∧
  sinkTable (post r) = sinkTable s ∧
  sinkNeighborTable (post r) = sinkNeighborTable s ∧
  (∀ k', is_Some (dataPacketTable (post r) !! k')
         ↔ is_Some (dataPacketTable s !! k')).
Proof.
  intros Hv Hdue Hnone. cbv zeta.
  destruct (ctrl_rx_run cfg msg e s) as (s1 & o1 & H1 & ->).
  destruct (send_sink_packets_run cfg e s)
    as (s1' & o1' & H1' & Ht & Hts & Htn & _).
  rewrite H1 in H1'. injection H1' as <- <-.
  unfold send_data_packets. rewrite (bind_ok _ _ _ _ s1 s1) by reflexivity.
  destruct (data_loop_raises cfg e k v (dict_keys (dataPacketTable s1)))
    with (s := s1) as (Ho & Hs & Hn & Hd); try done.
  { apply elem_of_dict_keys. rewrite Ht. by eexists. }
  { intros k'. apply elem_of_dict_keys. }
  { by rewrite Ht. }
  destruct (for_each _ _ e s1) as [[s2 o2] r2].
  unfold outcome, post in *. cbn [fst snd] in *. subst r2. cbn [fst snd].
  rewrite Hs, Hn, Hts, Htn. repeat split; try done.
  - intros H. apply Hd in H. by rewrite Ht in H.
  - intros H. apply Hd. by rewrite Ht.
Qed.

Lemma tick_raises_on_due_entry_without_bytes_witness :
  dataPacketTable B_rescheduled !! (2, 0, 7) = Some rescheduled_2_0_7 ∧
  let r := ctrl_rx (node_B true) pmt_nil (at_time 120) B_rescheduled in
  outcome r = Raise TypeError ∧
  sinkTable (post r) = sinkTable B_rescheduled ∧
  sinkNeighborTable (post r) = sinkNeighborTable B_rescheduled ∧
  (∀ k', is_Some (dataPacketTable (post r) !! k')
         ↔ is_Some (dataPacketTable B_rescheduled !! k')).
Proof.
  split; [reflexivity|].
  apply (tick_raises_on_due_entry_without_bytes (node_B true) pmt_nil
           (at_time 120) B_rescheduled (2, 0, 7) rescheduled_2_0_7);
    reflexivity.
Defined.

(** ** The tick on a sink: origination of beacons *)

Lemma tick_tail_keeps_beacon_state cfg n x :
  preserves (λ s, sequence_number s = n ∧ sink_pkt_xmit_time s = x)
    (send_data_packets cfg;; check_sink_neighbor_table cfg;;
     check_sink_table cfg;; check_data_packet_table cfg).
Proof.
  unfold send_data_packets, forward_data_entry, check_sink_neighbor_table,
    check_sink_table, check_data_packet_table, age_sink_neighbor_entry,
    age_sink_entry, age_data_entry.
  handler_auto; frame_leaf.
Qed.

(** X7.  On a sink (its address is its sink address, and address and
    sequence number are bytes) the tick originates a beacon exactly when
    [broadcast_interval > 0] and either none was sent yet or
    [now - last >= broadcast_interval * 2 * random()]: the beacon
    [[SINK, self, self, seq, 0]] is then the first emission, the sequence
    number advances modulo 256 and the transmit time becomes [now];
    otherwise sequence number and transmit time are unchanged.  Either way,
    whatever else the tick emits is the stored bytes of a due entry of the
    data-packet table. *)
Theorem sink_tick_originates_beacon cfg msg e s :
  addr cfg = SINK_ADDR cfg →
  let beacon := [SINK_PROTO; addr cfg; addr cfg; sequence_number s; 0] in
  all_bytes beacon = true →
  let r := ctrl_rx cfg msg e s in
  ∃ rest,
    Forall (forwards_due_entry cfg e s) rest ∧
    if beacon_due s e
    then
      emitted r = to_radio beacon :: rest
      ∧ sequence_number (post r) = (sequence_number s + 1) mod 256
      ∧ sink_pkt_xmit_time (post r) = Some (now e)
    else
      emitted r = rest
      ∧ sequence_number (post r) = sequence_number s
      ∧ sink_pkt_xmit_time (post r) = sink_pkt_xmit_time s.
Proof.
  intros Hsink beacon _ r. subst beacon r. unfold ctrl_rx.
  rewrite emitted_bind, post_bind.
  assert (Hfirst :
    send_sink_packets cfg e s =
    if beacon_due s e
    then (set_sequence_number ((sequence_number s + 1) mod 256)
            (set_sink_pkt_xmit_time (Some (now e)) s),
          [to_radio [SINK_PROTO; addr cfg; addr cfg; sequence_number s; 0]],
          Ok tt)
    else (s, [], Ok tt)).
  { unfold send_sink_packets, beacon_due, send_sink_pkt.
    rewrite Hsink, Z.eqb_refl. munfold. cbn.
    by destruct (Qgtb (broadcast_interval s) 0 && _). }
  assert (Htail : ∀ s1,
    emitted ((send_data_packets cfg;; check_sink_neighbor_table cfg;;
              check_sink_table cfg;; check_data_packet_table cfg) e s1)
    = emitted (send_data_packets cfg e s1)).
  { intros s1. rewrite emitted_bind, aging_silent.
    destruct (outcome (send_data_packets cfg e s1)); [apply app_nil_r|done]. }
  rewrite Hfirst. destruct (beacon_due s e);
    cbn [outcome emitted post fst snd app]; rewrite Htail.
  - eexists. split; [|split; [reflexivity|]].
    + apply (send_data_packets_emits cfg e
               (set_sequence_number ((sequence_number s + 1) mod 256)
                  (set_sink_pkt_xmit_time (Some (now e)) s))).
    + by apply (tick_tail_keeps_beacon_state cfg _ _ e).
  - eexists. split; [apply send_data_packets_emits|].
    split; [reflexivity|].
    by apply (tick_tail_keeps_beacon_state cfg _ _ e).
Qed.

(** The first tick of block 0 of the flow graph. *)
Lemma sink_tick_originates_beacon_witness :
  let r := ctrl_rx dflood_dflood_0 pmt_nil (at_time 10)
             (init dflood_dflood_0) in
  ∃ rest,
    Forall (forwards_due_entry dflood_dflood_0 (at_time 10)
              (init dflood_dflood_0)) rest ∧
    emitted r = to_radio [1; 0; 0; 0; 0] :: rest ∧
    sequence_number (post r) = 1 ∧
    sink_pkt_xmit_time (post r) = Some 10%Q.
Proof.
  apply (sink_tick_originates_beacon dflood_dflood_0 pmt_nil (at_time 10)
           (init dflood_dflood_0)); reflexivity.
Defined.

(** ** DATA ingress: delivery, drop, scheduling and duplicates *)

Lemma radio_rx_data cfg e s meta sndr src sn hc dest ttl payload :
  crc_ok (meta_dict_of meta) = true →
  sndr ≠ addr cfg → src ≠ addr cfg →
  radio_rx cfg
    (pmt_cons meta
       (pmt_u8vector
          (DATA_PROTO :: sndr :: src :: sn :: hc :: dest :: ttl :: payload)))
    e s
  = handle_data_packet cfg
      (DATA_PROTO :: sndr :: src :: sn :: hc :: dest :: ttl :: payload)
      (meta_dict_of meta) e s.
Proof.
  intros Hcrc Hs%Z.eqb_neq Hr%Z.eqb_neq.
  unfold radio_rx, _radio_rx. rewrite Hcrc.
  generalize (handle_data_packet cfg). intros h.
  munfold. cbn. rewrite Hs, Hr. cbn.
  destruct (debug_stderr cfg); cbn; by destruct (h _ _ e s) as [[? ?] ?].
Qed.

(** X8.  A node with a gradient to its sink wraps an application payload as
    [[DATA, self, self, pkt_cnt, hops, sink, hops + R] ++ payload]; when
    this is a vector of bytes the node emits it and advances [pkt_cnt]
    modulo 256, and the sink, receiving these bytes, answers with the NOTI
    [[NOTI, sink, source, pkt_cnt]], itself a vector of bytes, and delivers
    exactly the payload on [to_app]. *)
Theorem app_payload_reaches_sink cfgA cfgD meta payload eA sA eD sD v :
  sinkTable sA !! SINK_ADDR cfgA = Some v →
  addr cfgD = SINK_ADDR cfgA →
  addr cfgA ≠ addr cfgD →
  let pkt := [DATA_PROTO; addr cfgA; addr cfgA; pkt_cnt sA; min_dx_to_sink v;
              SINK_ADDR cfgA; min_dx_to_sink v + R cfgA] ++ payload in
  let noti := [NOTI_PROTO; addr cfgD; addr cfgA; pkt_cnt sA] in
  all_bytes pkt = true →
  app_rx cfgA (pmt_cons meta (pmt_u8vector payload)) eA sA
  = (set_pkt_cnt ((pkt_cnt sA + 1) mod 256) sA, [to_radio pkt], Ok tt) ∧
  radio_rx cfgD (pdu pkt) eD sD
  = (sD, [to_radio noti; to_app ∅ payload], Ok tt) ∧
  all_bytes noti = true.
Proof.
  intros Hv HD Hne pkt noti Hbytes. split; [|split].
  - unfold app_rx, _app_rx, send_pkt_radio, dict_contains. munfold.
    rewrite Hv. cbn. by destruct (debug_stderr cfgA).
  - subst pkt noti. unfold pdu. cbn [app]. rewrite radio_rx_data by done.
    rewrite handle_data_packet_run, <- HD, Z.eqb_refl. reflexivity.
  - subst pkt noti. cbn [app all_bytes forallb] in *.
    repeat (apply andb_prop in Hbytes as [? Hbytes]).
    rewrite HD.
    repeat match goal with
           | H : is_byte ?x = true |- context [is_byte ?x] => rewrite H
           end.
    reflexivity.
Qed.

(** Block 1 of the flow graph sends the payload [[170, 187]] to block 0. *)
Lemma app_payload_reaches_sink_witness :
  app_rx dflood_dflood_1 (pdu [170; 187]) (at_time 105) block_1_has_gradient
  = (set_pkt_cnt 1 block_1_has_gradient,
     [to_radio [0; 1; 1; 0; 1; 0; 3; 170; 187]], Ok tt) ∧
  radio_rx dflood_dflood_0 (pdu [0; 1; 1; 0; 1; 0; 3; 170; 187]) (at_time 106)
    (init dflood_dflood_0)
  = (init dflood_dflood_0,
     [to_radio [2; 0; 1; 0]; to_app ∅ [170; 187]], Ok tt) ∧
  all_bytes [2; 0; 1; 0] = true.
Proof.
  apply (app_payload_reaches_sink dflood_dflood_1 dflood_dflood_0
           (pmt_dict ∅) [170; 187] (at_time 105) block_1_has_gradient
           (at_time 106) (init dflood_dflood_0) gradient_to_0);
    [reflexivity | reflexivity | cbn; lia | reflexivity].
Defined.

(** X9.  A transit DATA packet (its DestSink is another node) is dropped
    without any effect when the node has no sink-table entry for DestSink,
    or when [TTL - 1] is below the node's hop distance to it. *)
Theorem transit_data_without_route_is_dropped
    cfg e s meta sndr src sn hc dest ttl payload :
  crc_ok (meta_dict_of meta) = true →
  sndr ≠ addr cfg → src ≠ addr cfg → dest ≠ addr cfg →
  (sinkTable s !! dest = None ∨
   ∃ sv, sinkTable s !! dest = Some sv ∧ ttl - 1 < min_dx_to_sink sv) →
  radio_rx cfg
    (pmt_cons meta
       (pmt_u8vector
          (DATA_PROTO :: sndr :: src :: sn :: hc :: dest :: ttl :: payload)))
    e s
  = (s, [], Ok tt).
Proof.
  intros Hcrc Hs Hr Hd%Z.eqb_neq Hroute.
  rewrite radio_rx_data, handle_data_packet_run, Hd by done.
  destruct Hroute as [->|(sv & -> & Httl%Z.ltb_lt)]; [done|].
  by rewrite Httl.
Qed.

Lemma transit_data_without_route_is_dropped_witness :
  radio_rx (node_B true) (pdu [0; 2; 2; 7; 0; 0; 1; 170]) (at_time 101)
    B_has_gradient
  = (B_has_gradient, [], Ok tt).
Proof.
  apply (transit_data_without_route_is_dropped (node_B true) (at_time 101)
           B_has_gradient (pmt_dict ∅) 2 2 7 0 0 1 [170]);
    [reflexivity | cbn; lia | cbn; lia | cbn; lia |].
  right. exists gradient_to_0. split; [reflexivity | cbn; lia].
Defined.

(** X10.  The first copy of a transit DATA packet with enough TTL creates
    the entry of its key: the stored bytes are the packet with Sender set to
    the node, HopCount to the node's hop distance and TTL decremented; the
    entry is scheduled with no duplicates, heard at [now], and its
    forwarding time is [now + Tmin + random() * (Tmax - Tmin)].  Nothing is
    emitted and nothing else changes. *)
Theorem first_copy_is_scheduled
    cfg e s meta sndr src sn hc dest ttl payload sv :
  crc_ok (meta_dict_of meta) = true →
  sndr ≠ addr cfg → src ≠ addr cfg → dest ≠ addr cfg →
  sinkTable s !! dest = Some sv →
  min_dx_to_sink sv ≤ ttl - 1 →
  dataPacketTable s !! (src, dest, sn) = None →
  radio_rx cfg
    (pmt_cons meta
       (pmt_u8vector
          (DATA_PROTO :: sndr :: src :: sn :: hc :: dest :: ttl :: payload)))
    e s
  = (set_dataPacketTable
       (insert (src, dest, sn)
          {| dp_data :=
               Some (DATA_PROTO :: addr cfg :: src :: sn ::
                     min_dx_to_sink sv :: dest :: ttl - 1 :: payload);
             dp_last_time_heard := now e;
             dp_forwarding_time :=
               (now e + Tmin cfg + rnd e * (Tmax cfg - Tmin cfg))%Q;
             dp_scheduled := true;
             duplicates := 0 |}) s,
     [], Ok tt).
Proof.
  intros Hcrc Hs Hr Hd%Z.eqb_neq Hsv Httl Hnew.
  rewrite radio_rx_data, handle_data_packet_run, Hd, Hsv, Hnew by done.
  assert (Hlt : (ttl - 1 <? min_dx_to_sink sv) = false) by (apply Z.ltb_ge; lia).
  by rewrite Hlt.
Qed.

(** Scenario 3 at node B, with [random()] returning 0. *)
Lemma first_copy_is_scheduled_witness :
  radio_rx (node_B true) (pdu [0; 2; 2; 7; 0; 0; 5; 170]) (at_time 101)
    B_has_gradient
  = (set_dataPacketTable
       (insert (2, 0, 7)
          {| dp_data := Some [0; 1; 2; 7; 1; 0; 4; 170];
             dp_last_time_heard := 101;
             dp_forwarding_time := (101 + 5 + 0 * (65 - 5))%Q;
             dp_scheduled := true;
             duplicates := 0 |}) B_has_gradient,
     [], Ok tt).
Proof.
  apply (first_copy_is_scheduled (node_B true) (at_time 101) B_has_gradient
           (pmt_dict ∅) 2 2 7 0 0 5 [170] gradient_to_0);
    [reflexivity | cbn; lia | cbn; lia | cbn; lia | reflexivity | cbn; lia
    | reflexivity].
Defined.

(** X11.  A further copy of a DATA packet whose entry exists counts as a
    duplicate only when its HopCount is at most the node's hop distance:
    then [duplicates] is incremented and [scheduled] becomes
    [duplicates + 1 < Ndupl], the other fields being kept; a copy from
    farther away changes nothing.  Nothing is emitted either way. *)
Theorem further_copy_counts_if_not_farther
    cfg e s meta sndr src sn hc dest ttl payload sv a :
  crc_ok (meta_dict_of meta) = true →
  sndr ≠ addr cfg → src ≠ addr cfg → dest ≠ addr cfg →
  sinkTable s !! dest = Some sv →
  min_dx_to_sink sv ≤ ttl - 1 →
  dataPacketTable s !! (src, dest, sn) = Some a →
  radio_rx cfg
    (pmt_cons meta
       (pmt_u8vector
          (DATA_PROTO :: sndr :: src :: sn :: hc :: dest :: ttl :: payload)))
    e s
  = (if hc <=? min_dx_to_sink sv
     then
       set_dataPacketTable
         (insert (src, dest, sn)
            {| dp_data := dp_data a;
               dp_last_time_heard := dp_last_time_heard a;
               dp_forwarding_time := dp_forwarding_time a;
               dp_scheduled := duplicates a + 1 <? Ndupl cfg;
               duplicates := duplicates a + 1 |}) s
     else s,
     [], Ok tt).
Proof.
  intros Hcrc Hs Hr Hd%Z.eqb_neq Hsv Httl Ha.
  rewrite radio_rx_data, handle_data_packet_run, Hd, Hsv, Ha by done.
  assert (Hlt : (ttl - 1 <? min_dx_to_sink sv) = false) by (apply Z.ltb_ge; lia).
  rewrite Hlt. by destruct (hc <=? min_dx_to_sink sv).
Qed.

Lemma further_copy_counts_if_not_farther_witness :
  radio_rx (node_B true) (pdu [0; 3; 2; 7; 1; 0; 4; 170]) (at_time 102)
    B_pending
  = (set_dataPacketTable
       (insert (2, 0, 7)
          {| dp_data := Some [0; 1; 2; 7; 1; 0; 4; 170];
             dp_last_time_heard := 101;
             dp_forwarding_time := 106;
             dp_scheduled := true;
             duplicates := 1 |}) B_pending,
     [], Ok tt).
Proof.
  apply (further_copy_counts_if_not_farther (node_B true) (at_time 102)
           B_pending (pmt_dict ∅) 3 2 7 1 0 4 [170] gradient_to_0
           pending_2_0_7);
    [reflexivity | cbn; lia | cbn; lia | cbn; lia | reflexivity | cbn; lia
    | reflexivity].
Defined.

(** X12.  The bytes a forwarder stores for a transit packet, once received
    by the destination sink, deliver the payload of the original packet
    there, and the NOTI the sink emits for them, once received by the
    forwarder, cancels the forwarder's entry for the packet. *)
Theorem forwarded_packet_is_delivered_and_cancelled
    cfgB cfgD eB sB eD sD eB' sndr src sn hc ttl payload sv :
  sndr ≠ addr cfgB → src ≠ addr cfgB → src ≠ addr cfgD →
  addr cfgD ≠ addr cfgB →
  sinkTable sB !! addr cfgD = Some sv →
  min_dx_to_sink sv ≤ ttl - 1 →
  dataPacketTable sB !! (src, addr cfgD, sn) = None →
  let key := (src, addr cfgD, sn) in
  let stored := DATA_PROTO :: addr cfgB :: src :: sn :: min_dx_to_sink sv ::
                addr cfgD :: ttl - 1 :: payload in
  let noti := [NOTI_PROTO; addr cfgD; src; sn] in
  let sB1 :=
    post (radio_rx cfgB
            (pdu (DATA_PROTO :: sndr :: src :: sn :: hc :: addr cfgD :: ttl ::
                  payload)) eB sB) in
  (∃ v1, dataPacketTable sB1 !! key = Some v1 ∧ dp_data v1 = Some stored ∧
         dataPacketTable (post (radio_rx cfgB (pdu noti) eB' sB1)) !! key
         = Some (cancelled v1)) ∧
  radio_rx cfgD (pdu stored) eD sD
  = (sD, [to_radio noti; to_app ∅ payload], Ok tt).
Proof.
  intros Hs Hr HrD HDB Hsv Httl Hnew key stored noti sB1. split.
  - subst sB1 noti key stored. unfold pdu.
    rewrite radio_rx_data, handle_data_packet_run by done.
    apply Z.eqb_neq in HDB as HDB'. rewrite HDB', Hsv, Hnew.
    assert (Hlt : (ttl - 1 <? min_dx_to_sink sv) = false)
      by (apply Z.ltb_ge; lia).
    rewrite Hlt. unfold post. cbn [fst snd].
    eexists. split; [apply lookup_insert_eq|]. split; [done|].
    rewrite radio_rx_noti by done.
    cbn [dataPacketTable set_dataPacketTable]. rewrite lookup_insert_eq.
    unfold post. cbn. apply lookup_insert_eq.
  - subst stored. unfold pdu. rewrite radio_rx_data by done.
    by rewrite handle_data_packet_run, Z.eqb_refl.
Qed.

Lemma forwarded_packet_is_delivered_and_cancelled_witness :
  let sB1 :=
    post (radio_rx dflood_dflood_1 (pdu [0; 3; 3; 0; 2; 0; 2; 170; 187])
            (at_time 105) block_1_has_gradient) in
  (∃ v1, dataPacketTable sB1 !! (3, 0, 0) = Some v1 ∧
         dp_data v1 = Some [0; 1; 3; 0; 1; 0; 1; 170; 187] ∧
         dataPacketTable
           (post (radio_rx dflood_dflood_1 (pdu [2; 0; 3; 0]) (at_time 108)
                    sB1)) !! (3, 0, 0)
         = Some (cancelled v1)) ∧
  radio_rx dflood_dflood_0 (pdu [0; 1; 3; 0; 1; 0; 1; 170; 187]) (at_time 107)
    (init dflood_dflood_0)
  = (init dflood_dflood_0,
     [to_radio [2; 0; 3; 0]; to_app ∅ [170; 187]], Ok tt).
Proof.
  apply (forwarded_packet_is_delivered_and_cancelled dflood_dflood_1
           dflood_dflood_0 (at_time 105) block_1_has_gradient (at_time 107)
           (init dflood_dflood_0) (at_time 108) 3 3 0 2 2 [170; 187]
           gradient_to_0);
    [cbn; lia | cbn; lia | cbn; lia | cbn; lia | reflexivity | cbn; lia
    | reflexivity].
Defined.

(** ** Invariants of the reachable states *)

Ltac handler_unfold :=
  unfold radio_rx, _radio_rx, handle_sink_packet, handle_data_packet,
    handle_receive_notification, update_sink_neighbor_entry,
    adjust_broadcast_interval, minium_addr_in_sink_neighbor_table,
    send_notification_radio, output_user_data,
    app_rx, _app_rx, send_pkt_radio,
    ctrl_rx, send_sink_packets, send_data_packets,
    forward_sink_entry, forward_data_entry, send_sink_pkt,
    check_sink_neighbor_table, check_sink_table, check_data_packet_table,
    age_sink_neighbor_entry, age_sink_entry, age_data_entry.

Lemma counters_in_range_handle cfg ev :
  preserves counters_in_range (handle cfg ev).
Proof.
  destruct ev; cbn [handle]; handler_unfold; unfold update_sink_entry;
    handler_auto;
    (apply preserves_modify; intros s [? ?]; split; cbn; try done;
     apply Z.mod_pos_bound; lia).
Qed.

(** X13.  In every state a node reaches, the data-packet counter [pkt_cnt]
    and the beacon sequence number are bytes: both stay in [0, 256). *)
Theorem counters_stay_bytes cfg tr :
  0 ≤ pkt_cnt (run cfg (init cfg) tr).1 < 256 ∧
  0 ≤ sequence_number (run cfg (init cfg) tr).1 < 256.
Proof.
  assert (H : ∀ s, counters_in_range s → counters_in_range (run cfg s tr).1).
  { induction tr as [|[e ev] tr IH]; intros s Hs; [done|].
    cbn [run fst]. apply IH. unfold step. cbn [fst snd].
    by apply (counters_in_range_handle cfg ev e s). }
  apply H. split; cbn; lia.
Qed.

Lemma update_sink_entry_all_scheduled cfg dat :
  preserves all_scheduled (update_sink_entry cfg dat).
Proof.
  intros e s Hs. unfold update_sink_entry, dict_contains, post. munfold.
  unfold all_scheduled in *.
  destruct (dat !! PKT_SRC) as [key|]; [|done].
  destruct (sinkTable s !! key) as [v|] eqn:Hv; cbn.
  - destruct (dat !! PKT_SN) as [sn|]; [|done].
    destruct (dat !! PKT_HC) as [hc|]; [|done]. cbn.
    intros k v'. rewrite lookup_insert. case_decide; [|apply Hs].
    intros [= <-]. specialize (Hs key v Hv).
    destruct (sn >? _); [done|]. destruct (sn =? _); [|done].
    rewrite Hs. cbn. by destruct (hc <? _).
  - destruct (dat !! PKT_SN) as [sn|]; [|done].
    destruct (dat !! PKT_HC) as [hc|]; [|done]. cbn.
    intros k v'. rewrite lookup_insert. case_decide; [|apply Hs].
    by intros [= <-].
Qed.

Lemma all_scheduled_handle cfg ev : preserves all_scheduled (handle cfg ev).
Proof.
  destruct ev; cbn [handle]; handler_unfold; handler_auto;
    first
      [ apply update_sink_entry_all_scheduled
      | apply preserves_modify; intros s' Hs' k' v'; cbn;
        first [ apply Hs'
              | rewrite lookup_delete; case_decide; [done|apply Hs'] ] ].
Qed.

(** X14.  In every state a node reaches, every sink-table entry is
    scheduled: an entry is created scheduled, no SINK receipt clears the
    flag, and the tick does not write the table. *)
Theorem sink_entries_stay_scheduled cfg tr k v :
  sinkTable (run cfg (init cfg) tr).1 !! k = Some v → scheduled v = true.
Proof.
  assert (H : ∀ s, all_scheduled s → all_scheduled (run cfg s tr).1).
  { induction tr as [|[e ev] tr IH]; intros s Hs; [done|].
    cbn [run fst]. apply IH. unfold step. cbn [fst snd].
    by apply (all_scheduled_handle cfg ev e s). }
  apply H. intros k' v' Hk'. cbn in Hk'. by rewrite lookup_empty in Hk'.
Qed.

Lemma sink_entries_stay_scheduled_witness :
  sinkTable
    (run (node_B true) (init (node_B true))
       [(at_time 100, from_radio (pdu [1; 0; 0; 0; 0]));
        (at_time 103, ctrl_in pmt_nil)]).1 !! 0 = Some gradient_to_0 ∧
  scheduled gradient_to_0 = true.
Proof.
  split; [reflexivity|].
  apply (sink_entries_stay_scheduled (node_B true)
           [(at_time 100, from_radio (pdu [1; 0; 0; 0; 0]));
            (at_time 103, ctrl_in pmt_nil)] 0 gradient_to_0).
  reflexivity.
Defined.

(** ** The hop distance of a sink entry *)

Lemma update_sink_entry_continues cfg dat T :
  preserves (sink_entries_continue T) (update_sink_entry cfg dat).
Proof.
  intros e s Hs. unfold update_sink_entry, dict_contains, post. munfold.
  unfold sink_entries_continue in *.
  destruct (dat !! PKT_SRC) as [key|]; [|done].
  destruct (sinkTable s !! key) as [a|] eqn:Ha; cbn.
  - destruct (dat !! PKT_SN) as [sn|]; [|done].
    destruct (dat !! PKT_HC) as [hc|]; [|done]. cbn.
    intros k v Hk. destruct (Hs k v Hk) as (v' & Hv' & Hc1 & Hc2).
    rewrite lookup_insert. case_decide; [|by exists v'].
    subst k. rewrite Ha in Hv'. injection Hv' as <-.
    eexists. split; [done|]. unfold continues.
    destruct (sn >? _) eqn:Hgt; cbn; [apply Z.gtb_lt in Hgt; lia|].
    destruct (sn =? _); [|done].
    destruct (negb (scheduled a)); [by destruct (hc <? _)|].
    by destruct (hc <? _).
  - destruct (dat !! PKT_SN) as [sn|]; [|done].
    destruct (dat !! PKT_HC) as [hc|]; [|done]. cbn.
    intros k v Hk. destruct (Hs k v Hk) as (v' & Hv' & Hc).
    rewrite lookup_insert. case_decide; [congruence|by exists v'].
Qed.

Lemma ingress_continues_sink_entries cfg T msg :
  preserves (sink_entries_continue T) (radio_rx cfg msg) ∧
  preserves (sink_entries_continue T) (app_rx cfg msg).
Proof.
  split; handler_unfold; handler_auto;
    first [ apply update_sink_entry_continues
          | apply preserves_modify; intros s' Hs'; exact Hs' ].
Qed.

Lemma ctrl_rx_sinkTable_subseteq cfg msg T :
  preserves (λ s, sinkTable s ⊆ T) (ctrl_rx cfg msg).
Proof.
  handler_unfold. handler_auto; try frame_leaf.
  apply preserves_modify. intros s' Hs'. cbn.
  etrans; [apply delete_subseteq|done].
Qed.

Lemma step_continues cfg s x k v v' :
  sinkTable s !! k = Some v →
  sinkTable (step cfg s x).1 !! k = Some v' →
  continues v v'.
Proof.
  intros Hv Hv'. destruct x as [e [msg|msg|msg]]; unfold step in Hv';
    cbn [handle fst snd] in Hv'.
  - destruct (proj1 (ingress_continues_sink_entries cfg (sinkTable s) msg)
                e s) with (k := k) (v := v) as (v1 & Hv1 & Hc); [|done|].
    { intros k0 v0 Hk0. exists v0. by split. }
    unfold post in Hv1. congruence.
  - destruct (proj2 (ingress_continues_sink_entries cfg (sinkTable s) msg)
                e s) with (k := k) (v := v) as (v1 & Hv1 & Hc); [|done|].
    { intros k0 v0 Hk0. exists v0. by split. }
    unfold post in Hv1. congruence.
  - pose proof (ctrl_rx_sinkTable_subseteq cfg msg (sinkTable s) e s
                  (reflexivity _)) as Hsub.
    unfold post in Hsub.
    assert (sinkTable s !! k = Some v') by (by eapply lookup_weaken).
    assert (v' = v) as -> by congruence. by split.
Qed.

(** X15.  The hop distance of a sink-table entry is fixed when the entry is
    created: along any sequence of receipts, application messages and ticks
    during which the entry stays in the table, [min_dx_to_sink] keeps its
    value (a beacon heard over a shorter path does not lower it) and
    [highest_rcvd_seq_num] never decreases. *)
Theorem sink_hop_distance_is_frozen cfg tr s k v v' :
  sinkTable s !! k = Some v →
  sink_entry_persists cfg k s tr = true →
  sinkTable (run cfg s tr).1 !! k = Some v' →
  min_dx_to_sink v' = min_dx_to_sink v ∧
  highest_rcvd_seq_num v ≤ highest_rcvd_seq_num v'.
Proof.
  revert s v. induction tr as [|x tr IH]; intros s v Hv Hp Hv'.
  - cbn in Hv'. assert (v' = v) as -> by congruence. by split.
  - cbn [sink_entry_persists] in Hp. apply andb_true_iff in Hp as [Hp1 Hp2].
    apply dict_contains_is_Some in Hp1 as [v1 Hv1].
    destruct (step_continues cfg s x k v v1 Hv Hv1) as [Hm Hh].
    cbn [run fst] in Hv'.
    destruct (IH _ _ Hv1 Hp2 Hv') as [Hm' Hh']. split; lia.
Qed.

Lemma sink_hop_distance_is_frozen_witness :
  sinkTable B_far_from_sink !! 0 = Some far_gradient_to_0 ∧
  sinkTable (run (node_B true) B_far_from_sink nearer_beacon_heard).1 !! 0
  = Some far_gradient_to_0_later ∧
  min_dx_to_sink far_gradient_to_0_later = min_dx_to_sink far_gradient_to_0 ∧
  highest_rcvd_seq_num far_gradient_to_0
  ≤ highest_rcvd_seq_num far_gradient_to_0_later.
Proof.
  split; [reflexivity|]. split; [reflexivity|].
  apply (sink_hop_distance_is_frozen (node_B true) nearer_beacon_heard
           B_far_from_sink 0 far_gradient_to_0 far_gradient_to_0_later);
    reflexivity.
Defined.

(** ** A node without debugging *)

Lemma dict_keys_empty {K V} `{Countable K} : dict_keys (∅ : gmap K V) = [].
Proof. unfold dict_keys. by rewrite map_to_list_empty. Qed.

(** What the first part of the tick emits: sink packets sent by the node. *)
Lemma send_sink_packets_outputs cfg e s :
  Forall (λ x, ∃ a seq hops,
               x = to_radio [SINK_PROTO; addr cfg; a; seq; hops])
    (emitted (send_sink_packets cfg e s)).
Proof.
  unfold send_sink_packets. destruct (addr cfg =? SINK_ADDR cfg).
  - unfold send_sink_pkt. munfold. cbn.
    destruct (Qgtb (broadcast_interval s) 0 && _); cbn.
    + constructor; [by eexists _, _, _|constructor].
    + constructor.
  - rewrite (bind_ok _ _ _ _ s s) by reflexivity.
    assert (Hgen : ∀ ks s0,
              (∀ k, k ∈ ks → is_Some (sinkTable s0 !! k)) →
              Forall (λ x, ∃ a seq hops,
                           x = to_radio [SINK_PROTO; addr cfg; a; seq; hops])
                (emitted (for_each ks (forward_sink_entry cfg) e s0))).
    { induction ks as [|k ks IH]; intros s0 Hks; [constructor|].
      destruct (Hks k) as [v Hv]; [left|].
      cbn [for_each]. rewrite emitted_bind.
      rewrite (forward_sink_entry_run _ _ _ _ _ Hv).
      destruct (scheduled v && _); cbn [outcome emitted post fst snd].
      - constructor; [by eexists _, _, _|]. apply IH.
        intros k' Hk'. apply Hks. by right.
      - apply IH. intros k' Hk'. apply Hks. by right. }
    apply Hgen. intros k. apply elem_of_dict_keys.
Qed.

Lemma handle_sink_packet_without_debug cfg e s meta p sndr src sn hc :
  debug_stderr cfg = false →
  handle_sink_packet cfg [p; sndr; src; sn; hc] meta e s
  = (s, [], Raise UnboundLocalError).
Proof.
  intros Hdbg. unfold handle_sink_packet, update_sink_neighbor_entry.
  munfold. rewrite Hdbg. cbn. by rewrite andb_false_r.
Qed.

Lemma step_without_debug cfg s x :
  debug_stderr cfg = false →
  tables_empty s →
  tables_empty (step cfg s x).1 ∧ Forall not_data (step cfg s x).2.
Proof.
  intros Hdbg (Hn & Hs & Hd). destruct x as [e [msg|msg|msg]]; unfold step;
    cbn [handle fst snd].
  - destruct (radio_rx_dispatch cfg msg e s)
      as [-> | [-> | [(meta & sndr & src & sn & hc & _ & _ & ->)
         | [(meta & sndr & src & sn & hc & dest & ttl & payload & _ & _ & ->)
         | (meta & sndr & src & sn & _ & _ & ->)]]]]; cbn [fst snd].
    + by split.
    + by split.
    + rewrite handle_sink_packet_without_debug by done. by split.
    + rewrite handle_data_packet_run.
      destruct (dest =? addr cfg); cbn [fst snd].
      * split; [done|]. repeat constructor; by intros pdu [= <-].
      * rewrite Hs, lookup_empty. by split.
    + rewrite handle_receive_notification_run, Hd, lookup_empty. by split.
  - destruct msg as [| | | | |  |meta d]; try by split.
    destruct d as [| | | |elts| |]; try by split.
    unfold app_rx, _app_rx, send_pkt_radio, dict_contains. munfold.
    rewrite Hs, lookup_empty. cbn. by split.
  - destruct (ctrl_rx_run cfg msg e s) as (s1 & o1 & H1 & ->).
    destruct (send_sink_packets_run cfg e s)
      as (s1' & o1' & H1' & Ht1 & Ht2 & Ht3 & _).
    rewrite H1 in H1'. injection H1' as <- <-.
    pose proof (send_sink_packets_outputs cfg e s) as Ho1.
    rewrite H1 in Ho1. cbn [emitted fst snd] in Ho1.
    assert (Ho1' : Forall not_data o1).
    { eapply Forall_impl; [exact Ho1|].
      intros x (a & seq & hops & ->) pdu [= <-]. done. }
    unfold send_data_packets. rewrite (bind_ok _ _ _ _ s1 s1) by reflexivity.
    rewrite Ht1, Hd, dict_keys_empty. cbn [for_each].
    destruct (aging_run cfg e s1) as (s3 & Hrun & Han & Has & Had & _).
    unfold mret, M_ret. rewrite Hrun. cbn [fst snd].
    split; [|by rewrite !app_nil_r].
    split; [|split]; apply map_eq; intros k; rewrite lookup_empty.
    + by rewrite Han, Ht3, Hn, lookup_empty.
    + by rewrite Has, Ht2, Hs, lookup_empty.
    + by rewrite Had, Ht1, Hd, lookup_empty.
Qed.

(** X16.  A node built with [debug = False] never learns a gradient: in
    every state it reaches the three tables are empty (each SINK receipt
    raises before a table is written), so it forwards nothing and drops
    every application payload: it never emits a DATA packet. *)
Theorem node_without_debug_stays_empty cfg tr :
  debug_stderr cfg = false →
  sinkNeighborTable (run cfg (init cfg) tr).1 = ∅ ∧
  sinkTable (run cfg (init cfg) tr).1 = ∅ ∧
  dataPacketTable (run cfg (init cfg) tr).1 = ∅ ∧
  ∀ pdu, to_radio pdu ∈ (run cfg (init cfg) tr).2 →
         pdu !! PKT_PROT_ID ≠ Some DATA_PROTO.
Proof.
  intros Hdbg.
  assert (H : ∀ s, tables_empty s →
                   tables_empty (run cfg s tr).1 ∧
                   Forall not_data (run cfg s tr).2).
  { induction tr as [|x tr IH]; intros s Hs; [by split|].
    destruct (step_without_debug cfg s x Hdbg Hs) as [Hs1 Ho1].
    destruct (IH _ Hs1) as [Hs2 Ho2]. cbn [run fst snd]. split; [done|].
    by apply Forall_app. }
  destruct (H (init cfg)) as [(Hn & Hs & Hd) Ho]; [done|].
  repeat split; try done.
  intros pdu Hin. rewrite Forall_forall in Ho. by apply (Ho _ Hin).
Qed.

Lemma node_without_debug_stays_empty_witness :
  sinkNeighborTable (run (node_B false) (init (node_B false)) busy_hour).1 = ∅ ∧
  sinkTable (run (node_B false) (init (node_B false)) busy_hour).1 = ∅ ∧
  dataPacketTable (run (node_B false) (init (node_B false)) busy_hour).1 = ∅ ∧
  ∀ pdu, to_radio pdu ∈ (run (node_B false) (init (node_B false)) busy_hour).2 →
         pdu !! PKT_PROT_ID ≠ Some DATA_PROTO.
Proof.
  apply (node_without_debug_stays_empty (node_B false) busy_hour).
  reflexivity.
Defined.

(** ** The Sender field of emitted packets *)

Lemma sender_rel_refl cfg s : sender_rel cfg s [] s.
Proof. intros H. by split. Qed.

Lemma sender_rel_trans cfg s o1 s1 o2 s2 :
  sender_rel cfg s o1 s1 → sender_rel cfg s1 o2 s2 →
  sender_rel cfg s (o1 ++ o2) s2.
Proof.
  intros H1 H2 Hs. destruct (H1 Hs) as [Hs1 Ho1].
  destruct (H2 Hs1) as [Hs2 Ho2]. split; [done|]. by apply Forall_app.
Qed.

Lemma stored_sent_by_insert cfg k v s :
  (∀ pdu, dp_data v = Some pdu → pdu !! PKT_SNDR = Some (addr cfg)) →
  stored_sent_by cfg s →
  stored_sent_by cfg (set_dataPacketTable (insert k v) s).
Proof.
  intros Hv Hs k' v' pdu. cbn. rewrite lookup_insert. case_decide.
  - intros [= <-]. apply Hv.
  - apply Hs.
Qed.

Lemma forward_data_entry_sender cfg k :
  sat (sender_rel cfg) (forward_data_entry cfg k).
Proof.
  intros e s. rewrite forward_data_entry_run.
  destruct (dataPacketTable s !! k) as [v|] eqn:Hv;
    [|apply sender_rel_refl].
  destruct (_ && _); [|apply sender_rel_refl].
  destruct (dp_data v) as [pdu|] eqn:Hd; [|apply sender_rel_refl].
  unfold emitted, post. cbn [fst snd]. intros Hs. split.
  - by apply stored_sent_by_insert.
  - constructor; [|constructor]. intros pdu' [= <-]. by apply (Hs k v).
Qed.

Lemma step_sender cfg s x :
  stored_sent_by cfg s →
  stored_sent_by cfg (step cfg s x).1 ∧ Forall (sent_by cfg) (step cfg s x).2.
Proof.
  intros Hs. destruct x as [e [msg|msg|msg]]; unfold step;
    cbn [handle fst snd].
  - destruct (radio_rx_dispatch cfg msg e s)
      as [-> | [-> | [(meta & sndr & src & sn & hc & _ & _ & ->)
         | [(meta & sndr & src & sn & hc & dest & ttl & payload & _ & _ & ->)
         | (meta & sndr & src & sn & _ & _ & ->)]]]]; cbn [fst snd].
    + by split.
    + by split.
    + destruct (handle_sink_packet_frame cfg [SINK_PROTO; sndr; src; sn; hc]
                  meta (dataPacketTable s)) as [Hsil Hpre].
      specialize (Hsil e s). specialize (Hpre e s eq_refl).
      unfold emitted, post in *. rewrite Hsil. split; [|constructor].
      intros k v pdu. rewrite Hpre. apply Hs.
    + rewrite handle_data_packet_run.
      destruct (dest =? addr cfg); cbn [fst snd].
      { split; [done|]. repeat constructor; by intros pdu [= <-]. }
      destruct (sinkTable s !! dest) as [sv|]; [|by split].
      destruct (ttl - 1 <? min_dx_to_sink sv); [by split|].
      destruct (dataPacketTable s !! (src, dest, sn)) as [a|] eqn:Ha.
      * destruct (hc <=? min_dx_to_sink sv); [|by split].
        cbn [fst snd]. split; [|constructor].
        apply stored_sent_by_insert; [|done]. cbn. intros pdu Hp.
        by apply (Hs _ a pdu Ha).
      * cbn [fst snd]. split; [|constructor].
        apply stored_sent_by_insert; [|done]. cbn. by intros pdu [= <-].
    + rewrite handle_receive_notification_run.
      destruct (dataPacketTable s !! (src, sndr, sn)) as [v|]; [|by split].
      cbn [fst snd]. split; [|constructor].
      by apply stored_sent_by_insert.
  - destruct msg as [| | | | |  |meta d]; try by split.
    destruct d as [| | | |elts| |]; try by split.
    unfold app_rx, _app_rx, send_pkt_radio, dict_contains. munfold.
    destruct (sinkTable s !! SINK_ADDR cfg) as [sv|]; cbn; [|by split].
    destruct (debug_stderr cfg); cbn;
      (split; [done|]); repeat constructor; by intros pdu [= <-].
  - destruct (ctrl_rx_run cfg msg e s) as (s1 & o1 & H1 & ->).
    destruct (send_sink_packets_run cfg e s) as (s1' & o1' & H1' & Ht1 & _).
    rewrite H1 in H1'. injection H1' as <- <-.
    pose proof (send_sink_packets_outputs cfg e s) as Ho1.
    rewrite H1 in Ho1. cbn [emitted fst snd] in Ho1.
    assert (Ho1' : Forall (sent_by cfg) o1).
    { eapply Forall_impl; [exact Ho1|].
      by intros x (a & seq & hops & ->) pdu [= <-]. }
    assert (Hs1 : stored_sent_by cfg s1).
    { intros k v pdu. rewrite Ht1. apply Hs. }
    assert (Hloop : sat (sender_rel cfg) (send_data_packets cfg)).
    { unfold send_data_packets. intros e' s'.
      rewrite (bind_ok _ _ _ _ s' s') by reflexivity.
      apply sat_for_each;
        [apply sender_rel_refl|apply sender_rel_trans
        |apply forward_data_entry_sender]. }
    destruct (Hloop e s1 Hs1) as [Hs2 Ho2].
    destruct (send_data_packets cfg e s1) as [[s2 o2] [[]|x]];
      unfold post, emitted in Hs2, Ho2; cbn [fst snd] in *.
    + destruct (aging_run cfg e s2) as (s3 & -> & _ & _ & Had & _).
      cbn [fst snd]. split; [|by rewrite app_nil_r; apply Forall_app].
      intros k v pdu. rewrite Had.
      destruct (dataPacketTable s2 !! k) as [v2|] eqn:Hk; [|done].
      destruct (expired _ _ _); [done|]. intros [= <-]. by apply (Hs2 k).
    + split; [done|by apply Forall_app].
Qed.

(** X17.  Every packet a node emits on [to_radio] carries the node's own
    address in its Sender field: its beacons, NOTIs and application packets
    are built that way, and the bytes stored for forwarding have had their
    Sender rewritten. *)
Theorem emitted_packets_carry_own_address cfg tr pdu :
  to_radio pdu ∈ (run cfg (init cfg) tr).2 →
  pdu !! PKT_SNDR = Some (addr cfg).
Proof.
  assert (H : ∀ s, stored_sent_by cfg s →
                   Forall (sent_by cfg) (run cfg s tr).2).
  { induction tr as [|x tr IH]; intros s Hs; [constructor|].
    destruct (step_sender cfg s x Hs) as [Hs1 Ho1].
    cbn [run snd]. apply Forall_app. split; [done|by apply IH]. }
  intros Hin. specialize (H (init cfg)). rewrite Forall_forall in H.
  apply (H ltac:(intros k v p Hk; cbn in Hk; by rewrite lookup_empty in Hk)
           _ Hin pdu eq_refl).
Qed.

Lemma emitted_packets_carry_own_address_witness :
  to_radio [0; 1; 2; 7; 1; 0; 4; 170]
    ∈ (run (node_B true) (init (node_B true)) busy_hour).2 ∧
  [0; 1; 2; 7; 1; 0; 4; 170] !! PKT_SNDR = Some (addr (node_B true)).
Proof.
  assert (Hin : to_radio [0; 1; 2; 7; 1; 0; 4; 170]
                  ∈ (run (node_B true) (init (node_B true)) busy_hour).2).
  { assert (Hrun : (run (node_B true) (init (node_B true)) busy_hour).2
                   = [to_radio [0; 1; 1; 0; 1; 0; 3; 187];
                      to_radio [1; 1; 0; 0; 1];
                      to_radio [0; 1; 2; 7; 1; 0; 4; 170]]) by reflexivity.
    rewrite Hrun. right. right. left. }
  split; [exact Hin|].
  exact (emitted_packets_carry_own_address (node_B true) busy_hour
           [0; 1; 2; 7; 1; 0; 4; 170] Hin).
Defined.

(** X18.  Every message that fails a check of the radio ingress (not a
    pair, data not a u8vector, CRC_OK false, unknown ProtoId, wrong length
    for the ProtoId, sent or originated by the node itself) and is not the
    empty vector with a good CRC is dropped: the handler returns normally,
    emits nothing and leaves the state as it was. *)
Theorem rejected_message_is_dropped cfg msg e s :
  rejected cfg msg = true →
  outcome (radio_rx cfg msg e s) = Ok tt ∧
  emitted (radio_rx cfg msg e s) = [] ∧
  post (radio_rx cfg msg e s) = s.
Proof. intros H. by rewrite radio_rx_rejected. Qed.

Lemma rejected_message_is_dropped_witness :
  rejected (node_B true) (pdu [1; 1; 0; 0; 1]) = true ∧
  outcome (radio_rx (node_B true) (pdu [1; 1; 0; 0; 1]) (at_time 104)
             B_has_gradient) = Ok tt ∧
  emitted (radio_rx (node_B true) (pdu [1; 1; 0; 0; 1]) (at_time 104)
             B_has_gradient) = [] ∧
  post (radio_rx (node_B true) (pdu [1; 1; 0; 0; 1]) (at_time 104)
          B_has_gradient) = B_has_gradient.
Proof.
  split; [reflexivity|].
  apply (rejected_message_is_dropped (node_B true) (pdu [1; 1; 0; 0; 1])
           (at_time 104) B_has_gradient).
  reflexivity.
Defined.

(** ** SINK ingress: the broadcast interval *)

Lemma foldr_min_spec (x : Z) (xs : list Z) :
  foldr Z.min x xs ∈ x :: xs ∧ ∀ y, y ∈ x :: xs → foldr Z.min x xs ≤ y.
Proof.
  induction xs as [|a xs [IHin IHle]]; cbn.
  - split; [left|]. intros y Hy. apply list_elem_of_singleton in Hy. lia.
  - split.
    + destruct (Z.min_spec a (foldr Z.min x xs)) as [[_ ->]|[_ ->]].
      * right. left.
      * apply elem_of_cons in IHin as [->|Hin]; [left|]. right. by right.
    + intros y Hy.
      assert (y = a ∨ y ∈ x :: xs) as [->|Hy'].
      { apply elem_of_cons in Hy as [->|Hy]; [right; left|].
        apply elem_of_cons in Hy as [->|Hy]; [by left|]. right. by right. }
      * lia.
      * specialize (IHle y Hy'). lia.
Qed.

Lemma py_min_spec l e s :
  l ≠ [] →
  ∃ m, py_min l e s = (s, [], Ok m) ∧ m ∈ l ∧ ∀ y, y ∈ l → m ≤ y.
Proof.
  destruct l as [|x xs]; [done|]. intros _.
  exists (foldr Z.min x xs). split; [done|]. apply foldr_min_spec.
Qed.

Lemma update_sink_neighbor_entry_with_debug cfg e s p sndr src sn hc :
  debug_stderr cfg = true →
  update_sink_neighbor_entry cfg [p; sndr; src; sn; hc] e s
  = (set_sinkNeighborTable
       (insert (sndr, src)
          {| last_rcvd_seq_num := sn; nb_min_dx_to_sink := hc;
             nb_last_time_heard := now e;
             nb_broadcast_interval := new_interval s (now e) (sndr, src) |})
       s, [], Ok (sndr, src)).
Proof.
  intros Hdbg. unfold update_sink_neighbor_entry, dict_contains, new_interval.
  munfold. cbn. rewrite Hdbg.
  by destruct (sinkNeighborTable s !! (sndr, src)).
Qed.

Lemma update_sink_entry_keeps_interval cfg dat b :
  preserves (λ s, broadcast_interval s = b) (update_sink_entry cfg dat).
Proof. unfold update_sink_entry. handler_auto; frame_leaf. Qed.

(** X19.  After a SINK receipt (debugging on) the node compares its address
    with the lowest Sender among the sink-neighbor keys, the one just
    written included: when its address is greater it adopts as its own
    broadcast interval the interval just recorded for the packet's key
    (whatever neighbour has the lowest address), otherwise it keeps its
    interval. *)
Theorem broadcast_interval_arbitration cfg e s meta sndr src sn hc :
  debug_stderr cfg = true →
  crc_ok (meta_dict_of meta) = true →
  sndr ≠ addr cfg → src ≠ addr cfg →
  let r := radio_rx cfg
             (pmt_cons meta (pmt_u8vector [SINK_PROTO; sndr; src; sn; hc]))
             e s in
  ∃ m,
    (m = sndr ∨ ∃ key, is_Some (sinkNeighborTable s !! key) ∧ key.1 = m) ∧
    m ≤ sndr ∧
    (∀ key, is_Some (sinkNeighborTable s !! key) → m ≤ key.1) ∧
    broadcast_interval (post r) =
      if addr cfg >? m
      then new_interval s (now e) (sndr, src)
      else broadcast_interval s.
Proof.
  intros Hdbg Hcrc Hs Hr r. subst r.
  rewrite radio_rx_sink by done. unfold handle_sink_packet.
  rewrite (bind_ok _ _ _ _ _ _
             (update_sink_neighbor_entry_with_debug cfg e s _ _ _ _ _ Hdbg)).
  set (v' := {| last_rcvd_seq_num := sn; nb_min_dx_to_sink := hc;
                nb_last_time_heard := now e;
                nb_broadcast_interval := new_interval s (now e) (sndr, src) |}).
  set (s1 := set_sinkNeighborTable (insert (sndr, src) v') s).
  assert (Hk : sinkNeighborTable s1 !! (sndr, src) = Some v')
    by apply lookup_insert_eq.
  destruct (py_min_spec (dict_keys (sinkNeighborTable s1)).*1 e s1)
    as (m & Hmin & Hin & Hle).
  { intros Hnil. apply fmap_nil_inv in Hnil.
    by apply (dict_keys_nonempty _ _ _ Hk). }
  assert (Hmem : ∀ y, y ∈ (dict_keys (sinkNeighborTable s1)).*1 ↔
                      y = sndr ∨
                      ∃ key, is_Some (sinkNeighborTable s !! key) ∧ key.1 = y).
  { intros y. rewrite list_elem_of_fmap. split.
    - intros (key & -> & Hkey%elem_of_dict_keys). subst s1. cbn in Hkey.
      rewrite lookup_insert in Hkey. case_decide; [subst key; by left|].
      right. by exists key.
    - intros [->|(key & Hkey & <-)].
      + exists (sndr, src). split; [done|]. apply elem_of_dict_keys.
        by eexists.
      + exists key. split; [done|]. apply elem_of_dict_keys. subst s1. cbn.
        rewrite lookup_insert. case_decide; [by eexists|done]. }
  exists m. split; [by apply Hmem|]. split; [apply Hle, Hmem; by left|].
  split; [intros key Hkey; apply Hle, Hmem; right; by exists key|].
  rewrite post_bind.
  assert (Hadj : adjust_broadcast_interval cfg (sndr, src) e s1 =
                 (if addr cfg >? m
                  then set_broadcast_interval
                         (new_interval s (now e) (sndr, src)) s1
                  else s1, [], Ok tt)).
  { unfold adjust_broadcast_interval, minium_addr_in_sink_neighbor_table.
    rewrite (bind_ok _ _ _ _ s1 m).
    - destruct (addr cfg >? m); [|done]. munfold. by rewrite Hk.
    - by rewrite (bind_ok _ _ _ _ s1 s1). }
  rewrite Hadj. cbn [outcome post fst snd].
  apply (update_sink_entry_keeps_interval cfg _ _ e).
  by destruct (addr cfg >? m).
Qed.

Lemma broadcast_interval_arbitration_witness :
  let r := radio_rx dflood_dflood_1 (pdu [1; 0; 0; 1; 0]) (at_time 130)
             block_1_has_gradient in
  ∃ m,
    (m = 0 ∨ ∃ key, is_Some (sinkNeighborTable block_1_has_gradient !! key)
                    ∧ key.1 = m) ∧
    m ≤ 0 ∧
    (∀ key, is_Some (sinkNeighborTable block_1_has_gradient !! key)
            → m ≤ key.1) ∧
    broadcast_interval (post r) =
      if 1 >? m
      then new_interval block_1_has_gradient 130 (0, 0)
      else broadcast_interval block_1_has_gradient.
Proof.
  apply (broadcast_interval_arbitration dflood_dflood_1 (at_time 130)
           block_1_has_gradient (pmt_dict ∅) 0 0 1 0);
    [reflexivity | reflexivity | cbn; lia | cbn; lia].
Defined.

(** ** SINK ingress: the sink entry *)

Lemma update_sink_entry_run cfg e s p sndr src sn hc :
  update_sink_entry cfg [p; sndr; src; sn; hc] e s
  = (set_sinkTable
       (insert src (next_sink_val (now e) sn hc (sinkTable s !! src))) s,
     [], Ok tt).
Proof.
  unfold update_sink_entry, dict_contains, next_sink_val. munfold. cbn.
  by destruct (sinkTable s !! src).
Qed.

Lemma adjust_keeps_sinkTable cfg key T :
  preserves (λ s, sinkTable s = T) (adjust_broadcast_interval cfg key).
Proof.
  unfold adjust_broadcast_interval, minium_addr_in_sink_neighbor_table.
  handler_auto; frame_leaf.
Qed.

(** A valid SINK packet, debugging on: the handler returns and the sink
    table gets the next value under the packet's source. *)
Lemma radio_rx_sink_table cfg e s meta sndr src sn hc :
  debug_stderr cfg = true →
  crc_ok (meta_dict_of meta) = true →
  sndr ≠ addr cfg → src ≠ addr cfg →
  let r := radio_rx cfg
             (pmt_cons meta (pmt_u8vector [SINK_PROTO; sndr; src; sn; hc]))
             e s in
  outcome r = Ok tt ∧ emitted r = [] ∧
  sinkTable (post r)
  = <[src := next_sink_val (now e) sn hc (sinkTable s !! src)]> (sinkTable s) ∧
  dataPacketTable (post r) = dataPacketTable s.
Proof.
  intros Hdbg Hcrc Hs Hr r. subst r.
  rewrite radio_rx_sink by done. unfold handle_sink_packet.
  rewrite (bind_ok _ _ _ _ _ _
             (update_sink_neighbor_entry_with_debug cfg e s _ _ _ _ _ Hdbg)).
  match goal with
  | |- context [(_ ≫= _) e ?s0] => set (s1 := s0)
  end.
  destruct (adjust_broadcast_interval_ok cfg (sndr, src) e s1 _
              (lookup_insert_eq _ _ _)) as [s2 Hadj].
  pose proof (adjust_keeps_sinkTable cfg (sndr, src)
                (sinkTable s) e s1 eq_refl) as Ht.
  assert (Hd : dataPacketTable s2 = dataPacketTable s).
  { assert (Hp : preserves (λ s, dataPacketTable s = dataPacketTable s1)
                   (adjust_broadcast_interval cfg (sndr, src))).
    { unfold adjust_broadcast_interval, minium_addr_in_sink_neighbor_table.
      handler_auto; frame_leaf. }
    specialize (Hp e s1 eq_refl). by rewrite Hadj in Hp. }
  rewrite Hadj in Ht. unfold post in Ht. cbn [fst snd] in Ht.
  rewrite (bind_ok _ _ _ _ _ _ Hadj), update_sink_entry_run.
  unfold outcome, emitted, post. cbn. by rewrite Ht.
Qed.

Ltac bool_cases :=
  repeat match goal with
         | |- context [if ?c then _ else _] => destruct c eqn:?; cbn in *
         end;
  repeat match goal with
         | H : (_ >? _) = _ |- _ => rewrite Z.gtb_ltb in H
         | H : (_ <? _) = true |- _ => apply Z.ltb_lt in H
         | H : (_ <? _) = false |- _ => apply Z.ltb_ge in H
         | H : (_ =? _) = true |- _ => apply Z.eqb_eq in H
         | H : (_ =? _) = false |- _ => apply Z.eqb_neq in H
         end.

Lemma next_sink_val_replay t t' sn hc old :
  (∀ a, old = Some a → scheduled a = true) →
  next_sink_val t' sn hc (Some (next_sink_val t sn hc old))
  = heard_at t' (next_sink_val t sn hc old).
Proof.
  intros Hsch. unfold next_sink_val, heard_at. destruct old as [a|].
  - rewrite (Hsch a eq_refl). cbn [negb].
    destruct (sn >? highest_rcvd_seq_num a) eqn:Hgt; cbn.
    + bool_cases; solve [reflexivity | lia].
    + destruct (sn =? highest_rcvd_seq_num a) eqn:Heq; cbn.
      * destruct (hc <? temp_min_dx_to_sink a) eqn:Hlt; cbn;
          rewrite ?Hgt, ?Heq, ?(Hsch a eq_refl); cbn;
          bool_cases; solve [reflexivity | lia].
      * rewrite Hgt, Heq. reflexivity.
  - cbn. bool_cases; solve [reflexivity | lia].
Qed.

(** X20.  Hearing the same SINK packet again (debugging on, the sink entry,
    if any, scheduled, as it is in every reachable state) schedules nothing
    more: the second receipt changes only [last_time_heard] of the sink
    entry written by the first one, and neither receipt emits. *)
Theorem sink_packet_replay_only_refreshes cfg e e' s meta sndr src sn hc :
  debug_stderr cfg = true →
  crc_ok (meta_dict_of meta) = true →
  sndr ≠ addr cfg → src ≠ addr cfg →
  (∀ a, sinkTable s !! src = Some a → scheduled a = true) →
  let msg := pmt_cons meta (pmt_u8vector [SINK_PROTO; sndr; src; sn; hc]) in
  let s1 := post (radio_rx cfg msg e s) in
  let s2 := post (radio_rx cfg msg e' s1) in
  ∃ v1,
    sinkTable s1 !! src = Some v1 ∧
    sinkTable s2 = <[src := heard_at (now e') v1]> (sinkTable s1) ∧
    emitted (radio_rx cfg msg e s) = [] ∧
    emitted (radio_rx cfg msg e' s1) = [].
Proof.
  intros Hdbg Hcrc Hs Hr Hsch msg s1 s2.
  destruct (radio_rx_sink_table cfg e s meta sndr src sn hc)
    as (_ & He1 & Ht1 & _); try done.
  destruct (radio_rx_sink_table cfg e' s1 meta sndr src sn hc)
    as (_ & He2 & Ht2 & _); try done.
  fold msg in He1, Ht1, He2, Ht2. fold s1 in Ht1, He2, Ht2. fold s2 in Ht2.
  exists (next_sink_val (now e) sn hc (sinkTable s !! src)).
  split; [by rewrite Ht1, lookup_insert_eq|]. split; [|done].
  rewrite Ht2. f_equal. rewrite Ht1, lookup_insert_eq.
  by apply next_sink_val_replay.
Qed.

Lemma sink_packet_replay_only_refreshes_witness :
  let msg := pdu [1; 1; 0; 0; 1] in
  let s1 := post (radio_rx dflood_dflood_3 msg (at_time 103)
                    (init dflood_dflood_3)) in
  let s2 := post (radio_rx dflood_dflood_3 msg (at_time 104) s1) in
  ∃ v1,
    sinkTable s1 !! 0 = Some v1 ∧
    sinkTable s2 = <[0 := heard_at 104 v1]> (sinkTable s1) ∧
    emitted (radio_rx dflood_dflood_3 msg (at_time 103) (init dflood_dflood_3))
    = [] ∧
    emitted (radio_rx dflood_dflood_3 msg (at_time 104) s1) = [].
Proof.
  apply (sink_packet_replay_only_refreshes dflood_dflood_3 (at_time 103)
           (at_time 104) (init dflood_dflood_3) (pmt_dict ∅) 1 0 0 1);
    [reflexivity | reflexivity | cbn; lia | cbn; lia |].
  intros a Ha. cbn in Ha. by rewrite lookup_empty in Ha.
Defined.



(** ** No gradient to oneself *)

Lemma handle_sink_packet_no_own_entry cfg meta p sndr src sn hc :
  src ≠ addr cfg →
  preserves (no_own_entry cfg)
    (handle_sink_packet cfg [p; sndr; src; sn; hc] meta).
Proof.
  intros Hsrc. unfold handle_sink_packet, update_sink_neighbor_entry,
    adjust_broadcast_interval, minium_addr_in_sink_neighbor_table.
  handler_auto; try frame_leaf.
  intros e s Hs. rewrite update_sink_entry_run. unfold post, no_own_entry.
  cbn. by rewrite lookup_insert_ne.
Qed.

Lemma radio_rx_no_own_entry cfg msg :
  preserves (no_own_entry cfg) (radio_rx cfg msg).
Proof.
  intros e s Hs.
  destruct (radio_rx_dispatch cfg msg e s)
    as [-> | [-> | [(meta & sndr & src & sn & hc & _ & Hsrc & ->)
       | [(meta & sndr & src & sn & hc & dest & ttl & payload & _ & _ & ->)
       | (meta & sndr & src & sn & _ & _ & ->)]]]]; try done.
  - by apply handle_sink_packet_no_own_entry.
  - revert e s Hs. fold (preserves (no_own_entry cfg)
      (handle_data_packet cfg
         (DATA_PROTO :: sndr :: src :: sn :: hc :: dest :: ttl :: payload)
         meta)).
    handler_unfold. handler_auto; frame_leaf.
  - rewrite handle_receive_notification_run.
    by destruct (dataPacketTable s !! (src, sndr, sn)).
Qed.

Lemma handle_no_own_entry cfg ev : preserves (no_own_entry cfg) (handle cfg ev).
Proof.
  destruct ev as [msg|msg|msg]; cbn [handle].
  - apply radio_rx_no_own_entry.
  - handler_unfold. handler_auto; frame_leaf.
  - intros e s Hs.
    pose proof (ctrl_rx_sinkTable_subseteq cfg msg (sinkTable s) e s
                  (reflexivity _)) as Hsub.
    unfold no_own_entry in *.
    destruct (sinkTable (post (ctrl_rx cfg msg e s)) !! addr cfg) eqn:Hl;
      [|done].
    eapply lookup_weaken in Hl; [|exact Hsub]. congruence.
Qed.

Lemma run_no_own_entry cfg tr s :
  no_own_entry cfg s → no_own_entry cfg (run cfg s tr).1.
Proof.
  revert s. induction tr as [|[e ev] tr IH]; intros s Hs; [done|].
  cbn [run fst]. apply IH. unfold step. cbn [fst snd].
  by apply (handle_no_own_entry cfg ev e s).
Qed.

(** X22.  A node never records a gradient to itself (SINK packets it sent or
    originated are rejected at the radio ingress), so on a sink, whose sink
    address is its own, every application payload is dropped: the
    application ingress emits nothing in any state the sink reaches. *)
Theorem sink_drops_its_own_payloads cfg tr msg e :
  addr cfg = SINK_ADDR cfg →
  let s := (run cfg (init cfg) tr).1 in
  sinkTable s !! addr cfg = None ∧
  emitted (app_rx cfg msg e s) = [] ∧
  outcome (app_rx cfg msg e s) = Ok tt.
Proof.
  intros Hsink s.
  assert (Hs : sinkTable s !! addr cfg = None).
  { apply (run_no_own_entry cfg tr (init cfg)). unfold no_own_entry.
    cbn. apply lookup_empty. }
  split; [done|].
  unfold app_rx, _app_rx. destruct msg as [| | | | | |meta data]; try done.
  destruct data; try done.
  unfold send_pkt_radio, dict_contains, emitted, outcome. munfold.
  rewrite <- Hsink, Hs. by cbn.
Qed.

Lemma sink_drops_its_own_payloads_witness :
  let s := (run dflood_dflood_0 (init dflood_dflood_0) sink_hears_its_echo).1 in
  sinkTable s !! 0 = None ∧
  emitted (app_rx dflood_dflood_0 (pdu [170]) (at_time 108) s) = [] ∧
  outcome (app_rx dflood_dflood_0 (pdu [170]) (at_time 108) s) = Ok tt.
Proof.
  apply (sink_drops_its_own_payloads dflood_dflood_0 sink_hears_its_echo
           (pdu [170]) (at_time 108)).
  reflexivity.
Defined.

(** ** What the tick leaves alone *)

Lemma send_data_packets_frame cfg s0 :
  preserves (tick_frame s0) (send_data_packets cfg).
Proof.
  unfold send_data_packets. apply preserves_bind; [handler_auto|].
  intros s1. apply preserves_for_each. intros k e s Hs.
  rewrite forward_data_entry_run. unfold post.
  destruct (dataPacketTable s !! k) as [v|] eqn:Hk; [|done].
  destruct (_ && _); [|done].
  destruct (dp_data v); [|done]. cbn.
  destruct Hs as (? & ? & ? & ? & Hd). repeat split; try done.
  intros k' Hk'. apply Hd. cbn in Hk'.
  rewrite lookup_insert in Hk'. case_decide; [by subst|done].
Qed.

(** X23.  The tick only forwards and forgets: whether it returns or raises,
    it adds no key to any of the three tables, changes no value of the
    sink-neighbor and sink tables, and leaves the packet counter and the
    broadcast interval as they were. *)
Theorem tick_never_adds_entries cfg msg e s :
  let s' := post (ctrl_rx cfg msg e s) in
  sinkNeighborTable s' ⊆ sinkNeighborTable s ∧
  sinkTable s' ⊆ sinkTable s ∧
  (∀ k, is_Some (dataPacketTable s' !! k) → is_Some (dataPacketTable s !! k)) ∧
  pkt_cnt s' = pkt_cnt s ∧
  broadcast_interval s' = broadcast_interval s.
Proof.
  intros s'. subst s'.
  destruct (ctrl_rx_run cfg msg e s) as (s1 & o1 & H1 & ->).
  destruct (send_sink_packets_run cfg e s)
    as (s1' & o1' & H1' & Hd1 & Hs1 & Hn1 & Hp1 & Hb1).
  rewrite H1 in H1'. injection H1' as <- <-.
  assert (H0 : tick_frame s s1).
  { unfold tick_frame. rewrite Hn1, Hs1, Hp1, Hb1, Hd1. by repeat split. }
  pose proof (send_data_packets_frame cfg s e s1 H0) as H2.
  unfold post in H2.
  destruct (send_data_packets cfg e s1) as [[s2 o2] [[]|x]];
    cbn [fst snd] in H2; destruct H2 as (Hn2 & Hs2 & Hp2 & Hb2 & Hd2).
  - destruct (aging_run cfg e s2)
      as (s3 & -> & Hn3 & Hs3 & Hd3 & Hb3 & _ & _ & Hp3).
    unfold post. cbn [fst snd]. repeat split.
    + rewrite <- Hn2. apply map_subseteq_spec. intros k v. rewrite Hn3.
      destruct (sinkNeighborTable s2 !! k) as [v0|]; [|done].
      by destruct (expired _ _ _).
    + rewrite <- Hs2. apply map_subseteq_spec. intros k v. rewrite Hs3.
      destruct (sinkTable s2 !! k) as [v0|]; [|done].
      by destruct (expired _ _ _).
    + intros k Hk. apply Hd2. rewrite Hd3 in Hk.
      destruct (dataPacketTable s2 !! k); [done|by destruct Hk].
    + congruence.
    + congruence.
  - unfold post. cbn [fst snd]. repeat split; try done.
    + by rewrite Hn2.
    + by rewrite Hs2.
Qed.

Lemma handle_keeps_sequence_number cfg ev n :
  addr cfg ≠ SINK_ADDR cfg →
  preserves (λ s, sequence_number s = n) (handle cfg ev).
Proof.
  intros Hns. apply Z.eqb_neq in Hns.
  destruct ev; cbn [handle]; handler_unfold; unfold update_sink_entry;
    rewrite ?Hns; handler_auto; frame_leaf.
Qed.

(** X24.  A node that is not a sink never originates a beacon: whatever it
    receives, its sequence number stays what it was. *)
Theorem non_sink_keeps_sequence_number cfg tr s :
  addr cfg ≠ SINK_ADDR cfg →
  sequence_number (run cfg s tr).1 = sequence_number s.
Proof.
  intros Hns. revert s. induction tr as [|[e ev] tr IH]; intros s; [done|].
  cbn [run fst]. rewrite IH. unfold step. cbn [fst snd].
  by apply (handle_keeps_sequence_number cfg ev (sequence_number s) Hns e s).
Qed.

Lemma non_sink_keeps_sequence_number_witness :
  sequence_number
    (run dflood_dflood_3 (init dflood_dflood_3) block_3_joins).1 = 0.
Proof.
  apply (non_sink_keeps_sequence_number dflood_dflood_3 block_3_joins
           (init dflood_dflood_3)).
  cbn; lia.
Defined.

(** ** Exceptions of the radio ingress *)

Lemma handle_sink_packet_with_debug cfg e s meta p sndr src sn hc :
  debug_stderr cfg = true →
  outcome (handle_sink_packet cfg [p; sndr; src; sn; hc] meta e s) = Ok tt.
Proof.
  intros Hdbg. unfold handle_sink_packet.
  rewrite (bind_ok _ _ _ _ _ _
             (update_sink_neighbor_entry_with_debug cfg e s _ _ _ _ _ Hdbg)).
  match goal with
  | |- context [(_ ≫= _) e ?s0] => set (s1 := s0)
  end.
  destruct (adjust_broadcast_interval_ok cfg (sndr, src) e s1 _
              (lookup_insert_eq _ _ _)) as [s2 Hadj].
  by rewrite (bind_ok _ _ _ _ _ _ Hadj), update_sink_entry_run.
Qed.

(** Run the checks of [_radio_rx] on a vector of the right shape. *)
Ltac to_handler cfg e s Hrej :=
  match goal with H : _ || _ = false |- _ =>
    apply orb_false_elim in H as [? ?] end;
  unfold radio_rx, _radio_rx; rewrite Hrej;
  generalize (handle_sink_packet cfg), (handle_data_packet cfg),
    (handle_receive_notification cfg);
  intros h1 h2 h3; munfold; cbn;
  repeat match goal with H : (_ =? _) = false |- _ => rewrite H; clear H end;
  cbn;
  destruct (debug_stderr cfg); cbn;
  match goal with |- context [?h _ _ e s] =>
    by destruct (h _ _ e s) as [[? ?] ?] end.

(** A message that passes the checks and is not the empty vector reaches one
    of the three packet handlers. *)
Lemma radio_rx_accepted cfg meta proto rest e s :
  rejected cfg (pmt_cons meta (pmt_u8vector (proto :: rest))) = false →
  let r := radio_rx cfg (pmt_cons meta (pmt_u8vector (proto :: rest))) e s in
  (∃ sndr src sn hc,
     r = handle_sink_packet cfg [SINK_PROTO; sndr; src; sn; hc]
           (meta_dict_of meta) e s) ∨
  (∃ sndr src sn hc dest ttl payload,
     r = handle_data_packet cfg
           (DATA_PROTO :: sndr :: src :: sn :: hc :: dest :: ttl :: payload)
           (meta_dict_of meta) e s) ∨
  (∃ sndr src sn,
     r = handle_receive_notification cfg [NOTI_PROTO; sndr; src; sn]
           (meta_dict_of meta) e s).
Proof.
  intros Hrej r. subst r. cbn [rejected] in Hrej.
  repeat (apply orb_false_iff in Hrej as [Hrej ?]).
  apply negb_false_iff in Hrej.
  match goal with H : negb (py_in _ _) = false |- _ =>
    apply negb_false_iff in H; apply py_in_protos in H as [-> | [-> | ->]] end.
  - destruct rest as [|sndr [|src [|sn [|hc [|dest [|ttl payload]]]]]];
      cbn in * |-; try discriminate.
    right. left. exists sndr, src, sn, hc, dest, ttl, payload.
    to_handler cfg e s Hrej.
  - destruct rest as [|sndr [|src [|sn [|hc [|]]]]]; cbn in * |-;
      try discriminate.
    left. exists sndr, src, sn, hc. to_handler cfg e s Hrej.
  - destruct rest as [|sndr [|src [|sn [|]]]]; cbn in * |-; try discriminate.
    right. right. exists sndr, src, sn. to_handler cfg e s Hrej.
Qed.

(** X25.  With debugging on, the radio ingress raises on one message only,
    the empty u8vector with a good CRC, on which it raises [IndexError]:
    every other message, well-formed or not, is handled to the end. *)
Theorem radio_rx_raises_only_on_empty_vector cfg msg e s :
  debug_stderr cfg = true →
  outcome (radio_rx cfg msg e s)
  = if empty_vector msg then Raise IndexError else Ok tt.
Proof.
  intros Hdbg.
  destruct (rejected cfg msg) eqn:Hrej.
  { rewrite radio_rx_rejected by done.
    destruct msg as [| | | | |  |meta d]; try done.
    destruct d as [| | | |elts| |]; try done.
    destruct elts; [|done]. cbn in *.
    apply negb_true_iff in Hrej. by rewrite Hrej. }
  destruct msg as [| | | | |  |meta d]; try discriminate.
  destruct d as [| | | |elts| |]; try discriminate.
  destruct elts as [|proto rest].
  { cbn in *. apply negb_false_iff in Hrej. rewrite Hrej.
    unfold radio_rx, _radio_rx. by rewrite Hrej. }
  cbn [empty_vector].
  destruct (radio_rx_accepted cfg meta proto rest e s Hrej)
    as [(sndr & src & sn & hc & ->)
       | [(sndr & src & sn & hc & dest & ttl & payload & ->)
       | (sndr & src & sn & ->)]].
  - by apply handle_sink_packet_with_debug.
  - rewrite handle_data_packet_run.
    destruct (dest =? addr cfg); [done|].
    destruct (sinkTable s !! dest) as [sv|]; [|done].
    destruct (ttl - 1 <? _); [done|].
    destruct (dataPacketTable s !! _); [|done].
    by destruct (hc <=? _).
  - rewrite handle_receive_notification_run.
    by destruct (dataPacketTable s !! _).
Qed.

Lemma radio_rx_raises_only_on_empty_vector_witness :
  outcome (radio_rx dflood_dflood_1 (pdu [1; 0]) (at_time 100)
             (init dflood_dflood_1)) = Ok tt.
Proof.
  apply (radio_rx_raises_only_on_empty_vector dflood_dflood_1 (pdu [1; 0])
           (at_time 100) (init dflood_dflood_1)).
  reflexivity.
Defined.

(** * The sink-neighbor entry of a known key *)



